(** * BlueGuard: telemetry stream manager and spatial risk analytics

    A shallow embedding of [server/services/iot-service.ts] and
    [server/services/geo-analytics-service.ts], with the properties the
    specification states about them.

    Conventions of the embedding.
    - A JavaScript number is modelled by [JS.number]: a finite value is an
      exact rational (rounding of IEEE doubles is idealised away), and the
      three special values +Infinity, -Infinity and NaN are kept, with the
      IEEE rules for division by zero and NaN propagation.  Where the source
      only adds, subtracts or multiplies finite values the embedding works in
      [Q] directly.  The one product whose integer part the code takes,
      [points.length * 0.7], is rounded to a double by [JS.double].
    - [Math.random()] is an oracle [Math_random : nat -> Q]; the n-th call of
      a run returns [Math_random n], and the code threads the call counter
      through the [Gen] monad.
    - [Math.sin], [Math.cos], [Math.sqrt] and [Math.atan2] are
      implementation-approximated in ECMAScript; they are the fields of the
      class [ECMAMath] and every theorem holds for every implementation.
    - [Date.now()] is the parameter [now] (milliseconds since the epoch); a
      [Date] is its [getTime()] value.
    - A JS [Map] or object used as a dictionary is a [gmap]. *)

From Stdlib Require Import ZArith QArith Qround Qminmax Qabs Qpower Lia Lqa List Ascii String.
From Stdlib Require Import Sorted Permutation.
From stdpp Require Import base gmap strings list fin_maps pretty.

Local Open Scope string_scope.

(** ** JavaScript numbers and host functions *)

Module JS.

Inductive number : Type :=
  | Fin (q : Q)
  | PosInf
  | NegInf
  | NaN.

Definition Qltb (x y : Q) : bool := if Qlt_le_dec x y then true else false.
Definition Qleb (x y : Q) : bool := Qle_bool x y.
Definition Qis0 (x : Q) : bool := Qeq_bool x 0.

(** [a / b].  A zero divisor gives an infinity of the sign of the dividend,
    and NaN for [0 / 0]. *)
Definition div (a b : number) : number :=
  match a, b with
  | NaN, _ | _, NaN => NaN
  | Fin x, Fin y =>
      if Qis0 y then
        (if Qis0 x then NaN else if Qltb 0 x then PosInf else NegInf)
      else Fin (x / y)
  | Fin _, (PosInf | NegInf) => Fin 0
  | (PosInf | NegInf), (PosInf | NegInf) => NaN
  | PosInf, Fin y => if Qltb y 0 then NegInf else PosInf
  | NegInf, Fin y => if Qltb y 0 then PosInf else NegInf
  end.

Definition mul (a b : number) : number :=
  match a, b with
  | NaN, _ | _, NaN => NaN
  | Fin x, Fin y => Fin (x * y)
  | Fin x, PosInf | PosInf, Fin x =>
      if Qis0 x then NaN else if Qltb 0 x then PosInf else NegInf
  | Fin x, NegInf | NegInf, Fin x =>
      if Qis0 x then NaN else if Qltb 0 x then NegInf else PosInf
  | PosInf, PosInf | NegInf, NegInf => PosInf
  | PosInf, NegInf | NegInf, PosInf => NegInf
  end.

Definition add (a b : number) : number :=
  match a, b with
  | NaN, _ | _, NaN => NaN
  | Fin x, Fin y => Fin (x + y)
  | PosInf, NegInf | NegInf, PosInf => NaN
  | PosInf, _ | _, PosInf => PosInf
  | NegInf, _ | _, NegInf => NegInf
  end.

(** [a < b] and [a > b]; every comparison with NaN is false. *)
Definition ltb (a b : number) : bool :=
  match a, b with
  | NaN, _ | _, NaN => false
  | Fin x, Fin y => Qltb x y
  | _, NegInf | PosInf, _ => false
  | NegInf, _ | _, PosInf => true
  end.

Definition gtb (a b : number) : bool := ltb b a.

(** [Math.max(a, b)] and [Math.min(a, b)]: NaN when either argument is. *)
Definition max (a b : number) : number :=
  match a, b with
  | NaN, _ | _, NaN => NaN
  | _, _ => if ltb a b then b else a
  end.

Definition min (a b : number) : number :=
  match a, b with
  | NaN, _ | _, NaN => NaN
  | _, _ => if ltb b a then b else a
  end.

(** [Math.round]: the nearest integer, halves towards +Infinity. *)
Definition Qround (x : Q) : Z := Qfloor (x + (1 # 2)).

Definition round (a : number) : number :=
  match a with
  | Fin x => Fin (inject_Z (Qround x))
  | _ => a
  end.

(** The integer nearest to [x], a half going to the even neighbour. *)
Definition roundEven (x : Q) : Z :=
  let f := Qfloor x in
  let rest := (x - inject_Z f)%Q in
  if Qltb rest (1 # 2) then f
  else if Qltb (1 # 2) rest then (f + 1)%Z
  else if Z.even f then f else (f + 1)%Z.

(** The binary exponent of a positive [x]: the [e] with
    [2 ^ e <= x < 2 ^ (e + 1)]. *)
Definition exponent (x : Q) : Z :=
  let e := (Z.log2 (Qnum x) - Z.log2 (Zpos (Qden x)))%Z in
  if Qleb (2 ^ e) x then e else (e - 1)%Z.

(** The double nearest to [x] (IEEE 754 binary64, round to nearest, ties to
    even), for [x] in the range of the normal doubles: 53 significant bits.
    It is what a decimal literal denotes and what one arithmetic operation
    on doubles returns for the exact result [x]. *)
Definition double (x : Q) : Q :=
  if Qis0 x then 0%Q
  else
    let a := Qabs x in
    let scale := (52 - exponent a)%Z in
    let v := (inject_Z (roundEven (a * 2 ^ scale)) * 2 ^ (- scale))%Q in
    if Qltb x 0 then (- v)%Q else v.

(** The double nearest to pi, which is what [Math.PI] holds. *)
Definition Math_PI : Q := 884279719003555 # 281474976710656.

(** The implementation-approximated functions of [Math], and the two
    number-to-string conversions the alert messages use. *)
Class ECMAMath : Type := {
  Math_sin : Q -> Q;
  Math_cos : Q -> Q;
  Math_sqrt : Q -> Q;
  Math_atan2 : Q -> Q -> Q;
  Number_toFixed : Q -> nat -> string;
  Number_toString : Q -> string
}.

(** Code that calls [Math.random()]: a state monad over the number of calls
    made so far. *)
Definition Gen (A : Type) : Type := nat -> A * nat.

Definition ret {A} (a : A) : Gen A := fun n => (a, n).

Definition bind {A B} (m : Gen A) (k : A -> Gen B) : Gen B :=
  fun n => let (a, n') := m n in k a n'.

Definition random (Math_random : nat -> Q) : Gen Q :=
  fun n => (Math_random n, S n).

(** Every draw of [Math.random()] lies in [0, 1). *)
Definition inUnitInterval (Math_random : nat -> Q) : Prop :=
  forall n, (0 <= Math_random n)%Q /\ (Math_random n < 1)%Q.

End JS.

Notation "'let!' x ':=' m 'in' k" := (JS.bind m (fun x => k))
  (at level 10, x name, m at level 100, k at level 200, only parsing).

(** ** The telemetry stream manager ([iot-service.ts]) *)

Module IoT.

Import JS.

Inductive SensorType : Type :=
  | wave | tide | weather | seismic | water_quality | marine_life.

Inductive Quality : Type := excellent | good | fair | poor.

Inductive Condition : Type := above | below | between | outside.

Inductive Severity : Type := low | medium | high | critical.

Inductive JSValue : Type :=
  | VNumber (q : Q)
  | VString (s : string)
  | VBoolean (b : bool).

Record Location : Type := { lat : Q; lon : Q; name : string }.

Record SensorConfig : Type := {
  id : string;
  type : SensorType;
  location : Location;
  updateInterval : Q;
  isActive : bool;
  lastMaintenance : Z
}.

Record SensorReading : Type := {
  sensorId : string;
  timestamp : Z;
  data : gmap string JSValue;
  quality : Quality;
  batteryLevel : option Q;
  signalStrength : option Q
}.

Record AlertThreshold : Type := {
  sensorType : string;
  parameter : string;
  minValue : option Q;
  maxValue : option Q;
  condition : Condition;
  severity : Severity
}.

(** The string a [SensorConfig['type']] is at run time. *)
Definition typeName (t : SensorType) : string :=
  match t with
  | wave => "wave"
  | tide => "tide"
  | weather => "weather"
  | seismic => "seismic"
  | water_quality => "water_quality"
  | marine_life => "marine_life"
  end.

Section Synthesis.

Context {M : ECMAMath}.
Variable Math_random : nat -> Q.
Variable now : Z.

Let rnd : Gen Q := random Math_random.

Definition object (fields : list (string * Q)) : gmap string JSValue :=
  list_to_map (List.map (fun kv => (fst kv, VNumber (snd kv))) fields).

(** The [switch (config.type)] of [generateSensorReading]: the [data] object
    and the local variable [quality] as they are when the switch is left.
    [quality] starts as ['good'] and only the seismic spike assigns it. *)
Definition sensorData (config : SensorConfig)
  : Gen (gmap string JSValue * Quality) :=
  let t := inject_Z now in
  match type config with
  | wave =>
      let! r1 := rnd in let! r2 := rnd in let! r3 := rnd in let! r4 := rnd in
      ret (object
             [("height", Qmax 0.2 (2.5 + Math_sin (t / 60000) * 1.5 + (r1 - 0.5) * 1.0));
              ("period", 8 + r2 * 4);
              ("direction", r3 * 360);
              ("energy", r4 * 100)], good)
  | tide =>
      let! r1 := rnd in let! r2 := rnd in let! r3 := rnd in
      ret (object
             [("level", Math_sin (t / 43200000) * 2.5 + (r1 - 0.5) * 0.3);
              ("flow", (r2 - 0.5) * 2);
              ("temperature", 18 + r3 * 8)], good)
  | weather =>
      let! r1 := rnd in let! r2 := rnd in let! r3 := rnd in let! r4 := rnd in let! r5 := rnd in
      let! r6 := rnd in
      let! rain := (if Qltb r6 0.3 then let! r7 := rnd in ret (r7 * 5)
                    else ret 0) in
      ret (object
             [("temperature", 20 + Math_sin (t / 86400000) * 10 + (r1 - 0.5) * 3);
              ("humidity", 60 + r2 * 30);
              ("pressure", 1013 + (r3 - 0.5) * 20);
              ("windSpeed", Qmax 0 (8 + r4 * 15));
              ("windDirection", r5 * 360);
              ("rainfall", rain)], good)
  | seismic =>
      let! r1 := rnd in let! r2 := rnd in let! r3 := rnd in let! r4 := rnd in let! r5 := rnd in
      let data :=
        object
          [("magnitude", r1 * 2.5);
           ("frequency", 1 + r2 * 10);
           ("pWaveVelocity", 5000 + r3 * 1000);
           ("sWaveVelocity", 3000 + r4 * 500);
           ("acceleration", r5 * 0.1)] in
      let! r6 := rnd in
      if Qltb r6 0.05 then
        let! r7 := rnd in
        ret (<["magnitude" := VNumber (2.5 + r7 * 2)]> data, excellent)
      else ret (data, good)
  | water_quality =>
      let! r1 := rnd in let! r2 := rnd in let! r3 := rnd in let! r4 := rnd in let! r5 := rnd in
      let! r6 := rnd in let! r7 := rnd in
      ret (object
             [("ph", 7.0 + (r1 - 0.5) * 2);
              ("dissolvedOxygen", 6 + r2 * 3);
              ("turbidity", r3 * 10);
              ("temperature", 18 + r4 * 8);
              ("salinity", 35 + (r5 - 0.5) * 5);
              ("nitrateLevel", r6 * 2);
              ("phosphateLevel", r7 * 0.5)], good)
  | marine_life =>
      let! r1 := rnd in let! r2 := rnd in let! r3 := rnd in let! r4 := rnd in let! r5 := rnd in
      ret (<["migrationIndicator" := VBoolean (Qltb 0.7 r4)]>
             (object
                [("fishCount", inject_Z (Qfloor (r1 * 50)));
                 ("avgFishSize", 10 + r2 * 20);
                 ("speciesCount", inject_Z (Qfloor (r3 * 10)) + 1);
                 ("biomassIndex", r5 * 100)]), good)
  end%Q.

Definition daysSinceMaintenance (config : SensorConfig) : Q :=
  inject_Z (now - lastMaintenance config) / 86400000.

(** The [if]/[else if] chain that assigns [quality] after the switch. *)
Definition degrade (days : Q) (quality : Quality) : Quality :=
  if Qltb 30 days then poor
  else if Qltb 14 days then fair
  else if Qltb 7 days then good
  else excellent.

Definition generateSensorReading (config : SensorConfig) : Gen SensorReading :=
  let baseTimestamp := now in
  let! dq := sensorData config in
  let days := daysSinceMaintenance config in
  let quality := degrade days (snd dq) in
  let! r1 := rnd in let! r2 := rnd in
  ret {| sensorId := id config;
         timestamp := baseTimestamp;
         data := fst dq;
         quality := quality;
         batteryLevel := Some (Qmax 10 (100 - days * 2 + (r1 - 0.5) * 10));
         signalStrength := Some (Qmax 20 (100 - r2 * 30)) |}%Q.

(** A run of [generateSensorReading] takes the seismic spike branch exactly
    when [quality] is ['excellent'] on leaving the switch. *)
Definition takesSpikeBranch (config : SensorConfig) (calls : nat) : bool :=
  match snd (fst (sensorData config calls)) with
  | excellent => true
  | _ => false
  end.

End Synthesis.

(** *** Threshold evaluation *)

Record Alert : Type := {
  alert_parameter : string;
  alert_value : Q;
  alert_threshold : AlertThreshold;
  alert_message : string
}.

(** The envelope [processSensorReading] broadcasts. *)
Record Envelope : Type := {
  env_type : string;
  env_data : SensorReading;
  env_alerts : list Alert
}.

(** Truthiness of an optional numeric bound, as [threshold.maxValue && ...]
    tests it: [undefined] and [0] are both falsy. *)
Definition truthy (bound : option Q) : bool :=
  match bound with
  | Some b => negb (Qis0 b)
  | None => false
  end.

Definition showBound `{ECMAMath} (bound : option Q) : string :=
  match bound with
  | Some b => Number_toString b
  | None => "undefined"
  end.

Section Thresholds.

Context {M : ECMAMath}.

(** The [switch (threshold.condition)]: the pair [(triggered, message)]. *)
Definition evaluateCondition (threshold : AlertThreshold) (value : Q)
  : bool * string :=
  let shown := parameter threshold ++ " (" ++ Number_toFixed value 2 ++ ")" in
  match condition threshold with
  | above =>
      match maxValue threshold with
      | Some mx =>
          if truthy (Some mx) && Qltb mx value
          then (true, shown ++ " exceeds maximum threshold ("
                        ++ showBound (maxValue threshold) ++ ")")
          else (false, "")
      | None => (false, "")
      end
  | below =>
      match minValue threshold with
      | Some mn =>
          if truthy (Some mn) && Qltb value mn
          then (true, shown ++ " below minimum threshold ("
                        ++ showBound (minValue threshold) ++ ")")
          else (false, "")
      | None => (false, "")
      end
  | outside =>
      match minValue threshold, maxValue threshold with
      | Some mn, Some mx =>
          if truthy (Some mn) && truthy (Some mx)
             && (Qltb value mn || Qltb mx value)
          then (true, shown ++ " outside normal range ("
                        ++ showBound (minValue threshold) ++ "-"
                        ++ showBound (maxValue threshold) ++ ")")
          else (false, "")
      | _, _ => (false, "")
      end
  | between => (false, "")
  end.

(** The alert object a triggered rule pushes. *)
Definition alertOf (threshold : AlertThreshold) (value : Q) : Alert :=
  {| alert_parameter := parameter threshold;
     alert_value := value;
     alert_threshold := threshold;
     alert_message := snd (evaluateCondition threshold value) |}.

(** The callback of [forEach] in [checkAlertThresholds], on the array
    [alerts] built so far. *)
Definition evaluateThreshold (reading : SensorReading) (alerts : list Alert)
    (threshold : AlertThreshold) : list Alert :=
  match data reading !! parameter threshold with
  | Some (VNumber value) =>
      let (triggered, message) := evaluateCondition threshold value in
      if triggered
      then alerts ++ [ {| alert_parameter := parameter threshold;
                          alert_value := value;
                          alert_threshold := threshold;
                          alert_message := message |} ]
      else alerts
  | _ => alerts
  end.

Definition checkAlertThresholds (sensorConfigs : gmap string SensorConfig)
    (alertThresholds : list AlertThreshold) (reading : SensorReading)
  : list Alert :=
  match sensorConfigs !! sensorId reading with
  | None => []
  | Some config =>
      fold_left (evaluateThreshold reading)
        (List.filter
           (fun threshold => String.eqb (sensorType threshold) (typeName (type config)))
           alertThresholds)
        []
  end.

End Thresholds.

(** *** Registry, timers and message handling *)

(** A live [setInterval] timer: the registry key it was started for and
    the delay argument, in milliseconds, it was created with; how Node
    reads that argument is [period] below.  The config object its callback
    captures is not recorded. *)
Record Timer : Type := { timerKey : string; timerDelay : Q }.

(** The fields of [IoTService] (without the socket server and its clients),
    the timers of the event loop that are still running, and the number of
    [Timeout] handles handed out so far. *)
Record State : Type := {
  sensorConfigs : gmap string SensorConfig;
  streamingIntervals : gmap string nat;
  alertThresholds : list AlertThreshold;
  isInitialized : bool;
  timers : gmap nat Timer;
  nextTimer : nat
}.

Definition newService : State :=
  {| sensorConfigs := ∅; streamingIntervals := ∅; alertThresholds := [];
     isInitialized := false; timers := ∅; nextTimer := 0 |}.

Definition set_sensorConfigs (m : gmap string SensorConfig) (st : State) : State :=
  {| sensorConfigs := m; streamingIntervals := streamingIntervals st;
     alertThresholds := alertThresholds st; isInitialized := isInitialized st;
     timers := timers st; nextTimer := nextTimer st |}.

Definition set_streamingIntervals (m : gmap string nat) (st : State) : State :=
  {| sensorConfigs := sensorConfigs st; streamingIntervals := m;
     alertThresholds := alertThresholds st; isInitialized := isInitialized st;
     timers := timers st; nextTimer := nextTimer st |}.

Definition set_alertThresholds (l : list AlertThreshold) (st : State) : State :=
  {| sensorConfigs := sensorConfigs st; streamingIntervals := streamingIntervals st;
     alertThresholds := l; isInitialized := isInitialized st;
     timers := timers st; nextTimer := nextTimer st |}.

Definition set_isInitialized (b : bool) (st : State) : State :=
  {| sensorConfigs := sensorConfigs st; streamingIntervals := streamingIntervals st;
     alertThresholds := alertThresholds st; isInitialized := b;
     timers := timers st; nextTimer := nextTimer st |}.

(** [setInterval(callback, delay)]: a fresh handle, now running, recorded
    with the argument [delay] as it is passed. *)
Definition setInterval (key : string) (delay : Q) (st : State) : nat * State :=
  (nextTimer st,
   {| sensorConfigs := sensorConfigs st; streamingIntervals := streamingIntervals st;
      alertThresholds := alertThresholds st; isInitialized := isInitialized st;
      timers := <[nextTimer st := {| timerKey := key; timerDelay := delay |}]> (timers st);
      nextTimer := S (nextTimer st) |}).

Definition clearInterval (handle : nat) (st : State) : State :=
  {| sensorConfigs := sensorConfigs st; streamingIntervals := streamingIntervals st;
     alertThresholds := alertThresholds st; isInitialized := isInitialized st;
     timers := delete handle (timers st); nextTimer := nextTimer st |}.

Definition day : Z := 24 * 60 * 60 * 1000.

Definition defaultSensors (now : Z) : list SensorConfig :=
  [ {| id := "wave_001"; type := wave;
       location := {| lat := 40.7128; lon := -74.0060; name := "New York Harbor Alpha" |};
       updateInterval := 30; isActive := true;
       lastMaintenance := now - 7 * day |};
    {| id := "tide_001"; type := tide;
       location := {| lat := 40.7589; lon := -73.9851; name := "Central Park Reservoir Beta" |};
       updateInterval := 60; isActive := false;
       lastMaintenance := now - 14 * day |};
    {| id := "weather_001"; type := weather;
       location := {| lat := 40.6892; lon := -74.0445; name := "Gamma Weather Station" |};
       updateInterval := 15; isActive := true;
       lastMaintenance := now - 3 * day |};
    {| id := "seismic_001"; type := seismic;
       location := {| lat := 40.7282; lon := -74.0776; name := "Seismic Monitor Delta" |};
       updateInterval := 5; isActive := true;
       lastMaintenance := now - 1 * day |};
    {| id := "water_001"; type := water_quality;
       location := {| lat := 40.7505; lon := -73.9934; name := "Water Quality Epsilon" |};
       updateInterval := 300; isActive := true;
       lastMaintenance := now - 5 * day |} ]%Z.

Definition initializeSensorConfigs (now : Z) (st : State) : State :=
  fold_left
    (fun st sensor => set_sensorConfigs (<[id sensor := sensor]> (sensorConfigs st)) st)
    (defaultSensors now) st.

Definition defaultThresholds : list AlertThreshold :=
  [ {| sensorType := "wave"; parameter := "height"; minValue := None;
       maxValue := Some 4.0; condition := above; severity := high |};
    {| sensorType := "wave"; parameter := "height"; minValue := None;
       maxValue := Some 6.0; condition := above; severity := critical |};
    {| sensorType := "tide"; parameter := "level"; minValue := Some (-3.0);
       maxValue := Some 3.0; condition := outside; severity := medium |};
    {| sensorType := "weather"; parameter := "windSpeed"; minValue := None;
       maxValue := Some 25.0; condition := above; severity := medium |};
    {| sensorType := "weather"; parameter := "windSpeed"; minValue := None;
       maxValue := Some 40.0; condition := above; severity := high |};
    {| sensorType := "seismic"; parameter := "magnitude"; minValue := None;
       maxValue := Some 3.0; condition := above; severity := medium |};
    {| sensorType := "water_quality"; parameter := "ph"; minValue := Some 6.5;
       maxValue := Some 8.5; condition := outside; severity := medium |} ]%Q.

Definition setupAlertThresholds (st : State) : State :=
  set_alertThresholds defaultThresholds st.

(** The callback of [this.sensorConfigs.forEach] in
    [startSensorDataStreams]. *)
Definition startStream (sensorId : string) (config : SensorConfig) (st : State)
  : State :=
  if isActive config then
    let (interval, st') := setInterval sensorId (updateInterval config * 1000) st in
    set_streamingIntervals (<[sensorId := interval]> (streamingIntervals st')) st'
  else st.

Definition startSensorDataStreams (st : State) : State :=
  map_fold startStream st (sensorConfigs st).

Definition initialize (now : Z) (st : State) : State :=
  if isInitialized st then st
  else
    set_isInitialized true
      (startSensorDataStreams (setupAlertThresholds (initializeSensorConfigs now st))).

(** [Partial<SensorConfig>]: each key present or not. *)
Record PartialConfig : Type := {
  new_id : option string;
  new_type : option SensorType;
  new_location : option Location;
  new_updateInterval : option Q;
  new_isActive : option bool;
  new_lastMaintenance : option Z
}.

(** [{ ...existing, ...newConfig }] *)
Definition spread (existing : SensorConfig) (newConfig : PartialConfig)
  : SensorConfig :=
  {| id := default (id existing) (new_id newConfig);
     type := default (type existing) (new_type newConfig);
     location := default (location existing) (new_location newConfig);
     updateInterval := default (updateInterval existing) (new_updateInterval newConfig);
     isActive := default (isActive existing) (new_isActive newConfig);
     lastMaintenance := default (lastMaintenance existing) (new_lastMaintenance newConfig) |}.

Definition updateSensorConfig (sensorId : string) (newConfig : PartialConfig)
    (st : State) : State :=
  match sensorConfigs st !! sensorId with
  | Some existing =>
      let st1 :=
        set_sensorConfigs (<[sensorId := spread existing newConfig]> (sensorConfigs st)) st in
      match new_updateInterval newConfig with
      | Some interval =>
          if truthy (Some interval) then
            let st2 :=
              match streamingIntervals st1 !! sensorId with
              | Some oldInterval => clearInterval oldInterval st1
              | None => st1
              end in
            if isActive existing then
              let (newInterval, st3) := setInterval sensorId (interval * 1000) st2 in
              set_streamingIntervals
                (<[sensorId := newInterval]> (streamingIntervals st3)) st3
            else st2
          else st1
      | None => st1
      end
  | None => st
  end.

(** [updateMaintenanceRecord(sensorId, maintenanceDate: Date)], for an
    argument that is a [Date] as the signature declares. *)
Definition updateMaintenanceRecord (sensorId : string) (maintenanceDate : Z)
    (st : State) : State :=
  match sensorConfigs st !! sensorId with
  | Some config =>
      let config' :=
        {| id := id config; type := type config; location := location config;
           updateInterval := updateInterval config; isActive := isActive config;
           lastMaintenance := maintenanceDate |} in
      set_sensorConfigs (<[sensorId := config']> (sensorConfigs st)) st
  | None => st
  end.

Definition cleanup (st : State) : State :=
  set_streamingIntervals ∅
    (map_fold (fun _ interval st => clearInterval interval st) st
       (streamingIntervals st)).

Definition processSensorReading `{ECMAMath} (reading : SensorReading) (st : State)
  : Envelope :=
  let alerts := checkAlertThresholds (sensorConfigs st) (alertThresholds st) reading in
  {| env_type := "sensor_reading"; env_data := reading; env_alerts := alerts |}.

(** A message of a client.  The [date] of a maintenance update is carried
    as the time value of a [Date]; what the handler stores when the message
    holds another JSON value there is not modelled. *)
Inductive Message : Type :=
  | sensor_config_update (sensorId : string) (config : PartialConfig)
  | manual_reading (reading : SensorReading)
  | maintenance_update (sensorId : string) (date : Z)
  | unhandled (type : string).

(** How a call ends: it returns, or it throws. *)
Inductive Completion (A : Type) : Type :=
  | Normal (result : A)
  | Throw (error : string).
Arguments Normal {A} result.
Arguments Throw {A} error.

(** [handleSensorMessage]: the state it leaves and what it broadcasts.  No
    statement of the handler and of the three methods it calls throws. *)
Definition handleSensorMessage `{ECMAMath} (message : Message) (st : State)
  : Completion (State * list Envelope) :=
  match message with
  | sensor_config_update sensorId config =>
      Normal (updateSensorConfig sensorId config st, [])
  | manual_reading reading =>
      Normal (st, [processSensorReading reading st])
  | maintenance_update sensorId date =>
      Normal (updateMaintenanceRecord sensorId date st, [])
  | unhandled _ => Normal (st, [])
  end.

(** A device has a running timer when the event loop holds a live interval
    started for its key; it is active when its stored flag is [true]. *)
Definition running (st : State) (sensorId : string) : Prop :=
  exists handle timer,
    timers st !! handle = Some timer /\ timerKey timer = sensorId.

Definition active (st : State) (sensorId : string) : Prop :=
  exists config,
    sensorConfigs st !! sensorId = Some config /\ isActive config = true.

Definition timerMatchesFlag (st : State) : Prop :=
  forall sensorId, running st sensorId <-> active st sensorId.

(** The bookkeeping of [streamingIntervals] is exact: every live timer is the
    one stored under its key, and every stored handle is live and was handed
    out. *)
Definition handlesExact (st : State) : Prop :=
  (forall handle timer,
      timers st !! handle = Some timer ->
      streamingIntervals st !! timerKey timer = Some handle) /\
  (forall sensorId handle,
      streamingIntervals st !! sensorId = Some handle ->
      exists timer, timers st !! handle = Some timer /\ timerKey timer = sensorId) /\
  (forall handle, is_Some (timers st !! handle) -> (handle < nextTimer st)%nat).

Definition streamInvariant (st : State) : Prop :=
  handlesExact st /\ timerMatchesFlag st.

(** A patch that leaves the active flag of the device as it is stored. *)
Definition keepsFlag (st : State) (sensorId : string) (newConfig : PartialConfig)
  : Prop :=
  forall existing,
    sensorConfigs st !! sensorId = Some existing ->
    isActive (spread existing newConfig) = isActive existing.

(** What the event loop and the handle table hold once the streams of the
    configurations in [m] have been started from [st0]. *)
Definition startedFor (st0 : State) (m : gmap string SensorConfig) (st : State)
  : Prop :=
  sensorConfigs st = sensorConfigs st0 /\
  handlesExact st /\
  forall sensorId,
    running st sensorId <->
    exists config, m !! sensorId = Some config /\ isActive config = true.

(** What the event loop holds once the handles stored in [m] have been
    cleared from [st0]. *)
Definition clearedFor (st0 : State) (m : gmap string nat) (st : State) : Prop :=
  (forall sensorId handle, m !! sensorId = Some handle -> timers st !! handle = None) /\
  (forall handle timer,
      timers st !! handle = Some timer -> timers st0 !! handle = Some timer).

(** Every live timer is the one stored under its key, and its handle was
    handed out: what the handle table needs for [cleanup] to find every
    timer.  Unlike [handlesExact] it allows a stored handle whose timer was
    cleared. *)
Definition tracked (st : State) : Prop :=
  (forall handle timer,
      timers st !! handle = Some timer ->
      streamingIntervals st !! timerKey timer = Some handle) /\
  (forall handle, is_Some (timers st !! handle) -> (handle < nextTimer st)%nat).

(** The states of a service: the one [initialize] builds, and what the
    registry operations and [cleanup] make of a state, in any order and with
    any arguments. *)
Inductive reachable : State -> Prop :=
  | reach_initialize (now : Z) : reachable (initialize now newService)
  | reach_configured (st : State) (sensorId : string) (newConfig : PartialConfig) :
      reachable st -> reachable (updateSensorConfig sensorId newConfig st)
  | reach_serviced (st : State) (sensorId : string) (date : Z) :
      reachable st -> reachable (updateMaintenanceRecord sensorId date st)
  | reach_cleanup (st : State) : reachable st -> reachable (cleanup st).

(** The time between two ticks of a timer, in milliseconds, as Node runs
    it: a delay that is not between 1 and 2^31 - 1 is replaced by 1, and the
    fraction of a delay is cut off. *)
Definition period (timer : Timer) : Q :=
  if Qleb 1 (timerDelay timer) && Qleb (timerDelay timer) 2147483647
  then inject_Z (Qfloor (timerDelay timer))
  else 1%Q.

(** *** Network summary *)

Record NetworkTopology : Type := {
  totalSensors : nat;
  onlineSensors : nat;
  networkHealth : number;
  dataTransmissionRate : Q;
  lastNetworkUpdate : Z
}.

Definition getNetworkTopology (now : Z) (st : State) : NetworkTopology :=
  let totalSensors := size (sensorConfigs st) in
  let onlineSensors :=
    length (List.filter isActive (List.map snd (map_to_list (sensorConfigs st)))) in
  {| totalSensors := totalSensors;
     onlineSensors := onlineSensors;
     networkHealth :=
       mul (div (Fin (inject_Z (Z.of_nat onlineSensors)))
                (Fin (inject_Z (Z.of_nat totalSensors))))
           (Fin 100);
     dataTransmissionRate := (inject_Z (Z.of_nat onlineSensors) * 2.5)%Q;
     lastNetworkUpdate := now |}.

(** *** What the rules say *)

(** The comparison the rule names holds of [value]. *)
Definition violated (threshold : AlertThreshold) (value : Q) : Prop :=
  match condition threshold with
  | above => exists mx, maxValue threshold = Some mx /\ (mx < value)%Q
  | below => exists mn, minValue threshold = Some mn /\ (value < mn)%Q
  | outside =>
      exists mn mx,
        minValue threshold = Some mn /\ maxValue threshold = Some mx /\
        ((value < mn)%Q \/ (mx < value)%Q)
  | between => False
  end.

(** The bounds the rule carries are other than 0. *)
Definition boundsNonZero (threshold : AlertThreshold) : Prop :=
  (forall b, minValue threshold = Some b -> ~ (b == 0)%Q) /\
  (forall b, maxValue threshold = Some b -> ~ (b == 0)%Q).

(** *** Mock history *)

(** [new Date(t)] of a finite time value: the fraction is cut off. *)
Definition toDate (t : Q) : Z :=
  if Qltb t 0 then Qceiling t else Qfloor t.

Definition set_timestamp (date : Z) (reading : SensorReading) : SensorReading :=
  {| sensorId := sensorId reading; timestamp := date; data := data reading;
     quality := quality reading; batteryLevel := batteryLevel reading;
     signalStrength := signalStrength reading |}.

Section History.

Context {M : ECMAMath}.
Variable Math_random : nat -> Q.
Variable now : Z.

(** The [for (let time = startTime; time <= endTime; time += interval)]
    loop of [getSensorData], run for at most [fuel] tests of its condition;
    [None] when the loop is still running then.  Times are exact: the
    rounding of the additions is not modelled. *)
Fixpoint historyLoop (fuel : nat) (config : SensorConfig) (time endTime interval : Q)
    (readings : list SensorReading) : Gen (option (list SensorReading)) :=
  match fuel with
  | O => ret None
  | S fuel' =>
      if Qleb time endTime then
        let tempConfig := config in
        let! reading := generateSensorReading Math_random now tempConfig in
        historyLoop fuel' config (time + interval)%Q endTime interval
          (readings ++ [set_timestamp (toDate time) reading])
      else ret (Some readings)
  end.

Definition getSensorData (fuel : nat) (st : State) (sensorId : string) (hours : Q)
  : Gen (option (list SensorReading)) :=
  match sensorConfigs st !! sensorId with
  | None => ret (Some [])
  | Some config =>
      let endTime := inject_Z now in
      let startTime := (endTime - hours * 60 * 60 * 1000)%Q in
      let interval := ((endTime - startTime) / 100)%Q in
      historyLoop fuel config startTime endTime interval []
  end.

End History.

End IoT.

(** ** Spatial risk analytics ([geo-analytics-service.ts]) *)

Module Geo.

Import JS.

Inductive RiskLevel : Type := low | medium | high.

Record Coord : Type := { lat : Q; lon : Q }.

(** An element of the [locations] batch: [{ lat, lon, timestamp }]. *)
Record Location : Type := { loc_lat : Q; loc_lon : Q; timestamp : Z }.

Record Route : Type := {
  name : string;
  coordinates : list Coord;
  capacity : Q
}.

Record RiskZone : Type := {
  id : string;
  zoneName : string;
  polygon : list Coord;
  riskLevel : RiskLevel;
  riskFactors : list string;
  evacuationRoutes : list Route
}.

(** The cluster objects [performClustering] works on. *)
Record Cluster : Type := {
  center : Coord;
  points : list Location;
  radius : number
}.

Record LocationCluster : Type := {
  cluster_id : string;
  centerLat : Q;
  centerLon : Q;
  cluster_radius : number;
  cluster_riskLevel : RiskLevel;
  incidentCount : nat;
  userCount : Z;
  lastActivity : number
}.

(** The zones [initialize] installs. *)
Definition defaultRiskZones : list RiskZone :=
  [ {| id := "zone_001"; zoneName := "Miami Beach High Risk Zone";
       polygon := [ {| lat := 25.7617; lon := -80.1918 |};
                    {| lat := 25.7817; lon := -80.1718 |};
                    {| lat := 25.7417; lon := -80.1518 |};
                    {| lat := 25.7217; lon := -80.1818 |} ];
       riskLevel := high;
       riskFactors := ["Storm surge susceptible"; "Low elevation"; "Dense population"];
       evacuationRoutes :=
         [ {| name := "Route A1A North";
              coordinates := [ {| lat := 25.7617; lon := -80.1918 |};
                               {| lat := 25.8017; lon := -80.1718 |} ];
              capacity := 5000 |} ] |};
    {| id := "zone_002"; zoneName := "San Francisco Bay Area";
       polygon := [ {| lat := 37.7749; lon := -122.4194 |};
                    {| lat := 37.8049; lon := -122.3894 |};
                    {| lat := 37.7449; lon := -122.3594 |};
                    {| lat := 37.7149; lon := -122.3994 |} ];
       riskLevel := medium;
       riskFactors := ["Seismic activity"; "Tsunami risk"; "Fog impact"];
       evacuationRoutes :=
         [ {| name := "Golden Gate Bridge";
              coordinates := [ {| lat := 37.7749; lon := -122.4194 |};
                               {| lat := 37.8083; lon := -122.4784 |} ];
              capacity := 10000 |} ] |} ]%Q.

(** [array.sort((a, b) => key(a) - key(b))]: a stable sort, ascending in
    [key].  Written as insertion from the right, which keeps equal keys in
    their original order. *)
Fixpoint insertBy {A} (key : A -> Q) (x : A) (sorted : list A) : list A :=
  match sorted with
  | [] => [x]
  | y :: rest =>
      if Qleb (key x) (key y) then x :: y :: rest
      else y :: insertBy key x rest
  end.

Definition sortBy {A} (key : A -> Q) (l : list A) : list A :=
  fold_right (insertBy key) [] l.

Definition ascending {A} (key : A -> Q) (a b : A) : Prop := (key a <= key b)%Q.

(** [Math.max(...xs)] *)
Definition Math_max (xs : list Q) : number :=
  fold_left (fun m x => JS.max m (Fin x)) xs NegInf.

(** [array[i]] for an integral index; [None] is [undefined]. *)
Definition arrayGet {A} (l : list A) (i : Z) : option A :=
  if (i <? 0)%Z then None else l !! Z.to_nat i.

Section Analytics.

Local Open Scope Q_scope.

Context {M : ECMAMath}.
Variable Math_random : nat -> Q.

Let rnd : Gen Q := random Math_random.

Definition calculateDistance (lat1 lon1 lat2 lon2 : Q) : Q :=
  let R := 6371 in
  let dLat := (lat2 - lat1) * Math_PI / 180 in
  let dLon := (lon2 - lon1) * Math_PI / 180 in
  let a := Math_sin (dLat / 2) * Math_sin (dLat / 2) +
           Math_cos (lat1 * Math_PI / 180) * Math_cos (lat2 * Math_PI / 180) *
           Math_sin (dLon / 2) * Math_sin (dLon / 2) in
  R * 2 * Math_atan2 (Math_sqrt a) (Math_sqrt (1 - a)).

(** *** Clustering *)

Definition distanceTo (point : Location) (cluster : Cluster) : Q :=
  calculateDistance (loc_lat point) (loc_lon point)
    (lat (center cluster)) (lon (center cluster)).

Definition set_points (ps : list Location) (cluster : Cluster) : Cluster :=
  {| center := center cluster; points := ps; radius := radius cluster |}.

(** The [for (let i = 0; i < k; i++)] loop that seeds the clusters.  [None]
    is the [TypeError] of reading [.lat] of [undefined]. *)
Fixpoint seedClusters (pts : list Location) (k : nat) (clusters : list Cluster)
  : Gen (option (list Cluster)) :=
  match k with
  | O => ret (Some clusters)
  | S k' =>
      let! r := rnd in
      match arrayGet pts (Qfloor (r * inject_Z (Z.of_nat (length pts)))) with
      | Some randomPoint =>
          seedClusters pts k'
            (clusters ++ [ {| center := {| lat := loc_lat randomPoint;
                                           lon := loc_lon randomPoint |};
                              points := [];
                              radius := Fin 0 |} ])
      | None => ret None
      end
  end.

(** The inner [clusters.forEach] of the assignment: the pair
    [(nearestCluster, minDistance)], the cluster given by its index. *)
Definition closer (point : Location) (best : nat * Q) (candidate : nat * Cluster)
  : nat * Q :=
  let distance := distanceTo point (snd candidate) in
  if Qltb distance (snd best) then (fst candidate, distance) else best.

Definition nearestCluster (point : Location) (clusters : list Cluster)
  : option nat :=
  match clusters with
  | [] => None
  | first :: _ =>
      Some (fst (fold_left (closer point) (imap pair clusters)
                   (0%nat, distanceTo point first)))
  end.

(** The callback of [points.forEach]; [None] is the [TypeError] of
    [clusters[0].center] on an empty array. *)
Definition assignPoint (clusters : list Cluster) (point : Location)
  : option (list Cluster) :=
  match nearestCluster point clusters with
  | Some i =>
      Some (alter (fun c => set_points (points c ++ [point]) c) i clusters)
  | None => None
  end.

Definition assignPoints (pts : list Location) (clusters : list Cluster)
  : option (list Cluster) :=
  fold_left (fun acc point => acc ≫= fun cs => assignPoint cs point)
    pts (Some clusters).

(** The callback of the [clusters.forEach] that updates the centers.  The
    two averages are exact: the rounding of the sums and of the divisions is
    not modelled. *)
Definition updateCenter (cluster : Cluster) : Cluster :=
  match points cluster with
  | [] => cluster
  | _ :: _ =>
      let n := inject_Z (Z.of_nat (length (points cluster))) in
      let avgLat := fold_left (fun sum p => sum + loc_lat p) (points cluster) 0 / n in
      let avgLon := fold_left (fun sum p => sum + loc_lon p) (points cluster) 0 / n in
      let moved := {| center := {| lat := avgLat; lon := avgLon |};
                      points := points cluster;
                      radius := radius cluster |} in
      let maxDistance :=
        Math_max (List.map (fun p => distanceTo p moved) (points cluster)) in
      {| center := center moved; points := points moved; radius := maxDistance |}
  end.

(** One pass of the [for (let iteration ...)] body. *)
Definition iteration (pts : list Location) (clusters : list Cluster)
  : option (list Cluster) :=
  let cleared := List.map (set_points []) clusters in
  assigned ← assignPoints pts cleared;
  Some (List.map updateCenter assigned).

Definition hasPoints (cluster : Cluster) : bool :=
  match points cluster with
  | [] => false
  | _ :: _ => true
  end.

Definition performClustering (pts : list Location) (k : nat)
  : Gen (option (list Cluster)) :=
  match pts with
  | [] => ret (Some [])
  | _ :: _ =>
      let! seeded := seedClusters pts k [] in
      ret (clusters ← seeded;
           final ← fold_left (fun acc _ => acc ≫= iteration pts) (seq 0 10) (Some clusters);
           Some (List.filter hasPoints final))
  end.

Definition calculateClusterRisk (cluster : Cluster) : RiskLevel :=
  let pointDensity :=
    div (Fin (inject_Z (Z.of_nat (length (points cluster)))))
        (mul (mul (Fin Math_PI) (radius cluster)) (radius cluster)) in
  if gtb pointDensity (Fin 10) then high
  else if gtb pointDensity (Fin 5) then medium
  else low.

Definition describeCluster (index : nat) (cluster : Cluster) : LocationCluster :=
  {| cluster_id := "cluster_" ++ pretty (index + 1)%nat;
     centerLat := lat (center cluster);
     centerLon := lon (center cluster);
     cluster_radius := radius cluster;
     cluster_riskLevel := calculateClusterRisk cluster;
     incidentCount := length (points cluster);
     userCount :=
       Qfloor (double (inject_Z (Z.of_nat (length (points cluster))) * double 0.7));
     lastActivity :=
       Math_max (List.map (fun p => inject_Z (timestamp p)) (points cluster)) |}.

Definition analyzeLocationClusters (locations : list Location)
  : Gen (option (list LocationCluster)) :=
  let! clusters := performClustering locations 5 in
  ret (imap describeCluster <$> clusters).

(** *** Proximity scoring *)

Record ZoneDistance : Type := { zone : RiskZone; distance : Q }.

Record ProximityReport : Type := {
  riskScore : number;
  nearbyRiskZones : list ZoneDistance;
  recommendations : list string
}.

(** The callback of [riskZones.map]; [None] is the [TypeError] of
    [zone.polygon[0].lat] on an empty polygon. *)
Definition measureZone (qlat qlon : Q) (z : RiskZone) : option ZoneDistance :=
  match polygon z with
  | vertex :: _ =>
      Some {| zone := z;
              distance := calculateDistance qlat qlon (lat vertex) (lon vertex) |}
  | [] => None
  end.

Definition riskMultiplier (level : RiskLevel) : Q :=
  match level with
  | high => 3
  | medium => 2
  | low => 1
  end.

(** The callback of [nearbyRiskZones.forEach], on the running [riskScore]. *)
Definition addZoneRisk (searchRadius : Q) (riskScore : number) (item : ZoneDistance)
  : number :=
  let proximityFactor :=
    JS.max (Fin 0) (div (Fin (searchRadius - distance item)) (Fin searchRadius)) in
  add riskScore
      (mul (mul proximityFactor (Fin (riskMultiplier (riskLevel (zone item))))) (Fin 20)).

Definition generateLocationRecommendations (riskScore : number)
    (nearbyZones : list ZoneDistance) : list string :=
  (if gtb riskScore (Fin 70) then
     ["High risk area - consider relocation during storm season";
      "Maintain emergency kit and evacuation plan"]
   else if gtb riskScore (Fin 40) then
     ["Moderate risk - stay informed about weather conditions";
      "Review and practice evacuation procedures"]
   else
     ["Low risk area - maintain standard coastal preparedness"])
  ++ match nearbyZones with
     | first :: _ => ["Monitor conditions in nearby " ++ zoneName (zone first)]
     | [] => []
     end
  ++ ["Install BlueGuard mobile alerts for real-time updates"].

(** [analyzeProximityRisks], without the mock [recentIncidents]. *)
Definition analyzeProximityRisks (riskZones : list RiskZone)
    (qlat qlon searchRadius : Q) : option ProximityReport :=
  measured ← mapM (measureZone qlat qlon) riskZones;
  let nearby :=
    sortBy distance
      (List.filter (fun item => Qleb (distance item) searchRadius) measured) in
  let score := fold_left (addZoneRisk searchRadius) nearby (Fin 0) in
  Some {| riskScore := JS.min (Fin 100) (round score);
          nearbyRiskZones := nearby;
          recommendations := generateLocationRecommendations score nearby |}.

(** *** Evacuation resolution *)

Record NearestRoute : Type := {
  nearest_name : string;
  nearest_distance : Q;
  nearest_estimatedTime : Z;
  nearest_coordinates : list Coord
}.

Record AlternativeRoute : Type := {
  alt_name : string;
  alt_distance : Q;
  alt_estimatedTime : Z;
  alt_capacity : Q
}.

Record EvacuationAnalysis : Type := {
  nearestRoute : option NearestRoute;
  alternativeRoutes : list AlternativeRoute;
  zoneCongestion : RiskLevel
}.

(** The three local variables of the search loop. *)
Record Search : Type := {
  found : option NearestRoute;
  minDistance : number;
  alternatives : list AlternativeRoute
}.

(** The body of [for (const route of zone.evacuationRoutes)]; [None] is the
    [TypeError] of [route.coordinates[0].lat] on a route without
    coordinates. *)
Definition visitRoute (qlat qlon : Q) (search : Search) (route : Route)
  : option Search :=
  match coordinates route with
  | start :: _ =>
      let distance := calculateDistance qlat qlon (lat start) (lon start) in
      let search1 :=
        if ltb (Fin distance) (minDistance search) then
          {| found := Some {| nearest_name := name route;
                              nearest_distance := distance;
                              nearest_estimatedTime := Qround (distance * 3);
                              nearest_coordinates := coordinates route |};
             minDistance := Fin distance;
             alternatives := alternatives search |}
        else search in
      Some (if Qleb distance 20 then
              {| found := found search1;
                 minDistance := minDistance search1;
                 alternatives :=
                   alternatives search1 ++
                   [ {| alt_name := name route;
                        alt_distance := distance;
                        alt_estimatedTime := Qround (distance * 3);
                        alt_capacity := capacity route |} ] |}
            else search1)
  | [] => None
  end.

Definition visitZone (qlat qlon : Q) (search : option Search) (z : RiskZone)
  : option Search :=
  fold_left (fun acc route => acc ≫= fun s => visitRoute qlat qlon s route)
    (evacuationRoutes z) search.

Definition calculateCongestion (qlat qlon : Q) : Gen RiskLevel :=
  let! baseScore := rnd in
  if Qltb (Qabs (qlat - 25.7617)) 0.1 && Qltb (Qabs (qlon + 80.1918)) 0.1 then
    ret (if Qltb 0.3 baseScore then high else medium)
  else
    ret (if Qltb 0.7 baseScore then medium else low).

Definition getEvacuationAnalysis (riskZones : list RiskZone) (qlat qlon : Q)
  : Gen (option EvacuationAnalysis) :=
  match fold_left (visitZone qlat qlon) riskZones
          (Some {| found := None; minDistance := PosInf; alternatives := [] |}) with
  | Some search =>
      let! congestionLevel := calculateCongestion qlat qlon in
      ret (Some {| nearestRoute := found search;
                   alternativeRoutes := take 3 (sortBy alt_distance (alternatives search));
                   zoneCongestion := congestionLevel |})
  | None => ret None
  end.

(** *** The quantities the specification names *)

(** The distance from the query point to a zone's reference vertex, the
    first vertex of its polygon. *)
Definition referenceDistance (qlat qlon : Q) (z : RiskZone) : Q :=
  match polygon z with
  | vertex :: _ => calculateDistance qlat qlon (lat vertex) (lon vertex)
  | [] => 0
  end.

Definition measured (qlat qlon : Q) (z : RiskZone) : ZoneDistance :=
  {| zone := z; distance := referenceDistance qlat qlon z |}.

(** [max(0, (radius - distance) / radius) x severityWeight x 20] *)
Definition zoneTerm (searchRadius : Q) (item : ZoneDistance) : Q :=
  Qmax 0 ((searchRadius - distance item) / searchRadius)
  * riskMultiplier (riskLevel (zone item)) * 20.

Definition total (terms : list Q) : Q := fold_right Qplus 0 terms.

(** The distance from the query point to a route's first coordinate. *)
Definition routeDistance (qlat qlon : Q) (route : Route) : Q :=
  match coordinates route with
  | start :: _ => calculateDistance qlat qlon (lat start) (lon start)
  | [] => 0
  end.

Definition asNearest (qlat qlon : Q) (route : Route) : NearestRoute :=
  {| nearest_name := name route;
     nearest_distance := routeDistance qlat qlon route;
     nearest_estimatedTime := Qround (routeDistance qlat qlon route * 3);
     nearest_coordinates := coordinates route |}.

Definition asAlternative (qlat qlon : Q) (route : Route) : AlternativeRoute :=
  {| alt_name := name route;
     alt_distance := routeDistance qlat qlon route;
     alt_estimatedTime := Qround (routeDistance qlat qlon route * 3);
     alt_capacity := capacity route |}.

(** Every evacuation route of the catalog, zone by zone. *)
Definition allRoutes (riskZones : list RiskZone) : list Route :=
  flat_map evacuationRoutes riskZones.

Definition withinTwenty (qlat qlon : Q) (route : Route) : bool :=
  Qleb (routeDistance qlat qlon route) 20.

(** [route] is the first route of [routes] at the least distance from the
    query point. *)
Definition firstNearest (qlat qlon : Q) (routes : list Route) (route : Route)
  : Prop :=
  exists before after,
    routes = (before ++ route :: after)%list /\
    Forall (fun other => (routeDistance qlat qlon route < routeDistance qlat qlon other)%Q)
      before /\
    Forall (fun other => (routeDistance qlat qlon route <= routeDistance qlat qlon other)%Q)
      after.

(** The three variables of the search loop after the routes [visited]. *)
Definition searched (qlat qlon : Q) (visited : list Route) (search : Search) : Prop :=
  alternatives search
  = List.map (asAlternative qlat qlon) (List.filter (withinTwenty qlat qlon) visited) /\
  match found search with
  | None => visited = [] /\ minDistance search = PosInf
  | Some nearest =>
      exists route,
        firstNearest qlat qlon visited route /\
        nearest = asNearest qlat qlon route /\
        minDistance search = Fin (routeDistance qlat qlon route)
  end.

(** Point density of a cluster of [count] points and radius [r]. *)
Definition density (count : nat) (r : Q) : Q :=
  inject_Z (Z.of_nat count) / (Math_PI * r * r).

(** *** Clustering, as the specification words it *)

(** The cluster seeded from the draw [r]: centred on the sampled point. *)
Definition seedFrom (pts : list Location) (r : Q) : option Cluster :=
  match arrayGet pts (Qfloor (r * inject_Z (Z.of_nat (length pts)))) with
  | Some sampled =>
      Some {| center := {| lat := loc_lat sampled; lon := loc_lon sampled |};
              points := [];
              radius := Fin 0 |}
  | None => None
  end.

(** Cluster [i] is the nearest to [point]: no centroid is closer, and every
    centroid before it in iteration order is strictly farther. *)
Definition isNearest (clusters : list Cluster) (point : Location) (i : nat) : Prop :=
  exists cluster,
    clusters !! i = Some cluster /\
    (forall j other, clusters !! j = Some other ->
                     (distanceTo point cluster <= distanceTo point other)%Q) /\
    (forall j other, clusters !! j = Some other -> (j < i)%nat ->
                     (distanceTo point cluster < distanceTo point other)%Q).

(** Arithmetic mean. *)
Definition mean (xs : list Q) : Q :=
  (total xs / inject_Z (Z.of_nat (length xs)))%Q.

(** The radius of [cluster] is the greatest distance from its centroid to
    one of its points. *)
Definition isRadius (cluster : Cluster) : Prop :=
  exists r,
    radius cluster = Fin r /\
    (forall point, In point (points cluster) -> (distanceTo point cluster <= r)%Q) /\
    (exists point, In point (points cluster) /\ distanceTo point cluster = r).

(** One iteration takes [before] to [after]: every point of the batch goes
    to its nearest cluster of [before]; a cluster that receives points moves
    to their mean and takes their greatest distance as radius, a cluster
    that receives none keeps its centre and radius. *)
Definition iterates (pts : list Location) (before after : list Cluster) : Prop :=
  length after = length before /\
  exists assign : Location -> nat,
    (forall point, In point pts -> isNearest before point (assign point)) /\
    forall i old new,
      before !! i = Some old -> after !! i = Some new ->
      points new = List.filter (fun point => Nat.eqb (assign point) i) pts /\
      match points new with
      | [] => center new = center old /\ radius new = radius old
      | _ :: _ =>
          (lat (center new) == mean (List.map loc_lat (points new)))%Q /\
          (lon (center new) == mean (List.map loc_lon (points new)))%Q /\
          isRadius new
      end.
(** Two arrays of clusters with the same centres, index by index. *)
Definition sameCentres (a b : list Cluster) : Prop :=
  length a = length b /\
  forall j x y, a !! j = Some x -> b !! j = Some y -> center x = center y.

(** The scan of [nearestCluster] over the clusters [seen] so far, started
    from the first cluster's distance [first]. *)
Definition scanned (point : Location) (first : Q) (seen : list Cluster) (best : nat * Q)
  : Prop :=
  (forall j other, seen !! j = Some other -> (snd best <= distanceTo point other)%Q) /\
  (forall j other, seen !! j = Some other -> (j < fst best)%nat ->
                   (snd best < distanceTo point other)%Q) /\
  ((fst best = 0%nat /\ snd best = first) \/
   (exists cluster, seen !! fst best = Some cluster /\
                    snd best = distanceTo point cluster)).

(** The index [nearestCluster] gives [point] among [clusters]. *)
Definition assignment (clusters : list Cluster) (point : Location) : nat :=
  default 0%nat (nearestCluster point clusters).

(** The clusters after [n] passes of the loop body. *)
Definition afterIterations (pts : list Location) (clusters : list Cluster) (n : nat)
  : option (list Cluster) :=
  Nat.iter n (fun acc => acc ≫= iteration pts) (Some clusters).

(** [kept] is [clusters] without the clusters that hold no point, in the
    order of [clusters]. *)
Inductive withoutEmpty : list Cluster -> list Cluster -> Prop :=
  | withoutEmpty_nil : withoutEmpty [] []
  | withoutEmpty_drop (cluster : Cluster) (clusters kept : list Cluster) :
      points cluster = [] -> withoutEmpty clusters kept ->
      withoutEmpty (cluster :: clusters) kept
  | withoutEmpty_keep (cluster : Cluster) (clusters kept : list Cluster) :
      points cluster <> [] -> withoutEmpty clusters kept ->
      withoutEmpty (cluster :: clusters) (cluster :: kept).

(** The number of points the clusters of [clusters] hold together. *)
Definition pointCount (clusters : list Cluster) : nat :=
  fold_right (fun cluster n => (length (points cluster) + n)%nat) 0%nat clusters.

(** The query point lies in the box the congestion estimate treats as the
    Miami area. *)
Definition nearMiami (qlat qlon : Q) : Prop :=
  (Qabs (qlat - 25.7617) < 0.1)%Q /\ (Qabs (qlon + 80.1918) < 0.1)%Q.

(** *** Heatmap *)

(** The [dataType] argument of [generateHeatmap], and the [type] of a
    heatmap point. *)
Inductive HeatmapFilter : Type := incidents | user_activity | combined.

Inductive HeatmapKind : Type :=
  | kind_incident | kind_user_activity | kind_sensor_alert | kind_risk_prediction.

Record HeatmapData : Type := {
  heat_lat : Q;
  heat_lon : Q;
  intensity : Q;
  heat_type : option HeatmapKind;
  heat_timestamp : Z
}.

Record Region : Type := { northEast : Coord; southWest : Coord }.

(** [new Date(t)] of a finite time value: the fraction is cut off. *)
Definition newDate (t : Q) : Z :=
  if Qltb t 0 then Qceiling t else Qfloor t.

(** The callback of [riskZones.forEach] in [calculateIntensity]; [None] is
    the [TypeError] of [zone.polygon[0].lat] on an empty polygon. *)
Definition addIntensity (qlat qlon : Q) (sofar : option Q) (z : RiskZone) : option Q :=
  match sofar, polygon z with
  | Some intensity, vertex :: _ =>
      let distance := calculateDistance qlat qlon (lat vertex) (lon vertex) in
      let proximityFactor := Qmax 0 (1 - distance / 20) in
      Some (match riskLevel z with
            | high => intensity + proximityFactor * 0.8
            | medium => intensity + proximityFactor * 0.5
            | low => intensity + proximityFactor * 0.2
            end)
  | _, _ => None
  end.

Definition calculateIntensity (riskZones : list RiskZone) (qlat qlon : Q)
    (dataType : HeatmapFilter) : Gen (option Q) :=
  match fold_left (addIntensity qlat qlon) riskZones (Some 0) with
  | Some intensity =>
      let! varied :=
        match dataType with
        | incidents => let! r := rnd in ret (intensity * (0.8 + r * 0.4))
        | user_activity => let! r := rnd in ret (intensity * (0.5 + r * 0.8))
        | combined => ret intensity
        end in
      ret (Some (Qmin 1 varied))
  | None => ret None
  end.

(** [None] is [undefined], what indexing past the four types gives. *)
Definition getRandomDataType (filter : HeatmapFilter) : Gen (option HeatmapKind) :=
  match filter with
  | incidents => ret (Some kind_incident)
  | user_activity => ret (Some kind_user_activity)
  | combined =>
      let! r := rnd in
      ret (arrayGet
             [kind_incident; kind_user_activity; kind_sensor_alert; kind_risk_prediction]
             (Qfloor (r * 4)))
  end.

(** The [for (let i = 0; i < 100; i++)] loop of [generateHeatmap], with [n]
    passes left; [None] is a [TypeError]. *)
Fixpoint heatmapLoop (riskZones : list RiskZone) (now : Z) (region : Region)
    (dataType : HeatmapFilter) (n : nat) (heatmapData : list HeatmapData)
  : Gen (option (list HeatmapData)) :=
  match n with
  | O => ret (Some heatmapData)
  | S n' =>
      let latRange := lat (northEast region) - lat (southWest region) in
      let lonRange := lon (northEast region) - lon (southWest region) in
      let! r1 := rnd in
      let plat := lat (southWest region) + r1 * latRange in
      let! r2 := rnd in
      let plon := lon (southWest region) + r2 * lonRange in
      let! found := calculateIntensity riskZones plat plon dataType in
      match found with
      | Some level =>
          if Qltb 0.1 level then
            let! kind := getRandomDataType dataType in
            let! r3 := rnd in
            heatmapLoop riskZones now region dataType n'
              (heatmapData
               ++ [ {| heat_lat := plat; heat_lon := plon; intensity := level;
                       heat_type := kind;
                       heat_timestamp :=
                         newDate (inject_Z now - r3 * 30 * 24 * 60 * 60 * 1000) |} ])
          else heatmapLoop riskZones now region dataType n' heatmapData
      | None => ret None
      end
  end.

Definition generateHeatmap (riskZones : list RiskZone) (now : Z) (region : Region)
    (dataType : HeatmapFilter) : Gen (option (list HeatmapData)) :=
  let! heatmapData := heatmapLoop riskZones now region dataType 100 [] in
  ret (sortBy (fun point => - intensity point) <$> heatmapData).

(** What every point of a heatmap satisfies. *)
Definition heatmapPoint (Math_random : nat -> Q) (region : Region)
    (dataType : HeatmapFilter) (point : HeatmapData) : Prop :=
  (0.1 < intensity point)%Q /\ (intensity point <= 1)%Q /\
  (dataType = incidents -> heat_type point = Some kind_incident) /\
  (dataType = user_activity -> heat_type point = Some kind_user_activity) /\
  (inUnitInterval Math_random ->
   (lat (southWest region) <= lat (northEast region))%Q ->
   (lon (southWest region) <= lon (northEast region))%Q ->
   is_Some (heat_type point) /\
   (lat (southWest region) <= heat_lat point)%Q /\
   (heat_lat point <= lat (northEast region))%Q /\
   (lon (southWest region) <= heat_lon point)%Q /\
   (heat_lon point <= lon (northEast region))%Q).

(** *** Mock incidents and regional statistics *)

Record Incident : Type := {
  incident_type : option string;
  incident_distance : Q;
  incident_timestamp : Z
}.

Definition incidentTypes : list string :=
  ["Coastal erosion"; "Flooding"; "Storm damage"; "Illegal mining"; "Marine pollution"].

(** The loop of [generateMockIncidents], whose bound is drawn anew at every
    test, run for at most [fuel] tests; [None] when it is still running
    then.  [i] is the loop counter. *)
Fixpoint mockLoop (now : Z) (searchRadius : Q) (fuel : nat) (i : nat)
    (incidents : list Incident) : Gen (option (list Incident)) :=
  match fuel with
  | O => ret None
  | S fuel' =>
      let! r := rnd in
      if (Z.of_nat i <? Qfloor (r * 5) + 1)%Z then
        let! r1 := rnd in
        let! r2 := rnd in
        let! r3 := rnd in
        mockLoop now searchRadius fuel' (S i)
          (incidents
           ++ [ {| incident_type := arrayGet incidentTypes (Qfloor (r1 * 5));
                   incident_distance := r2 * searchRadius;
                   incident_timestamp :=
                     newDate (inject_Z now - r3 * 30 * 24 * 60 * 60 * 1000) |} ])
      else ret (Some incidents)
  end.

Definition generateMockIncidents (fuel : nat) (now : Z) (qlat qlon searchRadius : Q)
  : Gen (option (list Incident)) :=
  let! incidents := mockLoop now searchRadius fuel 0 [] in
  ret (sortBy incident_distance <$> incidents).

Inductive RiskTrend : Type := increasing | stable | decreasing.

Record RegionalStatistics : Type := {
  totalIncidents : Z;
  riskTrend : option RiskTrend;
  populationAtRisk : Z;
  economicImpact : Q;
  lastUpdate : Z
}.

Definition getRegionalStatistics (now : Z) (region : string) : Gen RegionalStatistics :=
  let! r1 := rnd in
  let! r2 := rnd in
  let! r3 := rnd in
  let! r4 := rnd in
  ret {| totalIncidents := (Qfloor (r1 * 100) + 50)%Z;
         riskTrend := arrayGet [increasing; stable; decreasing] (Qfloor (r2 * 3));
         populationAtRisk := (Qfloor (r3 * 50000) + 10000)%Z;
         economicImpact := r4 * 10000000 + 1000000;
         lastUpdate := now |}.

(** The arguments at which ECMAScript fixes the result of the [Math]
    functions the distance uses: [sin(0) = 0], [sqrt(0) = 0], [sqrt(1)] is
    positive, and [atan2(0, x) = 0] for positive [x]. *)
Definition exactAtZero : Prop :=
  (forall x, x == 0 -> Math_sin x == 0) /\
  (forall x, x == 0 -> Math_sqrt x == 0) /\
  (forall x, x == 1 -> 0 < Math_sqrt x) /\
  (forall y x, y == 0 -> 0 < x -> Math_atan2 y x == 0).

End Analytics.

End Geo.

(** ** A small implementation of [ECMAMath]

    Low-order approximations, exact at the arguments where ECMAScript fixes
    the result ([sin 0], [cos 0], [sqrt 0], [sqrt 1], [atan2 0 x] for
    positive [x]).  It instantiates the theorems at concrete inputs. *)

Module Sample.

Import JS.

Local Open Scope Q_scope.

Definition sin (x : Q) : Q := x - x * x * x / 6 + x * x * x * x * x / 120.

Definition cos (x : Q) : Q := 1 - x * x / 2 + x * x * x * x / 24.

Definition sqrt (x : Q) : Q :=
  inject_Z (Z.sqrt (Qfloor (x * 1000000000000000000))) / 1000000000.

Definition atan (z : Q) : Q :=
  if Qleb (Qabs z) 1 then z / (1 + 0.28 * z * z)
  else (if Qltb 0 z then Math_PI / 2 else - (Math_PI / 2)) - z / (z * z + 0.28).

Definition atan2 (y x : Q) : Q :=
  if Qltb 0 x then atan (y / x)
  else if Qltb x 0 then
    (if Qltb y 0 then atan (y / x) - Math_PI else atan (y / x) + Math_PI)
  else if Qltb 0 y then Math_PI / 2
  else if Qltb y 0 then - (Math_PI / 2)
  else 0.

Fixpoint padLeft (width : nat) (s : string) : string :=
  match width with
  | O => s
  | S w => if (String.length s <=? w)%nat then padLeft w ("0" ++ s) else s
  end.

Definition toFixed (x : Q) (digits : nat) : string :=
  let scale := (10 ^ Z.of_nat digits)%Z in
  let n := Qfloor (Qabs x * inject_Z scale + (1 # 2)) in
  (if Qltb x 0 then "-" else "")
  ++ pretty (n / scale)%Z
  ++ match digits with
     | O => ""
     | S _ => "." ++ padLeft digits (pretty (n mod scale)%Z)
     end.

(** Drops the zeros that end a decimal expansion, and the point after them. *)
Fixpoint trim (s : string) : string :=
  match s with
  | EmptyString => EmptyString
  | String c rest =>
      match trim rest with
      | EmptyString =>
          if (Ascii.eqb c "0"%char || Ascii.eqb c "."%char)%bool then EmptyString
          else String c EmptyString
      | kept => String c kept
      end
  end.

Definition toString (x : Q) : string :=
  if (Zpos (Qden (Qred x)) =? 1)%Z then pretty (Qnum (Qred x))
  else trim (toFixed x 6).

#[export] Instance math : ECMAMath :=
  {| Math_sin := sin; Math_cos := cos; Math_sqrt := sqrt; Math_atan2 := atan2;
     Number_toFixed := toFixed; Number_toString := toString |}.

(** [Math.random()] returning [0] at every call, the least value it can. *)
Definition zeros : nat -> Q := fun _ => 0.

End Sample.

(** ** Inputs used to instantiate the statements *)

Module Inputs.

Import JS IoT.

(** The seismic monitor of the default registry, last serviced at the epoch,
    and the instant forty days later. *)
Definition staleSeismic : SensorConfig :=
  {| id := "seismic_001"; type := seismic;
     location := {| lat := 40.7282; lon := -74.0776; name := "Seismic Monitor Delta" |};
     updateInterval := 5; isActive := true; lastMaintenance := 0 |}%Q.

Definition fortyDays : Z := 40 * day.

(** [Math.random()] returning [0.5] at every call. *)
Definition halves : nat -> Q := fun _ => 0.5%Q.

(** The service after [initialize] at the epoch. *)
Definition started : State := initialize 0 newService.

(** A wave reading of seven metres, above both wave-height thresholds. *)
Definition stormReading : SensorReading :=
  {| sensorId := "wave_001"; timestamp := 0;
     data := object [("height", 7%Q); ("period", 9%Q)];
     quality := excellent; batteryLevel := Some 90%Q; signalStrength := Some 80%Q |}.

Definition patch (interval : option Q) (flag : option bool) : PartialConfig :=
  {| new_id := None; new_type := None; new_location := None;
     new_updateInterval := interval; new_isActive := flag;
     new_lastMaintenance := None |}.

(** Four reconfiguration patches: switch the device off; sample every ten
    seconds; a negative and a zero sampling interval. *)
Definition deactivate : PartialConfig := patch None (Some false).
Definition everyTenSeconds : PartialConfig := patch (Some 10%Q) None.
Definition negativeInterval : PartialConfig := patch (Some (-5)%Q) None.
Definition zeroInterval : PartialConfig := patch (Some 0%Q) None.

(** A reading of a device that is not in the registry. *)
Definition strayReading : SensorReading :=
  {| sensorId := "buoy_417"; timestamp := 0;
     data := object [("height", 9%Q); ("magnitude", 8%Q)];
     quality := excellent; batteryLevel := None; signalStrength := None |}.

End Inputs.

Module GeoInputs.

Import JS Geo.

(** A batch of one sighting. *)
Definition sighting : Location :=
  {| loc_lat := 25.77%Q; loc_lon := (-80.18)%Q; timestamp := 1700000000000 |}.

(** Two sightings off Miami Beach and one in San Francisco Bay. *)
Definition batch : list Location :=
  [ sighting;
    {| loc_lat := 25.78%Q; loc_lon := (-80.17)%Q; timestamp := 1700000100000 |};
    {| loc_lat := 37.77%Q; loc_lon := (-122.41)%Q; timestamp := 1700000200000 |} ].

(** Forty points within a radius of one kilometre. *)
Definition crowded : Cluster :=
  {| center := {| lat := 25.77%Q; lon := (-80.18)%Q |};
     points := repeat sighting 40;
     radius := Fin 1 |}.

End GeoInputs.

Module ExtraInputs.

Import JS IoT.

(** The wave buoy as [initialize] at the epoch registers it, and the two
    wave-height rules of the configured table. *)
Definition waveBuoy : SensorConfig :=
  {| id := "wave_001"; type := wave;
     location := {| lat := 40.7128; lon := -74.0060; name := "New York Harbor Alpha" |};
     updateInterval := 30; isActive := true;
     lastMaintenance := 0 - 7 * day |}%Q.

Definition highWave : AlertThreshold :=
  {| sensorType := "wave"; parameter := "height"; minValue := None;
     maxValue := Some 4.0%Q; condition := above; severity := high |}.

Definition criticalWave : AlertThreshold :=
  {| sensorType := "wave"; parameter := "height"; minValue := None;
     maxValue := Some 6.0%Q; condition := above; severity := critical |}.

(** The tide gauge as [initialize] at the epoch registers it. *)
Definition tideGauge : SensorConfig :=
  {| id := "tide_001"; type := tide;
     location := {| lat := 40.7589; lon := -73.9851; name := "Central Park Reservoir Beta" |};
     updateInterval := 60; isActive := false;
     lastMaintenance := 0 - 14 * day |}%Q.

(** The weather station as [initialize] at the epoch registers it. *)
Definition weatherStation : SensorConfig :=
  {| id := "weather_001"; type := weather;
     location := {| lat := 40.6892; lon := -74.0445; name := "Gamma Weather Station" |};
     updateInterval := 15; isActive := true;
     lastMaintenance := 0 - 3 * day |}%Q.

End ExtraInputs.

Module GeoExtraInputs.

Import JS Geo.

(** A zone entered without its polygon, with a route entered without its
    path. *)
Definition unmapped : RiskZone :=
  {| id := "zone_003"; zoneName := "Unmapped Shore";
     polygon := [];
     riskLevel := low;
     riskFactors := [];
     evacuationRoutes := [ {| name := "Unmarked Track"; coordinates := []; capacity := 100 |} ] |}.

(** A region around the Miami Beach zone. *)
Definition miamiShore : Region :=
  {| northEast := {| lat := 25.80%Q; lon := (-80.15)%Q |};
     southWest := {| lat := 25.72%Q; lon := (-80.20)%Q |} |}.

End GeoExtraInputs.

(** ** Comparisons of finite numbers *)

Module JSFacts.

Import JS.

Lemma Qltb_true x y : Qltb x y = true <-> (x < y)%Q.
Proof.
  unfold Qltb. destruct (Qlt_le_dec x y) as [H | H]; split; intros; try done.
  exfalso. lra.
Qed.

Lemma Qltb_false x y : Qltb x y = false <-> (y <= x)%Q.
Proof.
  unfold Qltb. destruct (Qlt_le_dec x y) as [H | H]; split; intros; try done.
  exfalso. lra.
Qed.

Lemma Qleb_true x y : Qleb x y = true <-> (x <= y)%Q.
Proof. apply Qle_bool_iff. Qed.

Lemma Qleb_false x y : Qleb x y = false <-> (y < x)%Q.
Proof.
  unfold Qleb. pose proof (Qle_bool_iff x y) as Hiff.
  destruct (Qle_bool x y); split; intros; try done.
  - exfalso. assert (x <= y)%Q by tauto. lra.
  - apply Qnot_le_lt. intros Hle. apply Hiff in Hle. discriminate.
Qed.

Lemma Qis0_true x : Qis0 x = true <-> (x == 0)%Q.
Proof. apply Qeq_bool_iff. Qed.

Lemma Qis0_false x : Qis0 x = false <-> ~ (x == 0)%Q.
Proof.
  unfold Qis0. split.
  - intros E Hx. apply Qeq_bool_iff in Hx. congruence.
  - intros Hn. destruct (Qeq_bool x 0) eqn:E; [| done].
    apply Qeq_bool_iff in E. contradiction.
Qed.

(** *** Rounding to a double *)

Section Doubles.

Local Open Scope Q_scope.

Lemma roundEven_bounds (x : Q) :
  x - (1 # 2) <= inject_Z (roundEven x) /\ inject_Z (roundEven x) <= x + (1 # 2).
Proof.
  unfold roundEven, Qltb.
  pose proof (Qfloor_le x) as Hlow. pose proof (Qlt_floor x) as Hhigh.
  rewrite inject_Z_plus in Hhigh. change (inject_Z 1) with 1 in Hhigh.
  destruct (Qlt_le_dec (x - inject_Z (Qfloor x)) (1 # 2)) as [H1 | H1].
  - split; lra.
  - destruct (Qlt_le_dec (1 # 2) (x - inject_Z (Qfloor x))) as [H2 | H2].
    + rewrite inject_Z_plus. change (inject_Z 1) with 1. split; lra.
    + destruct (Z.even (Qfloor x)).
      * split; lra.
      * rewrite inject_Z_plus. change (inject_Z 1) with 1. split; lra.
Qed.

Lemma roundEven_nonnegative (x : Q) : 0 <= x -> (0 <= roundEven x)%Z.
Proof.
  intros Hx. assert (0 <= Qfloor x)%Z as Hf.
  { change 0%Z with (Qfloor 0). by apply Qfloor_resp_le. }
  unfold roundEven.
  destruct (Qltb _ _); [exact Hf |].
  destruct (Qltb _ _); [lia |]. destruct (Z.even _); lia.
Qed.

(** The exponent [exponent] finds is not too large. *)
Lemma exponent_le (x : Q) : 0 < x -> 2 ^ exponent x <= x.
Proof.
  intros Hx. unfold exponent, Qleb.
  set (e := (Z.log2 (Qnum x) - Z.log2 (Z.pos (Qden x)))%Z).
  destruct (Qle_bool (2 ^ e) x) eqn:E; [by apply Qle_bool_iff |]. clear E.
  destruct x as [num den]. cbn [Qnum Qden] in e.
  assert (0 < num)%Z as Hnum by (unfold Qlt in Hx; simpl in Hx; lia).
  destruct (Z.log2_spec num Hnum) as [Hn _].
  destruct (Z.log2_spec (Z.pos den) (Pos2Z.is_pos den)) as [_ Hd].
  pose proof (Z.log2_nonneg num) as Ha. pose proof (Z.log2_nonneg (Z.pos den)) as Hb.
  set (a := Z.log2 num) in *. set (b := Z.log2 (Z.pos den)) in *.
  assert (2 ^ (e - 1) == inject_Z (2 ^ a) / inject_Z (2 ^ Z.succ b)) as ->.
  { subst e. replace (a - b - 1)%Z with (a - Z.succ b)%Z by lia.
    rewrite Qpower_minus by discriminate.
    rewrite (Zpower_Qpower 2 a Ha), (Zpower_Qpower 2 (Z.succ b)) by lia. reflexivity. }
  assert (0 < inject_Z (2 ^ Z.succ b)) as Hpos.
  { change 0 with (inject_Z 0). rewrite <- Zlt_Qlt. lia. }
  apply Qle_shift_div_r; [exact Hpos |].
  unfold Qle, Qmult, inject_Z. cbn [Qnum Qden]. nia.
Qed.

(** Rounding a positive number to a double adds at most the fraction
    2^-53 of it. *)
Lemma double_upper (x : Q) : 0 < x -> double x <= x * (1 + 2 ^ (-53)).
Proof.
  intros Hx. unfold double, Qis0, Qltb.
  destruct (Qeq_bool x 0) eqn:E; [apply Qeq_bool_iff in E; lra |]. clear E.
  destruct (Qlt_le_dec x 0) as [Hneg | _]; [lra |].
  assert (Qabs x == x) as Habs by (apply Qabs_pos; lra).
  assert (0 < Qabs x) as Hpositive by (rewrite Habs; exact Hx).
  pose proof (exponent_le (Qabs x) Hpositive) as He.
  set (e := exponent (Qabs x)) in *.
  destruct (roundEven_bounds (Qabs x * 2 ^ (52 - e))) as [_ Hup].
  set (m := inject_Z (roundEven (Qabs x * 2 ^ (52 - e)))) in *.
  assert (Qabs x * 2 ^ (52 - e) == x * 2 ^ (52 - e)) as Hscaled
    by (rewrite Habs; reflexivity).
  assert (0 < 2 ^ (- (52 - e))) as Hpos by (by apply Qpower_0_lt).
  assert (m * 2 ^ (- (52 - e)) <= (x * 2 ^ (52 - e) + (1 # 2)) * 2 ^ (- (52 - e))) as H1.
  { apply Qmult_le_compat_r; lra. }
  assert (2 ^ (52 - e) * 2 ^ (- (52 - e)) == 1) as H2.
  { rewrite <- Qpower_plus by discriminate.
    replace (52 - e + - (52 - e))%Z with 0%Z by lia. reflexivity. }
  assert (2 ^ (- (52 - e)) == 2 ^ e * 2 ^ (-52)) as H3.
  { rewrite <- Qpower_plus by discriminate. f_equiv. lia. }
  assert (2 ^ (-53) == (1 # 2) * 2 ^ (-52)) as H4 by reflexivity.
  assert (0 < 2 ^ (-52)) as Hp52 by reflexivity.
  set (u := 2 ^ (-52)) in *. set (p := 2 ^ (52 - e)) in *. set (q := 2 ^ (- (52 - e))) in *.
  set (w := 2 ^ e) in *. rewrite H4.
  assert (w * u <= x * u) by (apply Qmult_le_compat_r; lra).
  assert ((x * p + (1 # 2)) * q == x * (p * q) + (1 # 2) * q) as H5 by ring.
  rewrite H5, H2 in H1. lra.
Qed.

Lemma double_nonnegative (x : Q) : 0 <= x -> 0 <= double x.
Proof.
  intros Hx. unfold double, Qis0, Qltb.
  destruct (Qeq_bool x 0); [lra |].
  destruct (Qlt_le_dec x 0) as [Hneg | _]; [lra |].
  apply Qmult_le_0_compat.
  - change 0 with (inject_Z 0). rewrite <- Zle_Qle. apply roundEven_nonnegative.
    apply Qmult_le_0_compat; [apply Qabs_nonneg | apply Qpower_0_le; lra].
  - apply Qpower_0_le. lra.
Qed.

End Doubles.

End JSFacts.

(** ** Properties of the telemetry stream manager *)

Module IoTProofs.

Import JS IoT JSFacts.

Section Quality.

Context {M : ECMAMath}.
Variable Math_random : nat -> Q.
Variable now : Z.

(** Whatever the switch leaves in [quality], the reading carries the grade
    of the service age. *)
Lemma quality_generateSensorReading config calls :
  quality (fst (generateSensorReading Math_random now config calls))
  = degrade (daysSinceMaintenance now config) good.
Proof.
  unfold generateSensorReading, bind, ret, random.
  destruct (sensorData Math_random now config calls) as [[d q] n]. reflexivity.
Qed.

Lemma degrade_bands days q :
  ((30 < days)%Q -> degrade days q = poor) /\
  ((14 < days)%Q -> (days <= 30)%Q -> degrade days q = fair) /\
  ((7 < days)%Q -> (days <= 14)%Q -> degrade days q = good) /\
  ((days <= 7)%Q -> degrade days q = excellent).
Proof.
  unfold degrade.
  destruct (Qltb 30 days) eqn:H30; [apply Qltb_true in H30 | apply Qltb_false in H30];
  destruct (Qltb 14 days) eqn:H14; [apply Qltb_true in H14 | apply Qltb_false in H14 | apply Qltb_true in H14 | apply Qltb_false in H14];
  destruct (Qltb 7 days) eqn:H7; [apply Qltb_true in H7 | apply Qltb_false in H7 | apply Qltb_true in H7 | apply Qltb_false in H7 | apply Qltb_true in H7 | apply Qltb_false in H7 | apply Qltb_true in H7 | apply Qltb_false in H7];
  repeat split; intros; try reflexivity; exfalso; lra.
Qed.

(** C9.  A generated reading that does not take the seismic spike branch is
    graded by the days since the device was last serviced alone: more than
    30 days is poor, more than 14 fair, more than 7 good, and excellent
    otherwise. *)
Theorem C9_quality_by_service_age (config : SensorConfig) (calls : nat) :
  takesSpikeBranch Math_random now config calls = false ->
  let days := (inject_Z (now - lastMaintenance config) / 86400000)%Q in
  let reading := fst (generateSensorReading Math_random now config calls) in
  ((30 < days)%Q -> quality reading = poor) /\
  ((14 < days)%Q -> (days <= 30)%Q -> quality reading = fair) /\
  ((7 < days)%Q -> (days <= 14)%Q -> quality reading = good) /\
  ((days <= 7)%Q -> quality reading = excellent).
Proof.
  intros _ days reading. subst reading.
  rewrite quality_generateSensorReading.
  apply degrade_bands.
Qed.

End Quality.

(** An age of ten days, with every draw 0.5 (so no spike): the grade is good. *)
Lemma C9_quality_by_service_age_witness :
  takesSpikeBranch (M := Sample.math) Inputs.halves (10 * day) Inputs.staleSeismic 0 = false /\
  quality (fst (generateSensorReading (M := Sample.math) Inputs.halves (10 * day)
                  Inputs.staleSeismic 0)) = good.
Proof.
  split; [reflexivity |].
  apply (C9_quality_by_service_age (M := Sample.math) Inputs.halves (10 * day)
           Inputs.staleSeismic 0 eq_refl); vm_compute; congruence.
Defined.

(** C1.  On the seismic monitor forty days after its last service, with
    [Math.random()] returning 0 (so the sixth draw is below 0.05 and the
    spike branch runs), the switch leaves [quality] at ['excellent'], the
    magnitude is the spike's 2.5, and the reading is graded ['poor']. *)
Theorem C1_seismic_spike_downgraded :
  let run := generateSensorReading (M := Sample.math) Sample.zeros Inputs.fortyDays
               Inputs.staleSeismic 0 in
  takesSpikeBranch (M := Sample.math) Sample.zeros Inputs.fortyDays Inputs.staleSeismic 0 = true /\
  data (fst run) !! "magnitude" = Some (VNumber (2.5 + 0 * 2)%Q) /\
  quality (fst run) = poor.
Proof. vm_compute. repeat split; reflexivity. Qed.

Section Thresholds.

Context {M : ECMAMath}.

Lemma evaluateThreshold_fires reading alerts threshold :
  evaluateThreshold reading alerts threshold
  = (alerts ++ evaluateThreshold reading [] threshold)%list.
Proof.
  unfold evaluateThreshold.
  destruct (data reading !! parameter threshold) as [[value | |] |];
    try (by rewrite app_nil_r).
  destruct (evaluateCondition threshold value) as [[|] message];
    [reflexivity | by rewrite app_nil_r].
Qed.

(** The alerts of a reading are the alerts of each rule of its device type,
    one rule after the other: no rule sees what another one did. *)
Lemma fold_evaluateThreshold reading rules alerts :
  fold_left (evaluateThreshold reading) rules alerts
  = (alerts ++ flat_map (evaluateThreshold reading []) rules)%list.
Proof.
  revert alerts. induction rules as [| rule rules IH]; intros alerts; simpl.
  - by rewrite app_nil_r.
  - rewrite IH, (evaluateThreshold_fires reading alerts rule).
    by rewrite <- app_assoc.
Qed.

Lemma evaluateThreshold_single reading threshold value :
  data reading !! parameter threshold = Some (VNumber value) ->
  evaluateThreshold reading [] threshold
  = if fst (evaluateCondition threshold value) then [alertOf threshold value] else [].
Proof.
  intros Hv. unfold evaluateThreshold, alertOf. rewrite Hv.
  destruct (evaluateCondition threshold value) as [[|] message]; reflexivity.
Qed.

(** With bounds that are present and not zero, the three comparisons are
    the ones the rule names. *)
Lemma evaluateCondition_above threshold value mx :
  condition threshold = above -> maxValue threshold = Some mx -> ~ (mx == 0)%Q ->
  (fst (evaluateCondition threshold value) = true <-> (mx < value)%Q).
Proof.
  intros Hc Hm Hnz. unfold evaluateCondition. rewrite Hc, Hm. simpl.
  unfold Qis0. destruct (Qeq_bool mx 0) eqn:E.
  - apply Qeq_bool_iff in E. contradiction.
  - simpl. destruct (Qltb mx value) eqn:L; simpl.
    + apply Qltb_true in L. tauto.
    + apply Qltb_false in L. split; [discriminate | intros; exfalso; lra].
Qed.

Lemma evaluateCondition_below threshold value mn :
  condition threshold = below -> minValue threshold = Some mn -> ~ (mn == 0)%Q ->
  (fst (evaluateCondition threshold value) = true <-> (value < mn)%Q).
Proof.
  intros Hc Hm Hnz. unfold evaluateCondition. rewrite Hc, Hm. simpl.
  unfold Qis0. destruct (Qeq_bool mn 0) eqn:E.
  - apply Qeq_bool_iff in E. contradiction.
  - simpl. destruct (Qltb value mn) eqn:L; simpl.
    + apply Qltb_true in L. tauto.
    + apply Qltb_false in L. split; [discriminate | intros; exfalso; lra].
Qed.

Lemma evaluateCondition_outside threshold value mn mx :
  condition threshold = outside ->
  minValue threshold = Some mn -> maxValue threshold = Some mx ->
  ~ (mn == 0)%Q -> ~ (mx == 0)%Q ->
  (fst (evaluateCondition threshold value) = true
   <-> (value < mn)%Q \/ (mx < value)%Q).
Proof.
  intros Hc Hn Hx Hnz Hxz. unfold evaluateCondition. rewrite Hc, Hn, Hx. simpl.
  unfold Qis0. destruct (Qeq_bool mn 0) eqn:E.
  { apply Qeq_bool_iff in E. contradiction. }
  destruct (Qeq_bool mx 0) eqn:E'.
  { apply Qeq_bool_iff in E'. contradiction. }
  simpl.
  destruct (Qltb value mn) eqn:L; destruct (Qltb mx value) eqn:L'; simpl;
    repeat match goal with
           | H : Qltb _ _ = true |- _ => apply Qltb_true in H
           | H : Qltb _ _ = false |- _ => apply Qltb_false in H
           end; try tauto.
  split; [discriminate | intros [? | ?]; exfalso; lra].
Qed.

(** A bound of zero is falsy: the rule never fires, whatever the value. *)
Lemma evaluateCondition_zero_bound threshold value :
  (condition threshold = above /\ maxValue threshold = Some 0%Q) \/
  (condition threshold = below /\ minValue threshold = Some 0%Q) ->
  fst (evaluateCondition threshold value) = false.
Proof.
  unfold evaluateCondition.
  intros [[Hc Hb] | [Hc Hb]]; rewrite Hc, Hb; reflexivity.
Qed.

Lemma checkAlertThresholds_registered configs table reading config :
  configs !! sensorId reading = Some config ->
  checkAlertThresholds configs table reading
  = flat_map (evaluateThreshold reading [])
      (List.filter
         (fun threshold => String.eqb (sensorType threshold) (typeName (type config)))
         table).
Proof.
  intros Hc. unfold checkAlertThresholds. rewrite Hc.
  by rewrite fold_evaluateThreshold.
Qed.

Lemma evaluateCondition_violated threshold value :
  fst (evaluateCondition threshold value) = true -> violated threshold value.
Proof.
  unfold evaluateCondition, violated.
  destruct (condition threshold); [| | discriminate |].
  - destruct (maxValue threshold) as [mx |]; [| discriminate].
    destruct (truthy (Some mx)); [| discriminate]. cbn [andb].
    destruct (Qltb mx value) eqn:E; [| discriminate].
    intros _. exists mx. split; [done |]. by apply Qltb_true.
  - destruct (minValue threshold) as [mn |]; [| discriminate].
    destruct (truthy (Some mn)); [| discriminate]. cbn [andb].
    destruct (Qltb value mn) eqn:E; [| discriminate].
    intros _. exists mn. split; [done |]. by apply Qltb_true.
  - destruct (minValue threshold) as [mn |]; [| discriminate].
    destruct (maxValue threshold) as [mx |]; [| discriminate].
    destruct (truthy (Some mn)); [| discriminate].
    destruct (truthy (Some mx)); [| discriminate]. cbn [andb].
    destruct (Qltb value mn) eqn:E1; destruct (Qltb mx value) eqn:E2;
      try discriminate; intros _; exists mn, mx; (split; [done |]); (split; [done |]).
    + left. by apply Qltb_true.
    + left. by apply Qltb_true.
    + right. by apply Qltb_true.
Qed.

Lemma violated_evaluateCondition threshold value :
  boundsNonZero threshold -> violated threshold value ->
  fst (evaluateCondition threshold value) = true.
Proof.
  intros [Hmin Hmax]. unfold violated.
  destruct (condition threshold) eqn:Hc; [| | done |].
  - intros (mx & Hmx & Hlt).
    by apply (evaluateCondition_above threshold value mx Hc Hmx (Hmax _ Hmx)).
  - intros (mn & Hmn & Hlt).
    by apply (evaluateCondition_below threshold value mn Hc Hmn (Hmin _ Hmn)).
  - intros (mn & mx & Hmn & Hmx & Hout).
    by apply (evaluateCondition_outside threshold value mn mx Hc Hmn Hmx
                (Hmin _ Hmn) (Hmax _ Hmx)).
Qed.

(** One rule alone. *)
Lemma checkAlertThresholds_one configs rule reading config :
  configs !! sensorId reading = Some config ->
  checkAlertThresholds configs [rule] reading
  = if String.eqb (sensorType rule) (typeName (type config))
    then evaluateThreshold reading [] rule
    else [].
Proof.
  intros Hc. unfold checkAlertThresholds. rewrite Hc. cbn [List.filter].
  by destruct (String.eqb (sensorType rule) (typeName (type config))).
Qed.

(** The alerts of a table are the alerts of its rules, taken one by one. *)
Lemma checkAlertThresholds_flat_map configs table reading :
  checkAlertThresholds configs table reading
  = flat_map (fun rule => checkAlertThresholds configs [rule] reading) table.
Proof.
  destruct (configs !! sensorId reading) as [config |] eqn:Hc.
  - rewrite (checkAlertThresholds_registered _ _ _ _ Hc).
    induction table as [| rule table IH]; [reflexivity |].
    cbn [List.filter flat_map]. rewrite (checkAlertThresholds_one _ _ _ _ Hc), <- IH.
    by destruct (String.eqb (sensorType rule) (typeName (type config))).
  - assert (forall rules, checkAlertThresholds configs rules reading = []) as Hnil.
    { intros rules. unfold checkAlertThresholds. by rewrite Hc. }
    rewrite Hnil. induction table as [| rule table IH]; [reflexivity |].
    cbn [flat_map]. by rewrite Hnil.
Qed.

Lemma defaultThresholds_boundsNonZero : Forall boundsNonZero defaultThresholds.
Proof.
  unfold defaultThresholds.
  repeat (apply List.Forall_cons;
          [split; intros b Hb;
           first [discriminate Hb | injection Hb as <-; discriminate] |]).
  apply List.Forall_nil.
Qed.

(** C10.  Threshold evaluation of a reading whose sensor id has no registered
    configuration returns the empty alert list, whatever the reading's fields
    are; handling it as a manual reading returns normally and broadcasts the
    reading with no alerts. *)
Theorem C10_unregistered_sensor_no_alerts (st : State) (reading : SensorReading) :
  sensorConfigs st !! sensorId reading = None ->
  checkAlertThresholds (sensorConfigs st) (alertThresholds st) reading = [] /\
  handleSensorMessage (manual_reading reading) st
  = Normal (st, [ {| env_type := "sensor_reading"; env_data := reading;
                     env_alerts := [] |} ]).
Proof.
  intros Hnone.
  assert (checkAlertThresholds (sensorConfigs st) (alertThresholds st) reading = [])
    as Hempty by (unfold checkAlertThresholds; by rewrite Hnone).
  split; [exact Hempty |].
  simpl. unfold processSensorReading. by rewrite Hempty.
Qed.

End Thresholds.

Lemma C10_unregistered_sensor_no_alerts_witness :
  checkAlertThresholds (M := Sample.math) (sensorConfigs Inputs.started)
    (alertThresholds Inputs.started) Inputs.strayReading = [].
Proof.
  apply (C10_unregistered_sensor_no_alerts (M := Sample.math) Inputs.started
           Inputs.strayReading).
  vm_compute. reflexivity.
Defined.

(** The two wave-height rules of the configured table both fire on one
    reading of seven metres. *)
Example storm_fires_both_wave_rules :
  List.map (fun a => severity (alert_threshold a))
    (checkAlertThresholds (M := Sample.math) (sensorConfigs Inputs.started)
       (alertThresholds Inputs.started) Inputs.stormReading)
  = [high; critical].
Proof. vm_compute. reflexivity. Qed.

(** *** Timers and the registry *)

Lemma startStream_startedFor st0 i x m r :
  m !! i = None -> startedFor st0 m r ->
  startedFor st0 (<[i := x]> m) (startStream i x r).
Proof.
  intros Hi (Hcfg & (Hlive & Hstored & Hbound) & Hrun).
  assert (~ running r i) as Hnot.
  { intros Hr. apply Hrun in Hr as (c & Hc & _). congruence. }
  unfold startStream. destruct (isActive x) eqn:Hact.
  - simpl. split; [exact Hcfg |]. split; [repeat split |].
    + intros handle timer. simpl.
      destruct (decide (handle = nextTimer r)) as [-> | Hne].
      * rewrite lookup_insert_eq. intros [= <-]. simpl. by rewrite lookup_insert_eq.
      * rewrite lookup_insert_ne by done. intros Ht.
        destruct (decide (timerKey timer = i)) as [Hk | Hk].
        { exfalso. apply Hnot. by exists handle, timer. }
        rewrite lookup_insert_ne by done. by apply Hlive.
    + intros sensorId handle. simpl.
      destruct (decide (sensorId = i)) as [-> | Hne].
      * rewrite lookup_insert_eq. intros [= <-].
        eexists. by rewrite lookup_insert_eq.
      * rewrite lookup_insert_ne by done. intros Hs.
        destruct (Hstored _ _ Hs) as (timer & Ht & Hk).
        exists timer. split; [| done].
        rewrite lookup_insert_ne; [done |].
        intros <-. assert (nextTimer r < nextTimer r)%nat by (apply Hbound; eauto). lia.
    + intros handle. simpl.
      destruct (decide (handle = nextTimer r)) as [-> | Hne]; [lia |].
      rewrite lookup_insert_ne by done. intros Hs. apply Hbound in Hs. lia.
    + intros sensorId. unfold running at 1. simpl.
      destruct (decide (sensorId = i)) as [-> | Hne].
      * rewrite lookup_insert_eq. split; [eauto |]. intros _.
        eexists _, _. by rewrite lookup_insert_eq.
      * rewrite lookup_insert_ne by done. rewrite <- Hrun. split.
        -- intros (handle & timer & Ht & Hk).
           destruct (decide (handle = nextTimer r)) as [-> | Hne'].
           ++ rewrite lookup_insert_eq in Ht. injection Ht as <-. simpl in Hk. congruence.
           ++ rewrite lookup_insert_ne in Ht by done. by exists handle, timer.
        -- intros (handle & timer & Ht & Hk). exists handle, timer. split; [| done].
           rewrite lookup_insert_ne; [done |].
           intros <-. assert (nextTimer r < nextTimer r)%nat by (apply Hbound; eauto). lia.
  - split; [exact Hcfg |]. split; [done |].
    intros sensorId. rewrite Hrun.
    destruct (decide (sensorId = i)) as [-> | Hne].
    + rewrite lookup_insert_eq, Hi. split.
      * by intros (c & ? & _).
      * intros (c & [= <-] & ?). congruence.
    + by rewrite lookup_insert_ne.
Qed.

Lemma startSensorDataStreams_startedFor st :
  timers st = ∅ -> streamingIntervals st = ∅ ->
  startedFor st (sensorConfigs st) (startSensorDataStreams st).
Proof.
  intros Ht Hs. unfold startSensorDataStreams.
  apply (map_fold_weak_ind (fun r m => startedFor st m r)).
  - split; [done |]. split; [repeat split |].
    + intros handle timer. by rewrite Ht, lookup_empty.
    + intros sensorId handle. by rewrite Hs, lookup_empty.
    + intros handle. rewrite Ht, lookup_empty. by intros [? ?].
    + intros sensorId. split.
      * intros (handle & timer & Hl & _). by rewrite Ht, lookup_empty in Hl.
      * intros (c & Hc & _). by rewrite lookup_empty in Hc.
  - intros i x m r Hi HP. by apply startStream_startedFor.
Qed.

Lemma timers_initializeSensorConfigs now st :
  timers (initializeSensorConfigs now st) = timers st /\
  streamingIntervals (initializeSensorConfigs now st) = streamingIntervals st.
Proof.
  unfold initializeSensorConfigs. generalize (defaultSensors now). intros sensors.
  revert st. induction sensors as [| sensor sensors IH]; intros st; simpl; [done |].
  destruct (IH (set_sensorConfigs (<[id sensor := sensor]> (sensorConfigs st)) st))
    as [-> ->]. done.
Qed.

Lemma set_isInitialized_streamInvariant flag st :
  streamInvariant st -> streamInvariant (set_isInitialized flag st).
Proof. intros H. exact H. Qed.

Lemma initialize_streamInvariant now : streamInvariant (initialize now newService).
Proof.
  unfold initialize.
  change (isInitialized newService) with false. cbv iota.
  apply set_isInitialized_streamInvariant.
  destruct (timers_initializeSensorConfigs now newService) as [Ht Hs].
  set (st := initializeSensorConfigs now newService) in *.
  clearbody st.
  destruct (startSensorDataStreams_startedFor (setupAlertThresholds st) Ht Hs)
    as (Hcfg & Hexact & Hrun).
  split; [exact Hexact |].
  intros sensorId. unfold active. rewrite Hcfg. apply Hrun.
Qed.

Lemma updateMaintenanceRecord_streamInvariant st sensorId date :
  streamInvariant st -> streamInvariant (updateMaintenanceRecord sensorId date st).
Proof.
  intros [Hexact Hflag]. unfold updateMaintenanceRecord.
  destruct (sensorConfigs st !! sensorId) as [config |] eqn:Hc; [| done].
  split; [exact Hexact |].
  intros other. rewrite (Hflag other). unfold active, running. simpl.
  destruct (decide (other = sensorId)) as [-> | Hne].
  - rewrite lookup_insert_eq, Hc. split.
    + intros (c & [= <-] & Ha). eauto.
    + intros (c & [= <-] & Ha). eauto.
  - by rewrite lookup_insert_ne.
Qed.

(** Storing the merged configuration alone. *)
Lemma store_streamInvariant st sensorId existing newConfig :
  sensorConfigs st !! sensorId = Some existing ->
  isActive (spread existing newConfig) = isActive existing ->
  streamInvariant st ->
  streamInvariant
    (set_sensorConfigs (<[sensorId := spread existing newConfig]> (sensorConfigs st)) st).
Proof.
  intros Hc Hkeep [Hexact Hflag]. split; [exact Hexact |].
  intros other. rewrite (Hflag other). unfold active. simpl.
  destruct (decide (other = sensorId)) as [-> | Hne].
  - rewrite lookup_insert_eq, Hc. split.
    + intros (c & [= <-] & Ha). eexists. split; [done | congruence].
    + intros (c & [= <-] & Ha). eexists. split; [done | congruence].
  - by rewrite lookup_insert_ne.
Qed.

Lemma restart_streamInvariant st sensorId delay :
  streamInvariant st -> active st sensorId ->
  let st2 := match streamingIntervals st !! sensorId with
             | Some oldInterval => clearInterval oldInterval st
             | None => st
             end in
  streamInvariant
    (let (newInterval, st3) := setInterval sensorId delay st2 in
     set_streamingIntervals (<[sensorId := newInterval]> (streamingIntervals st3)) st3).
Proof.
  intros [(Hlive & Hstored & Hbound) Hflag] Hact.
  apply Hflag in Hact as (old & oldTimer & Hold & Hkey).
  pose proof (Hlive _ _ Hold) as Hs. rewrite Hkey in Hs. rewrite Hs. simpl.
  assert (old < nextTimer st)%nat as Hlt by (apply Hbound; eauto).
  split; [repeat split |].
  - intros handle timer. simpl.
    destruct (decide (handle = nextTimer st)) as [-> | Hne].
    + rewrite lookup_insert_eq. intros [= <-]. simpl. by rewrite lookup_insert_eq.
    + rewrite lookup_insert_ne by done.
      destruct (decide (handle = old)) as [-> | Hne'].
      * by rewrite lookup_delete_eq.
      * rewrite lookup_delete_ne by done. intros Ht.
        destruct (decide (timerKey timer = sensorId)) as [Hk | Hk].
        { apply Hlive in Ht. rewrite Hk in Ht. congruence. }
        rewrite lookup_insert_ne by done. by apply Hlive.
  - intros other handle. simpl.
    destruct (decide (other = sensorId)) as [-> | Hne].
    + rewrite lookup_insert_eq. intros [= <-].
      eexists. by rewrite lookup_insert_eq.
    + rewrite lookup_insert_ne by done. intros Ho.
      destruct (Hstored _ _ Ho) as (timer & Ht & Hk).
      exists timer. split; [| done].
      assert (handle < nextTimer st)%nat by (apply Hbound; eauto).
      rewrite lookup_insert_ne by lia.
      rewrite lookup_delete_ne; [done |].
      intros ->. congruence.
  - intros handle. simpl.
    destruct (decide (handle = nextTimer st)) as [-> | Hne]; [lia |].
    rewrite lookup_insert_ne by done.
    destruct (decide (handle = old)) as [-> | Hne']; [lia |].
    rewrite lookup_delete_ne by done. intros Ht. apply Hbound in Ht. lia.
  - intros other. unfold active. simpl.
    change (∃ config, sensorConfigs st !! other = Some config ∧ isActive config = true)
      with (active st other).
    rewrite <- (Hflag other). unfold running. simpl.
    destruct (decide (other = sensorId)) as [-> | Hne].
    + split; [| intros _; eexists _, _; by rewrite lookup_insert_eq].
      intros _. eauto.
    + split.
      * intros (handle & timer & Ht & Hk).
        destruct (decide (handle = nextTimer st)) as [-> | Hne1].
        { rewrite lookup_insert_eq in Ht. injection Ht as <-. simpl in Hk. congruence. }
        rewrite lookup_insert_ne in Ht by done.
        destruct (decide (handle = old)) as [-> | Hne2].
        { by rewrite lookup_delete_eq in Ht. }
        rewrite lookup_delete_ne in Ht by done. eauto.
      * intros (handle & timer & Ht & Hk). exists handle, timer. split; [| done].
        assert (handle < nextTimer st)%nat by (apply Hbound; eauto).
        rewrite lookup_insert_ne by lia.
        rewrite lookup_delete_ne; [done |]. intros ->. congruence.
Qed.

Lemma updateSensorConfig_streamInvariant st sensorId newConfig :
  streamInvariant st -> keepsFlag st sensorId newConfig ->
  streamInvariant (updateSensorConfig sensorId newConfig st).
Proof.
  intros Hinv Hkeep. unfold updateSensorConfig.
  destruct (sensorConfigs st !! sensorId) as [existing |] eqn:Hc; [| done].
  specialize (Hkeep existing Hc).
  pose proof (store_streamInvariant st sensorId existing newConfig Hc Hkeep Hinv) as Hst1.
  set (st1 := set_sensorConfigs _ st) in *.
  destruct (new_updateInterval newConfig) as [interval |]; [| done].
  destruct (truthy (Some interval)); [| done].
  destruct (isActive existing) eqn:Hact.
  - apply (restart_streamInvariant st1 sensorId (interval * 1000) Hst1).
    exists (spread existing newConfig). subst st1. simpl.
    rewrite lookup_insert_eq. split; [done | exact Hkeep].
  - destruct (streamingIntervals st1 !! sensorId) as [old |] eqn:Hold; [| done].
    exfalso. destruct Hst1 as [(_ & Hstored & _) Hflag].
    destruct (Hstored _ _ Hold) as (timer & Ht & Hk).
    assert (running st1 sensorId) as Hr by (by exists old, timer).
    apply Hflag in Hr as (c & Hc' & Ha). subst st1. simpl in Hc'.
    rewrite lookup_insert_eq in Hc'. injection Hc' as <-.
    rewrite Hkeep in Ha. discriminate.
Qed.

(** *** What shutdown finds *)

Lemma handlesExact_tracked st : handlesExact st -> tracked st.
Proof. intros (Hlive & _ & Hbound). by split. Qed.

Lemma cleanup_clears st handle : tracked st -> timers (cleanup st) !! handle = None.
Proof.
  intros [Hlive _].
  destruct (timers (cleanup st) !! handle) as [timer |] eqn:Ht; [| reflexivity].
  exfalso. unfold cleanup in Ht. simpl in Ht.
  assert (clearedFor st (streamingIntervals st)
            (map_fold (fun _ interval st => clearInterval interval st) st
               (streamingIntervals st))) as [Hgone Hsub].
  { apply (map_fold_weak_ind (fun r m => clearedFor st m r)).
    - split; [intros ? ?; by rewrite lookup_empty | done].
    - intros i x m r Hi [Hgone Hsub]. split.
      + intros other h. simpl.
        destruct (decide (h = x)) as [-> | Hne]; [by rewrite lookup_delete_eq |].
        rewrite lookup_delete_ne by done.
        destruct (decide (other = i)) as [-> | Hne'].
        * rewrite lookup_insert_eq. congruence.
        * rewrite lookup_insert_ne by done. apply Hgone.
      + intros h t. simpl.
        destruct (decide (h = x)) as [-> | Hne]; [by rewrite lookup_delete_eq |].
        rewrite lookup_delete_ne by done. apply Hsub. }
  pose proof (Hsub _ _ Ht) as Hin. apply Hlive in Hin. apply Hgone in Hin. congruence.
Qed.

Lemma cleanup_stops_every_timer st sensorId :
  handlesExact st -> ~ running (cleanup st) sensorId.
Proof.
  intros Hexact (handle & timer & Ht & _).
  rewrite (cleanup_clears st handle (handlesExact_tracked st Hexact)) in Ht. discriminate.
Qed.

Lemma cleanup_keeps_fields st :
  sensorConfigs (cleanup st) = sensorConfigs st /\
  isInitialized (cleanup st) = isInitialized st /\
  alertThresholds (cleanup st) = alertThresholds st /\
  streamingIntervals (cleanup st) = ∅.
Proof.
  unfold cleanup. cbn [sensorConfigs isInitialized alertThresholds streamingIntervals
                         set_streamingIntervals].
  generalize (streamingIntervals st). intros handles.
  apply (map_fold_weak_ind
           (fun r (_ : gmap string nat) =>
              sensorConfigs r = sensorConfigs st /\
              isInitialized r = isInitialized st /\
              alertThresholds r = alertThresholds st /\
              (∅ : gmap string nat) = ∅)).
  - done.
  - intros i x m r _ (H1 & H2 & H3 & _). done.
Qed.

Lemma tracked_updateMaintenanceRecord st sensorId date :
  tracked st -> tracked (updateMaintenanceRecord sensorId date st).
Proof.
  intros Htracked. unfold updateMaintenanceRecord.
  by destruct (sensorConfigs st !! sensorId).
Qed.

(** A configuration update keeps every live timer in the handle table,
    whatever it does to the flag. *)
Lemma tracked_updateSensorConfig st sensorId newConfig :
  tracked st -> tracked (updateSensorConfig sensorId newConfig st).
Proof.
  intros [Hlive Hbound]. unfold updateSensorConfig.
  destruct (sensorConfigs st !! sensorId) as [existing |]; [| by split].
  set (st1 := set_sensorConfigs _ st).
  destruct (new_updateInterval newConfig) as [interval |]; [| by split].
  destruct (truthy (Some interval)); [| by split].
  set (st2 := match streamingIntervals st1 !! sensorId with
              | Some oldInterval => clearInterval oldInterval st1
              | None => st1
              end).
  assert ((forall handle timer,
              timers st2 !! handle = Some timer ->
              timers st !! handle = Some timer /\ timerKey timer <> sensorId) /\
          streamingIntervals st2 = streamingIntervals st /\
          nextTimer st2 = nextTimer st) as (Hsub & Htable & Hnext).
  { subst st2 st1. cbn [streamingIntervals set_sensorConfigs].
    destruct (streamingIntervals st !! sensorId) as [old |] eqn:Hold.
    - split; [| done]. intros handle timer. simpl.
      destruct (decide (handle = old)) as [-> | Hne]; [by rewrite lookup_delete_eq |].
      rewrite lookup_delete_ne by done. intros Ht. split; [exact Ht |].
      intros Hk. apply Hlive in Ht. rewrite Hk in Ht. congruence.
    - split; [| done]. intros handle timer. simpl. intros Ht. split; [exact Ht |].
      intros Hk. apply Hlive in Ht. rewrite Hk in Ht. congruence. }
  clearbody st2. clear st1.
  destruct (isActive existing).
  - simpl. split.
    + intros handle timer. simpl.
      destruct (decide (handle = nextTimer st2)) as [-> | Hne].
      * rewrite lookup_insert_eq. intros [= <-]. simpl. by rewrite lookup_insert_eq.
      * rewrite lookup_insert_ne by done. intros Ht.
        destruct (Hsub _ _ Ht) as [Ht' Hk].
        rewrite lookup_insert_ne by done. rewrite Htable. by apply Hlive.
    + intros handle. simpl.
      destruct (decide (handle = nextTimer st2)) as [-> | Hne]; [lia |].
      rewrite lookup_insert_ne by done. intros [timer Ht].
      destruct (Hsub _ _ Ht) as [Ht' _].
      assert (handle < nextTimer st)%nat by (apply Hbound; eauto). lia.
  - split.
    + intros handle timer Ht. destruct (Hsub _ _ Ht) as [Ht' _].
      rewrite Htable. by apply Hlive.
    + intros handle [timer Ht]. destruct (Hsub _ _ Ht) as [Ht' _].
      rewrite Hnext. apply Hbound. eauto.
Qed.

Lemma tracked_cleanup st : tracked st -> tracked (cleanup st).
Proof.
  intros Htracked. split.
  - intros handle timer. by rewrite (cleanup_clears st handle Htracked).
  - intros handle. rewrite (cleanup_clears st handle Htracked). by intros [? ?].
Qed.

Lemma reachable_tracked st : reachable st -> tracked st.
Proof.
  induction 1 as [now | st sensorId newConfig _ IH | st sensorId date _ IH | st _ IH].
  - apply handlesExact_tracked, (initialize_streamInvariant now).
  - by apply tracked_updateSensorConfig.
  - by apply tracked_updateMaintenanceRecord.
  - by apply tracked_cleanup.
Qed.

(** *** The table of rules a service holds *)

Lemma alertThresholds_startSensorDataStreams st :
  alertThresholds (startSensorDataStreams st) = alertThresholds st.
Proof.
  unfold startSensorDataStreams.
  apply (map_fold_weak_ind
           (fun r (_ : gmap string SensorConfig) => alertThresholds r = alertThresholds st)).
  - reflexivity.
  - intros i x m r _ Hr. unfold startStream. by destruct (isActive x).
Qed.

Lemma alertThresholds_updateSensorConfig st sensorId newConfig :
  alertThresholds (updateSensorConfig sensorId newConfig st) = alertThresholds st.
Proof.
  unfold updateSensorConfig.
  destruct (sensorConfigs st !! sensorId) as [existing |]; [| done].
  destruct (new_updateInterval newConfig) as [interval |]; [| done].
  destruct (truthy (Some interval)); [| done].
  simpl.
  destruct (streamingIntervals st !! sensorId); destruct (isActive existing); done.
Qed.

Lemma alertThresholds_initialize now st :
  isInitialized st = false -> alertThresholds (initialize now st) = defaultThresholds.
Proof.
  intros Hfresh. unfold initialize. rewrite Hfresh.
  cbn [alertThresholds set_isInitialized].
  by rewrite alertThresholds_startSensorDataStreams.
Qed.

Lemma alertThresholds_reachable st :
  reachable st -> alertThresholds st = defaultThresholds.
Proof.
  induction 1 as [now | st sensorId newConfig _ IH | st sensorId date _ IH | st _ IH].
  - by apply alertThresholds_initialize.
  - by rewrite alertThresholds_updateSensorConfig.
  - unfold updateMaintenanceRecord. by destruct (sensorConfigs st !! sensorId).
  - by destruct (cleanup_keeps_fields st) as (_ & _ & -> & _).
Qed.

Lemma updateSensorConfig_without_interval st sensorId newConfig :
  new_updateInterval newConfig = None ->
  timers (updateSensorConfig sensorId newConfig st) = timers st /\
  streamingIntervals (updateSensorConfig sensorId newConfig st) = streamingIntervals st.
Proof.
  intros Hnone. unfold updateSensorConfig.
  destruct (sensorConfigs st !! sensorId); [| done]. by rewrite Hnone.
Qed.

Lemma sensorConfigs_updateSensorConfig st sensorId newConfig existing :
  sensorConfigs st !! sensorId = Some existing ->
  sensorConfigs (updateSensorConfig sensorId newConfig st)
  = <[sensorId := spread existing newConfig]> (sensorConfigs st).
Proof.
  intros Hc. unfold updateSensorConfig. rewrite Hc.
  destruct (new_updateInterval newConfig) as [interval |]; [| done].
  destruct (truthy (Some interval)); [| done].
  simpl.
  destruct (streamingIntervals st !! sensorId); destruct (isActive existing); done.
Qed.

Section Rules.

Context {M : ECMAMath}.

(** C2.  Every table of rules a service holds carries bounds other than 0.
    For a table of such rules and a reading of a registered device, a rule
    of the device's type whose field is numeric in the reading emits exactly
    one alert, which carries the rule and the value, when the comparison it
    names holds (above: the value exceeds the maximum; below: it is under
    the minimum; outside: it is under the minimum or exceeds the maximum),
    and none otherwise; and the alerts of the table are the alerts of its
    rules taken one by one, in the order of the table, so that two rules on
    one field fire independently. *)
Theorem C2_rules_fire_by_comparison :
  (forall st, reachable st -> Forall boundsNonZero (alertThresholds st)) /\
  forall configs table reading config,
    configs !! sensorId reading = Some config ->
    Forall boundsNonZero table ->
    (forall rule value,
        In rule table ->
        sensorType rule = typeName (type config) ->
        data reading !! parameter rule = Some (VNumber value) ->
        (violated rule value ->
         checkAlertThresholds configs [rule] reading = [alertOf rule value]) /\
        (~ violated rule value ->
         checkAlertThresholds configs [rule] reading = [])) /\
    checkAlertThresholds configs table reading
    = flat_map (fun rule => checkAlertThresholds configs [rule] reading) table.
Proof.
  split.
  - intros st Hreach. rewrite (alertThresholds_reachable st Hreach).
    exact defaultThresholds_boundsNonZero.
  - intros configs table reading config Hc Hbounds.
    split; [| apply checkAlertThresholds_flat_map].
    intros rule value Hin Htype Hvalue.
    assert (boundsNonZero rule) as Hnz
      by (by apply (proj1 (List.Forall_forall boundsNonZero table) Hbounds)).
    rewrite (checkAlertThresholds_one _ _ _ _ Hc), Htype, String.eqb_refl.
    rewrite (evaluateThreshold_single _ _ _ Hvalue).
    split; intros Hviolated.
    + by rewrite (violated_evaluateCondition _ _ Hnz Hviolated).
    + destruct (fst (evaluateCondition rule value)) eqn:Hfires; [| reflexivity].
      exfalso. by apply Hviolated, evaluateCondition_violated.
Qed.

End Rules.

(** The two wave-height rules of the configured table on a reading of seven
    metres: each fires alone, and the table fires rule by rule. *)
Lemma C2_rules_fire_by_comparison_witness :
  checkAlertThresholds (M := Sample.math) (sensorConfigs Inputs.started)
    [ExtraInputs.highWave] Inputs.stormReading
  = [alertOf (M := Sample.math) ExtraInputs.highWave 7] /\
  checkAlertThresholds (M := Sample.math) (sensorConfigs Inputs.started)
    [ExtraInputs.criticalWave] Inputs.stormReading
  = [alertOf (M := Sample.math) ExtraInputs.criticalWave 7] /\
  checkAlertThresholds (M := Sample.math) (sensorConfigs Inputs.started)
    defaultThresholds Inputs.stormReading
  = flat_map
      (fun rule =>
         checkAlertThresholds (M := Sample.math) (sensorConfigs Inputs.started)
           [rule] Inputs.stormReading)
      defaultThresholds.
Proof.
  destruct (C2_rules_fire_by_comparison (M := Sample.math)) as [Hheld Hrules].
  destruct (Hrules (sensorConfigs Inputs.started) defaultThresholds Inputs.stormReading
              ExtraInputs.waveBuoy)
    as [Hone Hall].
  - vm_compute. reflexivity.
  - rewrite <- (alertThresholds_reachable _ (reach_initialize 0)).
    apply Hheld, reach_initialize.
  - split; [| split; [| exact Hall]].
    + apply (Hone ExtraInputs.highWave 7%Q).
      * left. reflexivity.
      * reflexivity.
      * vm_compute. reflexivity.
      * exists 4.0%Q. split; reflexivity.
    + apply (Hone ExtraInputs.criticalWave 7%Q).
      * right. left. reflexivity.
      * reflexivity.
      * vm_compute. reflexivity.
      * exists 6.0%Q. split; reflexivity.
Defined.

(** C3 (amended).  After initialization a device has a running timer exactly
    when its active flag is true, with exact handle bookkeeping; a
    maintenance update preserves this, and so does a configuration update
    that leaves the active flag as it was; and in every state the service
    can reach, whatever updates went before, shutdown leaves no device with
    a running timer and every stored configuration, the active flags
    included, as it was. *)
Theorem C3_timer_follows_flag_while_flag_kept :
  (forall now, streamInvariant (initialize now newService)) /\
  (forall st sensorId date,
      streamInvariant st ->
      streamInvariant (updateMaintenanceRecord sensorId date st)) /\
  (forall st sensorId newConfig,
      streamInvariant st -> keepsFlag st sensorId newConfig ->
      streamInvariant (updateSensorConfig sensorId newConfig st)) /\
  (forall st,
      reachable st ->
      (forall sensorId, ~ running (cleanup st) sensorId) /\
      sensorConfigs (cleanup st) = sensorConfigs st).
Proof.
  split; [exact initialize_streamInvariant |].
  split; [intros; by apply updateMaintenanceRecord_streamInvariant |].
  split; [intros; by apply updateSensorConfig_streamInvariant |].
  intros st Hreach. split.
  - intros sensorId (handle & timer & Ht & _).
    rewrite (cleanup_clears st handle (reachable_tracked st Hreach)) in Ht.
    discriminate.
  - by destruct (cleanup_keeps_fields st) as (-> & _).
Qed.

(** The default registry, after a maintenance update of the tide gauge and a
    new sampling interval for the wave buoy; and the shutdown of the
    registry in which the wave buoy was switched off. *)
Lemma C3_timer_follows_flag_while_flag_kept_witness :
  streamInvariant
    (updateSensorConfig "wave_001" Inputs.everyTenSeconds
       (updateMaintenanceRecord "tide_001" 5 Inputs.started)) /\
  ~ running
      (cleanup (updateSensorConfig "wave_001" Inputs.deactivate Inputs.started))
      "wave_001" /\
  sensorConfigs
    (cleanup (updateSensorConfig "wave_001" Inputs.deactivate Inputs.started))
  = sensorConfigs (updateSensorConfig "wave_001" Inputs.deactivate Inputs.started).
Proof.
  destruct C3_timer_follows_flag_while_flag_kept as (Hinit & Hmaint & Hconf & Hstop).
  split.
  - apply Hconf.
    + apply Hmaint, Hinit.
    + intros existing _. reflexivity.
  - destruct (Hstop (updateSensorConfig "wave_001" Inputs.deactivate Inputs.started))
      as [Hnone Hsame].
    + apply reach_configured. exact (reach_initialize 0).
    + split; [apply Hnone | exact Hsame].
Defined.

(** C3, as stated, fails: switching the wave buoy off through a
    configuration update leaves its timer running. *)
Lemma C3_deactivation_keeps_timer :
  ~ timerMatchesFlag (updateSensorConfig "wave_001" Inputs.deactivate Inputs.started).
Proof.
  intros Hiff. specialize (Hiff "wave_001").
  assert (running Inputs.started "wave_001") as (handle & timer & Ht & Hk).
  { apply (initialize_streamInvariant 0).
    eexists. split; [vm_compute; reflexivity | reflexivity]. }
  assert (active (updateSensorConfig "wave_001" Inputs.deactivate Inputs.started)
            "wave_001") as (config & Hc & Ha).
  { apply Hiff. exists handle, timer. split; [| exact Hk].
    destruct (updateSensorConfig_without_interval Inputs.started "wave_001"
                Inputs.deactivate eq_refl) as [-> _].
    exact Ht. }
  vm_compute in Hc. injection Hc as <-. discriminate.
Qed.

(** Shutdown cancels the timers and leaves the flags: the wave buoy is then
    active without a timer. *)
Example cleanup_leaves_flags :
  active (cleanup Inputs.started) "wave_001" /\
  ~ running (cleanup Inputs.started) "wave_001".
Proof.
  split.
  - eexists. split; [vm_compute; reflexivity | reflexivity].
  - apply cleanup_stops_every_timer, (initialize_streamInvariant 0).
Qed.

(** C6 (amended).  A reconfiguration request for a device that is not
    registered returns normally and leaves the service as it was; a request
    with a sampling interval of zero or less for a registered device returns
    normally too, and the stored configuration then carries that interval. *)
Theorem C6_reconfiguration_unchecked `{ECMAMath} (st : State) (sensorId : string)
    (newConfig : PartialConfig) :
  (sensorConfigs st !! sensorId = None ->
   handleSensorMessage (sensor_config_update sensorId newConfig) st
   = Normal (st, [])) /\
  (forall existing interval,
      sensorConfigs st !! sensorId = Some existing ->
      new_updateInterval newConfig = Some interval ->
      (interval <= 0)%Q ->
      exists st',
        handleSensorMessage (sensor_config_update sensorId newConfig) st
        = Normal (st', []) /\
        sensorConfigs st' !! sensorId = Some (spread existing newConfig) /\
        updateInterval (spread existing newConfig) = interval).
Proof.
  split.
  - intros Hnone. simpl. unfold updateSensorConfig. by rewrite Hnone.
  - intros existing interval Hc Hi _.
    exists (updateSensorConfig sensorId newConfig st). split; [reflexivity |].
    rewrite (sensorConfigs_updateSensorConfig _ _ _ _ Hc), lookup_insert_eq.
    split; [reflexivity |]. unfold spread. simpl. by rewrite Hi.
Qed.

Lemma C6_reconfiguration_unchecked_witness :
  handleSensorMessage (H := Sample.math)
    (sensor_config_update "buoy_417" Inputs.everyTenSeconds) Inputs.started
  = Normal (Inputs.started, []) /\
  exists st',
    handleSensorMessage (H := Sample.math)
      (sensor_config_update "seismic_001" Inputs.zeroInterval) Inputs.started
    = Normal (st', []) /\
    updateInterval <$> sensorConfigs st' !! "seismic_001" = Some 0%Q.
Proof.
  destruct (C6_reconfiguration_unchecked (H := Sample.math) Inputs.started "buoy_417"
              Inputs.everyTenSeconds) as [Hunknown _].
  split; [apply Hunknown; vm_compute; reflexivity |].
  destruct (C6_reconfiguration_unchecked (H := Sample.math) Inputs.started
              "seismic_001" Inputs.zeroInterval) as [_ Hzero].
  destruct (Hzero (default Inputs.staleSeismic (sensorConfigs Inputs.started !! "seismic_001"))
              0%Q) as (st' & Hrun & Hc & Hi).
  - vm_compute. reflexivity.
  - reflexivity.
  - vm_compute. discriminate.
  - exists st'. split; [exact Hrun |]. rewrite Hc. exact (f_equal Some Hi).
Defined.

(** C6, as stated, fails: the request for an unknown device returns normally
    (no error), and the request with interval -5 is applied: the stored
    interval is -5 and the device's timer is restarted with a delay of
    -5000 ms. *)
Lemma C6_unknown_device_and_negative_interval_accepted :
  handleSensorMessage (H := Sample.math)
    (sensor_config_update "buoy_417" Inputs.everyTenSeconds) Inputs.started
  = Normal (Inputs.started, []) /\
  exists st',
    handleSensorMessage (H := Sample.math)
      (sensor_config_update "seismic_001" Inputs.negativeInterval) Inputs.started
    = Normal (st', []) /\
    updateInterval <$> sensorConfigs st' !! "seismic_001" = Some (-5)%Q /\
    exists handle,
      streamingIntervals st' !! "seismic_001" = Some handle /\
      timers st' !! handle
      = Some {| timerKey := "seismic_001"; timerDelay := (-5 * 1000)%Q |}.
Proof.
  split; [vm_compute; reflexivity |].
  eexists. split; [reflexivity |].
  split; [vm_compute; reflexivity |].
  eexists. split; vm_compute; reflexivity.
Qed.

End IoTProofs.

(** ** Properties of the spatial risk analytics *)

Module GeoProofs.

Import JS Geo JSFacts.

Section Sorting.

Context {A : Type} (key : A -> Q).

Lemma insertBy_Permutation x l : Permutation (insertBy key x l) (x :: l).
Proof.
  induction l as [| y l IH]; simpl; [done |].
  destruct (Qleb (key x) (key y)); [done |].
  rewrite IH. apply perm_swap.
Qed.

Lemma sortBy_Permutation l : Permutation (sortBy key l) l.
Proof.
  induction l as [| x l IH]; simpl; [done |].
  rewrite insertBy_Permutation. by constructor.
Qed.

Lemma insertBy_StronglySorted x l :
  StronglySorted (ascending key) l -> StronglySorted (ascending key) (insertBy key x l).
Proof.
  induction 1 as [| y l Hs IH Hall]; simpl.
  - repeat constructor.
  - destruct (Qleb (key x) (key y)) eqn:E.
    + apply Qleb_true in E. constructor; [by constructor |].
      constructor; [exact E |].
      eapply Forall_impl; [exact Hall |]. unfold ascending. intros z Hz. simpl in Hz. lra.
    + apply Qleb_false in E. constructor; [exact IH |].
      rewrite insertBy_Permutation. constructor; [| exact Hall].
      unfold ascending. lra.
Qed.

Lemma sortBy_StronglySorted l : StronglySorted (ascending key) (sortBy key l).
Proof.
  induction l as [| x l IH]; simpl; [constructor |].
  by apply insertBy_StronglySorted.
Qed.

(** An element that is strictly below everything before it and at most
    everything after it comes first in the sorted array. *)
Lemma sortBy_first before x after :
  Forall (fun y => (key x < key y)%Q) before ->
  Forall (fun y => (key x <= key y)%Q) after ->
  exists rest, sortBy key (before ++ x :: after) = x :: rest.
Proof.
  intros Hb Ha. induction Hb as [| y before Hy Hb IH]; simpl.
  - change (fold_right (insertBy key) [] after) with (sortBy key after).
    assert (Forall (fun y => (key x <= key y)%Q) (sortBy key after)) as Hs
      by (by rewrite sortBy_Permutation).
    destruct (sortBy key after) as [| z rest]; simpl; [eauto |].
    inversion_clear Hs as [| ? ? Hz _].
    apply Qleb_true in Hz. rewrite Hz. eauto.
  - destruct IH as [rest IH].
    change (fold_right (insertBy key) [] (before ++ x :: after))
      with (sortBy key (before ++ x :: after)).
    rewrite IH. simpl.
    assert (Qleb (key y) (key x) = false) as -> by (by apply Qleb_false).
    eauto.
Qed.

End Sorting.

(** *** Cluster risk *)

Lemma Math_PI_positive : (0 < Math_PI)%Q.
Proof. reflexivity. Qed.

Lemma calculateClusterRisk_finite cluster r :
  radius cluster = Fin r -> ~ (r == 0)%Q ->
  calculateClusterRisk cluster
  = if Qltb 10 (density (length (points cluster)) r) then high
    else if Qltb 5 (density (length (points cluster)) r) then medium
    else low.
Proof.
  intros Hr Hnz. unfold calculateClusterRisk. rewrite Hr. simpl.
  assert (Qis0 (Math_PI * r * r) = false) as ->.
  { apply Qis0_false. intros Hz.
    pose proof Math_PI_positive as Hpi.
    assert (Math_PI * (r * r) == 0)%Q as Hz' by (rewrite <- Hz; ring).
    apply Qmult_integral in Hz' as [Hz' | Hz']; [lra |].
    apply Qmult_integral in Hz' as [Hz' | Hz']; contradiction. }
  reflexivity.
Qed.

Lemma calculateClusterRisk_zero_radius cluster r :
  radius cluster = Fin r -> (r == 0)%Q -> points cluster <> [] ->
  calculateClusterRisk cluster = high.
Proof.
  intros Hr Hz Hne. unfold calculateClusterRisk. rewrite Hr. simpl.
  assert (Qis0 (Math_PI * r * r) = true) as ->.
  { apply Qis0_true. rewrite Hz. ring. }
  destruct (points cluster) as [| p ps]; [done |].
  reflexivity.
Qed.

(** C5 (amended).  The risk level of a described cluster of finite radius
    [r] is high when its point density count / (pi r^2) exceeds 10, medium
    when it exceeds 5 and low otherwise, for [r] other than 0; a cluster of
    radius 0 that holds a point is assigned high. *)
Theorem C5_cluster_risk_by_density (index : nat) (cluster : Cluster) (r : Q) :
  radius cluster = Fin r ->
  let level := cluster_riskLevel (describeCluster index cluster) in
  let d := density (incidentCount (describeCluster index cluster)) r in
  (~ (r == 0)%Q ->
   ((10 < d)%Q -> level = high) /\
   ((5 < d)%Q -> (d <= 10)%Q -> level = medium) /\
   ((d <= 5)%Q -> level = low)) /\
  ((r == 0)%Q -> points cluster <> [] -> level = high).
Proof.
  intros Hr level d. subst level d. simpl. split.
  - intros Hnz. rewrite (calculateClusterRisk_finite _ _ Hr Hnz).
    set (d := density (length (points cluster)) r).
    destruct (Qltb 10 d) eqn:H10; [apply Qltb_true in H10 | apply Qltb_false in H10];
      (destruct (Qltb 5 d) eqn:H5; [apply Qltb_true in H5 | apply Qltb_false in H5]);
      repeat split; intros; try reflexivity; exfalso; lra.
  - intros Hz Hne. by apply (calculateClusterRisk_zero_radius _ _ Hr).
Qed.

Lemma C5_cluster_risk_by_density_witness :
  cluster_riskLevel (describeCluster 0 GeoInputs.crowded) = high.
Proof.
  destruct (C5_cluster_risk_by_density 0 GeoInputs.crowded 1 eq_refl) as [Hfinite _].
  destruct Hfinite as (Hhigh & _ & _); [discriminate |].
  apply Hhigh. vm_compute. reflexivity.
Defined.

(** C5, as stated, fails: clustering a batch of one point returns one
    cluster of one point and radius 0, and its risk level is high. *)
Lemma C5_single_point_cluster_is_high :
  exists described,
    fst (analyzeLocationClusters (M := Sample.math) Sample.zeros [GeoInputs.sighting] 0)
    = Some [described] /\
    incidentCount described = 1%nat /\
    (exists r, cluster_radius described = Fin r /\ (r == 0)%Q) /\
    cluster_riskLevel described = high.
Proof.
  eexists. split; [vm_compute; reflexivity |].
  split; [reflexivity |]. split; [| reflexivity].
  eexists. split; reflexivity.
Qed.

(** *** Proximity scoring *)

Section Proximity.

Context {M : ECMAMath}.

Lemma mapM_measureZone qlat qlon zones :
  Forall (fun z => polygon z <> []) zones ->
  mapM (measureZone qlat qlon) zones = Some (List.map (measured qlat qlon) zones).
Proof.
  induction 1 as [| z zones Hz _ IH]; [reflexivity |].
  cbn. rewrite IH. unfold measureZone, measured, referenceDistance.
  destruct (polygon z) as [| vertex rest]; [done | reflexivity].
Qed.

Lemma filter_map_measured (keep : ZoneDistance -> bool) qlat qlon zones :
  List.filter keep (List.map (measured qlat qlon) zones)
  = List.map (measured qlat qlon)
      (List.filter (fun z => keep (measured qlat qlon z)) zones).
Proof.
  induction zones as [| z zones IH]; simpl; [done |].
  destruct (keep (measured qlat qlon z)); simpl; by rewrite IH.
Qed.

Lemma riskMultiplier_positive level : (0 < riskMultiplier level)%Q.
Proof. destruct level; reflexivity. Qed.

Lemma zoneTerm_nonnegative searchRadius item : (0 <= zoneTerm searchRadius item)%Q.
Proof.
  unfold zoneTerm.
  pose proof (riskMultiplier_positive (riskLevel (zone item))) as Hw.
  apply Qmult_le_0_compat; [| lra].
  apply Qmult_le_0_compat; [apply Q.le_max_l | lra].
Qed.

Lemma total_nonnegative terms :
  Forall (fun t => (0 <= t)%Q) terms -> (0 <= total terms)%Q.
Proof.
  induction 1 as [| t terms Ht _ IH]; unfold total in *; cbn [fold_right]; lra.
Qed.

(** With a search radius other than 0 every step of the accumulation stays
    finite and adds the zone's term. *)
Lemma addZoneRisk_finite searchRadius acc item :
  ~ (searchRadius == 0)%Q ->
  exists acc', addZoneRisk searchRadius (Fin acc) item = Fin acc' /\
               (acc' == acc + zoneTerm searchRadius item)%Q.
Proof.
  intros Hnz. unfold addZoneRisk, zoneTerm. simpl.
  apply Qis0_false in Hnz. rewrite Hnz. simpl.
  set (x := ((searchRadius - distance item) / searchRadius)%Q).
  destruct (Qltb 0 x) eqn:E; simpl; eexists; (split; [reflexivity |]).
  - apply Qltb_true in E. rewrite (Q.max_r 0 x) by lra. ring.
  - apply Qltb_false in E. rewrite (Q.max_l 0 x) by lra. ring.
Qed.

Lemma fold_addZoneRisk_finite searchRadius items acc :
  ~ (searchRadius == 0)%Q ->
  exists score, fold_left (addZoneRisk searchRadius) items (Fin acc) = Fin score /\
                (score == acc + total (List.map (zoneTerm searchRadius) items))%Q.
Proof.
  intros Hnz. revert acc.
  induction items as [| item items IH]; intros acc; cbn [fold_left List.map].
  - exists acc. split; [reflexivity | unfold total; simpl; ring].
  - destruct (addZoneRisk_finite searchRadius acc item Hnz) as (acc' & -> & Hacc).
    destruct (IH acc') as (score & -> & Hscore).
    exists score. split; [reflexivity |].
    rewrite Hscore, Hacc. unfold total. cbn [fold_right]. ring.
Qed.

Lemma Qround_nonnegative x : (0 <= x)%Q -> (0 <= Qround x)%Z.
Proof.
  intros Hx. unfold Qround.
  change 0%Z with (Qfloor 0). apply Qfloor_resp_le. lra.
Qed.

Lemma Qround_Qeq x y : (x == y)%Q -> Qround x = Qround y.
Proof. intros Hxy. unfold Qround. apply Qfloor_comp. by rewrite Hxy. Qed.

(** C7 (amended).  For a catalog whose zones all have a reference vertex,
    proximity assessment returns a report that selects exactly the zones
    whose reference vertex lies within the radius, sorted ascending by
    distance; and, for every search radius other than 0, its risk score is
    the sum over the selected zones of
    max(0, (radius - distance) / radius) x severityWeight x 20, rounded and
    capped at 100, a number between 0 and 100. *)
Theorem C7_proximity_assessment (riskZones : list RiskZone) (qlat qlon searchRadius : Q) :
  Forall (fun z => polygon z <> []) riskZones ->
  exists report,
    analyzeProximityRisks riskZones qlat qlon searchRadius = Some report /\
    Permutation (nearbyRiskZones report)
      (List.map (measured qlat qlon)
         (List.filter
            (fun z => Qleb (referenceDistance qlat qlon z) searchRadius) riskZones)) /\
    StronglySorted (ascending distance) (nearbyRiskZones report) /\
    (~ (searchRadius == 0)%Q ->
     exists score,
       riskScore report = Fin score /\
       (score == Qmin 100
                  (inject_Z
                     (Qround (total (List.map (zoneTerm searchRadius)
                                       (nearbyRiskZones report))))))%Q /\
       (0 <= score)%Q /\ (score <= 100)%Q).
Proof.
  intros Hwf. unfold analyzeProximityRisks.
  rewrite (mapM_measureZone _ _ _ Hwf). cbn.
  eexists. split; [reflexivity |]. cbn [nearbyRiskZones riskScore].
  set (nearby := sortBy distance _).
  split; [| split].
  - subst nearby. rewrite sortBy_Permutation, filter_map_measured. reflexivity.
  - apply sortBy_StronglySorted.
  - intros Hnz.
    destruct (fold_addZoneRisk_finite searchRadius nearby 0 Hnz) as (raw & -> & Hraw).
    set (sum := total (List.map (zoneTerm searchRadius) nearby)) in *.
    assert (0 <= sum)%Q as Hsum.
    { apply total_nonnegative, List.Forall_forall. intros t Ht.
      apply in_map_iff in Ht as (item & <- & _). apply zoneTerm_nonnegative. }
    assert (Qround raw = Qround sum) as Hround by (apply Qround_Qeq; rewrite Hraw; ring).
    pose proof (Qround_nonnegative sum Hsum) as Hpos.
    change (round (Fin raw)) with (Fin (inject_Z (Qround raw))). rewrite Hround.
    set (r := inject_Z (Qround sum)).
    assert (0 <= r)%Q as Hr.
    { subst r. change 0%Q with (inject_Z 0). by rewrite <- Zle_Qle. }
    change (JS.min (Fin 100) (Fin r)) with (if Qltb r 100 then Fin r else Fin 100).
    change (ltb (Fin r) (Fin 100)) with (Qltb r 100).
    destruct (Qltb r 100) eqn:E.
    + apply Qltb_true in E. exists r. split; [reflexivity |].
      split; [symmetry; apply (Q.min_r 100 r); lra | lra].
    + apply Qltb_false in E. exists 100%Q. split; [reflexivity |].
      split; [symmetry; apply (Q.min_l 100 r); lra | lra].
Qed.

End Proximity.

Lemma C7_proximity_assessment_witness :
  exists report score,
    analyzeProximityRisks (M := Sample.math) defaultRiskZones 25.77 (-80.18) 10
    = Some report /\
    riskScore report = Fin score /\ (0 <= score)%Q /\ (score <= 100)%Q.
Proof.
  destruct (C7_proximity_assessment (M := Sample.math) defaultRiskZones 25.77 (-80.18) 10)
    as (report & Hrun & _ & _ & Hscore).
  - repeat constructor; discriminate.
  - destruct Hscore as (score & Hfin & _ & Hlow & Hhigh); [discriminate |].
    exists report, score. auto.
Defined.

(** C7, as stated, fails: with search radius 0 and the query point on the
    reference vertex of the Miami zone, that zone is selected and the risk
    score is NaN. *)
Lemma C7_zero_radius_scores_NaN :
  exists report,
    analyzeProximityRisks (M := Sample.math) defaultRiskZones 25.7617 (-80.1918) 0
    = Some report /\
    List.map (fun item => id (zone item)) (nearbyRiskZones report) = ["zone_001"] /\
    riskScore report = NaN.
Proof.
  eexists. split; [vm_compute; reflexivity |]. split; reflexivity.
Qed.

(** *** Evacuation resolution *)

Section Evacuation.

Context {M : ECMAMath}.
Variable Math_random : nat -> Q.

Lemma firstNearest_least qlat qlon routes route other :
  firstNearest qlat qlon routes route -> In other routes ->
  (routeDistance qlat qlon route <= routeDistance qlat qlon other)%Q.
Proof.
  intros (before & after & -> & Hb & Ha) Hin.
  apply in_app_or in Hin as [Hin | [<- | Hin]].
  - rewrite List.Forall_forall in Hb. apply Qlt_le_weak. by apply Hb.
  - lra.
  - rewrite List.Forall_forall in Ha. by apply Ha.
Qed.

Lemma firstNearest_In qlat qlon routes route :
  firstNearest qlat qlon routes route -> In route routes.
Proof. intros (before & after & -> & _). apply in_elt. Qed.

Lemma visitRoute_searched qlat qlon visited search route :
  coordinates route <> [] -> searched qlat qlon visited search ->
  exists search',
    visitRoute qlat qlon search route = Some search' /\
    searched qlat qlon (visited ++ [route]) search'.
Proof.
  intros Hcoord [Halt Hfound]. unfold visitRoute.
  destruct (coordinates route) as [| start rest] eqn:Hc; [done |].
  set (d := calculateDistance qlat qlon (lat start) (lon start)).
  assert (routeDistance qlat qlon route = d) as Hd
    by (unfold routeDistance; by rewrite Hc).
  assert (asNearest qlat qlon route
          = {| nearest_name := name route; nearest_distance := d;
               nearest_estimatedTime := Qround (d * 3);
               nearest_coordinates := start :: rest |}) as Hnear
    by (unfold asNearest; by rewrite Hd, Hc).
  assert (asAlternative qlat qlon route
          = {| alt_name := name route; alt_distance := d;
               alt_estimatedTime := Qround (d * 3);
               alt_capacity := capacity route |}) as Haltr
    by (unfold asAlternative; by rewrite Hd).
  rewrite <- Hnear, <- Haltr.
  assert (List.map (asAlternative qlat qlon)
            (List.filter (withinTwenty qlat qlon) (visited ++ [route]))
          = (alternatives search
             ++ (if Qleb d 20 then [asAlternative qlat qlon route] else []))%list)
    as Hfilter.
  { rewrite List.filter_app, List.map_app, <- Halt. cbn [List.filter].
    unfold withinTwenty. rewrite Hd. by destruct (Qleb d 20). }
  destruct (found search) as [nearest |] eqn:Hf.
  - destruct Hfound as (best & Hbest & -> & Hm). rewrite Hm.
    change (ltb (Fin d) (Fin (routeDistance qlat qlon best)))
      with (Qltb d (routeDistance qlat qlon best)).
    destruct (Qltb d (routeDistance qlat qlon best)) eqn:E;
      [apply Qltb_true in E | apply Qltb_false in E];
      (destruct (Qleb d 20) eqn:E20; eexists; (split; [reflexivity |]);
       (split; [cbn [alternatives]; rewrite Hfilter, ?app_nil_r; reflexivity |]);
       cbn [found minDistance]; rewrite ?Hf).
    1, 2: exists route; (split; [| split; [reflexivity | by rewrite Hd]]);
      exists visited, []; (split; [reflexivity |]); (split; [| by apply Forall_nil]);
      apply List.Forall_forall; intros other Hin;
      pose proof (firstNearest_least _ _ _ _ _ Hbest Hin); rewrite Hd; lra.
    all: exists best; (split; [| split; [reflexivity | exact Hm]]);
      destruct Hbest as (before & after & -> & Hb & Ha);
      exists before, (after ++ [route])%list;
      (split; [by rewrite <- app_assoc |]); (split; [exact Hb |]);
      apply Forall_app; (split; [exact Ha |]);
      (constructor; [rewrite Hd; lra | by apply Forall_nil]).
  - destruct Hfound as [-> Hm]. rewrite Hm. cbn [ltb].
    destruct (Qleb d 20) eqn:E20; eexists; (split; [reflexivity |]);
      (split; [cbn [alternatives]; rewrite Hfilter, ?app_nil_r; reflexivity |]);
      cbn [found minDistance];
      exists route; (split; [| split; [reflexivity | by rewrite Hd]]);
      exists [], []; (split; [reflexivity |]); split; by apply Forall_nil.
Qed.

Lemma fold_visitRoute_searched qlat qlon routes visited search :
  Forall (fun route => coordinates route <> []) routes ->
  searched qlat qlon visited search ->
  exists search',
    fold_left (fun acc route => acc ≫= fun s => visitRoute qlat qlon s route)
      routes (Some search) = Some search' /\
    searched qlat qlon (visited ++ routes) search'.
Proof.
  intros Hwf. revert visited search.
  induction Hwf as [| route routes Hroute _ IH]; intros visited search Hs.
  - exists search. by rewrite app_nil_r.
  - destruct (visitRoute_searched _ _ _ _ _ Hroute Hs) as (s1 & Hv & Hs1).
    destruct (IH _ _ Hs1) as (s2 & Hfold & Hs2).
    exists s2. cbn [fold_left mbind option_bind]. rewrite Hv.
    split; [exact Hfold |]. by rewrite <- app_assoc in Hs2.
Qed.

Lemma fold_visitZone qlat qlon riskZones acc :
  fold_left (visitZone qlat qlon) riskZones acc
  = fold_left (fun acc route => acc ≫= fun s => visitRoute qlat qlon s route)
      (allRoutes riskZones) acc.
Proof.
  revert acc. induction riskZones as [| z riskZones IH]; intros acc; [reflexivity |].
  unfold allRoutes. cbn [flat_map fold_left]. rewrite fold_left_app, IH.
  reflexivity.
Qed.

Lemma searched_start qlat qlon :
  searched qlat qlon [] {| found := None; minDistance := PosInf; alternatives := [] |}.
Proof. repeat split. Qed.

Lemma calculateCongestion_calls qlat qlon calls :
  snd (calculateCongestion Math_random qlat qlon calls) = S calls.
Proof.
  unfold calculateCongestion, bind, random, ret.
  by destruct (Qltb (Qabs (qlat - 25.7617)) 0.1 && Qltb (Qabs (qlon + 80.1918)) 0.1).
Qed.

(** The nearest route, when within 20 km, heads the sorted alternatives. *)
Lemma nearest_heads_alternatives qlat qlon routes route :
  firstNearest qlat qlon routes route ->
  (routeDistance qlat qlon route <= 20)%Q ->
  exists rest,
    sortBy alt_distance
      (List.map (asAlternative qlat qlon) (List.filter (withinTwenty qlat qlon) routes))
    = asAlternative qlat qlon route :: rest.
Proof.
  intros (before & after & -> & Hb & Ha) Hnear.
  rewrite List.filter_app. cbn [List.filter].
  assert (withinTwenty qlat qlon route = true) as -> by (by apply Qleb_true).
  rewrite List.map_app. cbn [List.map].
  apply sortBy_first.
  - apply List.Forall_forall. intros alt Hin.
    apply in_map_iff in Hin as (other & <- & Hin).
    apply filter_In in Hin as [Hin _].
    rewrite List.Forall_forall in Hb. by apply Hb.
  - apply List.Forall_forall. intros alt Hin.
    apply in_map_iff in Hin as (other & <- & Hin).
    apply filter_In in Hin as [Hin _].
    rewrite List.Forall_forall in Ha. by apply Ha.
Qed.

(** C8.  For a catalog whose routes all have a first coordinate, evacuation
    resolution returns as nearest route the first route, across all zones,
    whose first coordinate is at the least great-circle distance from the
    query point, with estimated time round(distance x 3); it returns none
    exactly when the catalog has no route.  The alternatives are the routes
    within 20 km, sorted ascending by distance and cut to the first three;
    the nearest route is not left out of them: when it is within 20 km it
    is the first alternative. *)
Theorem C8_evacuation_resolution (riskZones : list RiskZone) (qlat qlon : Q)
    (calls : nat) :
  Forall (fun route => coordinates route <> []) (allRoutes riskZones) ->
  exists analysis,
    getEvacuationAnalysis Math_random riskZones qlat qlon calls
    = (Some analysis, S calls) /\
    match nearestRoute analysis with
    | None => allRoutes riskZones = []
    | Some nearest =>
        exists route,
          firstNearest qlat qlon (allRoutes riskZones) route /\
          nearest = asNearest qlat qlon route /\
          (forall other, In other (allRoutes riskZones) ->
                         (nearest_distance nearest <= routeDistance qlat qlon other)%Q) /\
          nearest_estimatedTime nearest = Qround (nearest_distance nearest * 3) /\
          ((nearest_distance nearest <= 20)%Q ->
           exists rest,
             alternativeRoutes analysis = asAlternative qlat qlon route :: rest)
    end /\
    exists sorted,
      alternativeRoutes analysis = take 3 sorted /\
      Permutation sorted
        (List.map (asAlternative qlat qlon)
           (List.filter (withinTwenty qlat qlon) (allRoutes riskZones))) /\
      StronglySorted (ascending alt_distance) sorted.
Proof.
  intros Hwf. unfold getEvacuationAnalysis. rewrite fold_visitZone.
  destruct (fold_visitRoute_searched qlat qlon _ [] _ Hwf (searched_start qlat qlon))
    as (search & -> & [Halt Hfound]).
  cbn [app] in Halt, Hfound.
  unfold bind.
  pose proof (calculateCongestion_calls qlat qlon calls) as Hcalls.
  destruct (calculateCongestion Math_random qlat qlon calls) as [level n].
  cbn [snd] in Hcalls. subst n.
  eexists. split; [reflexivity |]. cbn [nearestRoute alternativeRoutes].
  rewrite Halt. split.
  - destruct (found search) as [nearest |].
    + destruct Hfound as (route & Hfirst & -> & _).
      exists route. split; [exact Hfirst |]. split; [reflexivity |].
      split; [intros other Hin; by apply (firstNearest_least _ _ _ _ _ Hfirst) |].
      split; [reflexivity |].
      cbn [nearest_distance asNearest]. intros Hnear.
      destruct (nearest_heads_alternatives _ _ _ _ Hfirst Hnear) as [rest ->].
      by exists (take 2 rest).
    + by destruct Hfound.
  - eexists. split; [reflexivity |].
    split; [apply sortBy_Permutation | apply sortBy_StronglySorted].
Qed.

End Evacuation.

Lemma C8_evacuation_resolution_witness :
  exists analysis,
    getEvacuationAnalysis (M := Sample.math) Sample.zeros defaultRiskZones 25.77 (-80.18) 0
    = (Some analysis, 1%nat) /\
    nearestRoute analysis <> None.
Proof.
  destruct (C8_evacuation_resolution (M := Sample.math) Sample.zeros defaultRiskZones
              25.77 (-80.18) 0) as (analysis & Hrun & Hnearest & _).
  - repeat constructor; discriminate.
  - exists analysis. split; [exact Hrun |].
    destruct (nearestRoute analysis); [discriminate | discriminate Hnearest].
Defined.

(** *** Clustering *)

Section Clustering.

Context {M : ECMAMath}.
Variable Math_random : nat -> Q.

Lemma isNearest_unique clusters point i j :
  isNearest clusters point i -> isNearest clusters point j -> i = j.
Proof.
  intros (ci & Hi & Hle_i & Hlt_i) (cj & Hj & Hle_j & Hlt_j).
  destruct (Nat.lt_trichotomy i j) as [Hlt | [Heq | Hlt]]; [| done |].
  - pose proof (Hlt_j _ _ Hi Hlt). pose proof (Hle_i _ _ Hj). lra.
  - pose proof (Hlt_i _ _ Hj Hlt). pose proof (Hle_j _ _ Hi). lra.
Qed.

Lemma distanceTo_centre point x y :
  center x = center y -> distanceTo point x = distanceTo point y.
Proof. unfold distanceTo. by intros ->. Qed.

Lemma isNearest_sameCentres a b point i :
  sameCentres a b -> isNearest a point i -> isNearest b point i.
Proof.
  intros [Hlen Hc] (ci & Hi & Hle & Hlt).
  assert (forall j y, b !! j = Some y ->
                      exists x, a !! j = Some x /\ center x = center y) as Hback.
  { intros j y Hy.
    destruct (a !! j) as [x |] eqn:Hx.
    - exists x. split; [done |]. by apply (Hc j).
    - apply lookup_ge_None in Hx. apply lookup_lt_Some in Hy. lia. }
  destruct (b !! i) as [bi |] eqn:Hbi.
  - exists bi. split; [done |].
    rewrite <- (distanceTo_centre point ci bi) by (by apply (Hc i)).
    split.
    + intros j y Hy. destruct (Hback _ _ Hy) as (x & Hx & Hxy).
      rewrite <- (distanceTo_centre point x y Hxy). by apply (Hle j).
    + intros j y Hy Hji. destruct (Hback _ _ Hy) as (x & Hx & Hxy).
      rewrite <- (distanceTo_centre point x y Hxy). by apply (Hlt j).
  - apply lookup_ge_None in Hbi. apply lookup_lt_Some in Hi. lia.
Qed.

Lemma fold_closer_scanned point first clusters :
  scanned point first clusters
    (fold_left (closer point) (imap pair clusters) (0%nat, first)).
Proof.
  induction clusters as [| cluster seen IH] using rev_ind.
  - repeat split; [intros j other Hj; by rewrite lookup_nil in Hj ..| by left].
  - rewrite imap_app, fold_left_app. cbn [imap fold_left].
    destruct (fold_left (closer point) (imap pair seen) (0%nat, first)) as [b m].
    destruct IH as (Hle & Hlt & Hat). cbn [fst snd] in Hle, Hlt, Hat.
    rewrite Nat.add_0_r. unfold closer, scanned. cbn [fst snd].
    destruct (Qltb (distanceTo point cluster) m) eqn:E;
      [apply Qltb_true in E | apply Qltb_false in E]; cbn [fst snd].
    + split; [| split].
      * intros j other Hj. apply lookup_app_Some in Hj as [Hj | [_ Hj]].
        -- pose proof (Hle _ _ Hj). lra.
        -- apply list_lookup_singleton_Some in Hj as [_ <-]. lra.
      * intros j other Hj Hlt'. apply lookup_app_Some in Hj as [Hj | [Hge _]]; [| lia].
        pose proof (Hle _ _ Hj). lra.
      * right. exists cluster. split; [| done].
        by rewrite lookup_app_r, Nat.sub_diag.
    + assert (b = 0%nat \/ b < length seen)%nat as Hb.
      { destruct Hat as [[-> _] | (c & Hc & _)]; [by left | right].
        by apply lookup_lt_Some in Hc. }
      split; [| split].
      * intros j other Hj. apply lookup_app_Some in Hj as [Hj | [_ Hj]].
        -- by apply (Hle j).
        -- by apply list_lookup_singleton_Some in Hj as [_ <-].
      * intros j other Hj Hlt'. apply lookup_app_Some in Hj as [Hj | [Hge _]].
        -- by apply (Hlt j).
        -- lia.
      * destruct Hat as [Hat | (c & Hc & Hm)]; [by left | right].
        exists c. split; [| done]. by apply lookup_app_l_Some.
Qed.

(** [nearestCluster] finds the nearest cluster, first in iteration order
    among ties; it fails on an empty array only. *)
Lemma nearestCluster_isNearest point clusters :
  clusters <> [] ->
  exists i, nearestCluster point clusters = Some i /\ isNearest clusters point i.
Proof.
  destruct clusters as [| first rest]; [done |]. intros _.
  unfold nearestCluster.
  pose proof (fold_closer_scanned point (distanceTo point first) (first :: rest))
    as (Hle & Hlt & Hat).
  destruct (fold_left (closer point) (imap pair (first :: rest))
              (0%nat, distanceTo point first)) as [b m].
  cbn [fst snd] in *. exists b. split; [reflexivity |].
  destruct Hat as [[-> ->] | (c & Hc & ->)].
  - exists first. split; [reflexivity |]. split; [exact Hle | exact Hlt].
  - exists c. split; [exact Hc |]. split; [exact Hle | exact Hlt].
Qed.

End Clustering.

Section Assignment.

Context {M : ECMAMath}.

Lemma sameCentres_alter clusters i (f : Cluster -> Cluster) :
  (forall c, center (f c) = center c) -> sameCentres clusters (alter f i clusters).
Proof.
  intros Hf. split; [by rewrite length_alter |].
  intros j x y Hx Hy.
  destruct (decide (i = j)) as [-> | Hne].
  - rewrite list_lookup_alter_eq, Hx in Hy. injection Hy as <-. by rewrite Hf.
  - rewrite list_lookup_alter_ne in Hy by done. congruence.
Qed.

Lemma sameCentres_cleared clusters :
  sameCentres clusters (List.map (set_points []) clusters).
Proof.
  change (List.map (set_points []) clusters) with (set_points [] <$> clusters).
  split; [by rewrite length_fmap |].
  intros j x y Hx Hy. rewrite list_lookup_fmap, Hx in Hy. by injection Hy as <-.
Qed.

Lemma sameCentres_sym a b : sameCentres a b -> sameCentres b a.
Proof.
  intros [Hlen Hc]. split; [done |]. intros j x y Hx Hy. symmetry. by apply (Hc j).
Qed.

Lemma assignment_isNearest clusters point :
  clusters <> [] -> isNearest clusters point (assignment clusters point).
Proof.
  intros Hne. unfold assignment.
  by destruct (nearestCluster_isNearest point clusters Hne) as (i & -> & Hi).
Qed.

Lemma assignment_sameCentres a b point :
  sameCentres a b -> a <> [] -> assignment a point = assignment b point.
Proof.
  intros Hsame Hne.
  assert (b <> []) as Hne'.
  { destruct Hsame as [Hlen _]. destruct a; [done |]. by destruct b. }
  apply (isNearest_unique b point).
  - apply (isNearest_sameCentres a b); [done |]. by apply assignment_isNearest.
  - by apply assignment_isNearest.
Qed.

Lemma assignPoint_alter clusters point :
  clusters <> [] ->
  assignPoint clusters point
  = Some (alter (fun c => set_points (points c ++ [point]) c)
            (assignment clusters point) clusters).
Proof.
  intros Hne. unfold assignPoint, assignment.
  by destruct (nearestCluster_isNearest point clusters Hne) as (i & -> & _).
Qed.

(** After the assignment pass every cluster holds, behind the points it had,
    the points of the batch assigned to it, in batch order. *)
Lemma assignPoints_filter pts clusters :
  clusters <> [] ->
  exists assigned,
    assignPoints pts clusters = Some assigned /\
    length assigned = length clusters /\
    forall i old,
      clusters !! i = Some old ->
      assigned !! i
      = Some (set_points
                (points old
                 ++ List.filter (fun point => Nat.eqb (assignment clusters point) i) pts)
                old).
Proof.
  unfold assignPoints. revert clusters.
  induction pts as [| point pts IH]; intros clusters Hne.
  - exists clusters. split; [reflexivity |]. split; [reflexivity |].
    intros i old Hi. cbn [List.filter]. rewrite app_nil_r, Hi.
    by destruct old.
  - cbn [fold_left mbind option_bind]. rewrite (assignPoint_alter _ _ Hne).
    set (grow := fun c => set_points (points c ++ [point]) c).
    set (target := assignment clusters point).
    pose proof (sameCentres_alter clusters target grow (fun c => eq_refl)) as Hsame.
    assert (alter grow target clusters <> []) as Hne'.
    { destruct Hsame as [Hlen _]. destruct clusters; [done |].
      by destruct (alter grow target (c :: clusters)). }
    destruct (IH _ Hne') as (assigned & Hrun & Hlen & Hat).
    exists assigned. split; [exact Hrun |].
    split; [by rewrite Hlen, length_alter |].
    intros i old Hi.
    assert (List.filter (fun p => Nat.eqb (assignment (alter grow target clusters) p) i) pts
            = List.filter (fun p => Nat.eqb (assignment clusters p) i) pts) as Hext.
    { apply List.filter_ext. intros p.
      by rewrite <- (assignment_sameCentres clusters _ p Hsame Hne). }
    cbn [List.filter]. fold target.
    destruct (decide (target = i)) as [<- | Hti].
    + rewrite (Hat target (grow old)) by (by rewrite list_lookup_alter_eq, Hi).
      rewrite Hext, Nat.eqb_refl. unfold grow. cbn [points set_points center radius].
      by rewrite <- app_assoc.
    + rewrite (Hat i old) by (by rewrite list_lookup_alter_ne).
      rewrite Hext. apply Nat.eqb_neq in Hti. by rewrite Hti.
Qed.

Lemma fold_sum {A} (f : A -> Q) (l : list A) (acc : Q) :
  (fold_left (fun sum x => sum + f x) l acc == acc + total (List.map f l))%Q.
Proof.
  revert acc. induction l as [| x l IH]; intros acc; cbn [fold_left List.map].
  - unfold total. cbn [fold_right]. ring.
  - rewrite IH. unfold total. cbn [fold_right]. ring.
Qed.

Lemma fold_max_finite xs m :
  exists r,
    fold_left (fun m x => JS.max m (Fin x)) xs (Fin m) = Fin r /\
    (m <= r)%Q /\
    (forall x, In x xs -> (x <= r)%Q) /\
    (r = m \/ In r xs).
Proof.
  revert m. induction xs as [| x xs IH]; intros m; cbn [fold_left].
  - exists m. repeat split; [lra | intros x [] | by left].
  - change (JS.max (Fin m) (Fin x)) with (if Qltb m x then Fin x else Fin m).
    destruct (Qltb m x) eqn:E; [apply Qltb_true in E | apply Qltb_false in E].
    + destruct (IH x) as (r & -> & Hle & Hall & Hin). exists r.
      split; [reflexivity |]. split; [lra |]. split.
      * intros y [<- | Hy]; [exact Hle | by apply Hall].
      * right. destruct Hin as [-> | Hin]; [by left | by right].
    + destruct (IH m) as (r & -> & Hle & Hall & Hin). exists r.
      split; [reflexivity |]. split; [exact Hle |]. split.
      * intros y [<- | Hy]; [lra | by apply Hall].
      * destruct Hin as [-> | Hin]; [by left | right; by right].
Qed.

Lemma Math_max_nonempty x xs :
  exists r,
    Math_max (x :: xs) = Fin r /\
    (forall y, In y (x :: xs) -> (y <= r)%Q) /\
    In r (x :: xs).
Proof.
  unfold Math_max. cbn [fold_left].
  change (JS.max NegInf (Fin x)) with (Fin x).
  destruct (fold_max_finite xs x) as (r & -> & Hle & Hall & Hin).
  exists r. split; [reflexivity |]. split.
  - intros y [<- | Hy]; [exact Hle | by apply Hall].
  - destruct Hin as [-> | Hin]; [by left | by right].
Qed.

(** [updateCenter] on a cluster that holds points. *)
Lemma updateCenter_nonempty cluster :
  points cluster <> [] ->
  points (updateCenter cluster) = points cluster /\
  (lat (center (updateCenter cluster)) == mean (List.map loc_lat (points cluster)))%Q /\
  (lon (center (updateCenter cluster)) == mean (List.map loc_lon (points cluster)))%Q /\
  isRadius (updateCenter cluster).
Proof.
  intros Hne. unfold updateCenter.
  destruct (points cluster) as [| point rest] eqn:Hp; [done |].
  set (ps := point :: rest) in *.
  cbn [points center lat lon].
  split; [reflexivity |].
  split; [unfold mean; rewrite fold_sum, length_map; by rewrite Qplus_0_l |].
  split; [unfold mean; rewrite fold_sum, length_map; by rewrite Qplus_0_l |].
  set (moved := {| center := _; points := ps; radius := radius cluster |}).
  destruct (Math_max_nonempty (distanceTo point moved)
              (List.map (fun p => distanceTo p moved) rest)) as (r & Hmax & Hall & Hin).
  change (distanceTo point moved :: List.map (fun p => distanceTo p moved) rest)
    with (List.map (fun p => distanceTo p moved) ps) in Hmax, Hall, Hin.
  rewrite Hmax. exists r. cbn [radius points]. split; [reflexivity |]. split.
  - intros p Hin'. apply Hall. apply in_map_iff. by exists p.
  - apply in_map_iff in Hin as (p & Hd & Hin). by exists p.
Qed.

Lemma updateCenter_empty cluster :
  points cluster = [] -> updateCenter cluster = cluster.
Proof. intros Hp. unfold updateCenter. by rewrite Hp. Qed.

(** One pass of the loop body is one iteration of the specification. *)
Lemma iteration_iterates pts clusters :
  clusters <> [] ->
  exists after, iteration pts clusters = Some after /\ iterates pts clusters after.
Proof.
  intros Hne. unfold iteration.
  set (cleared := List.map (set_points []) clusters).
  pose proof (sameCentres_cleared clusters) as Hsame. fold cleared in Hsame.
  assert (cleared <> []) as Hne'.
  { destruct Hsame as [Hlen _]. destruct clusters; [done |]. by destruct cleared. }
  destruct (assignPoints_filter pts cleared Hne') as (assigned & -> & Hlen & Hat).
  cbn [mbind option_bind]. eexists. split; [reflexivity |].
  split.
  { rewrite length_map, Hlen. by destruct Hsame as [<- _]. }
  exists (assignment cleared). split.
  - intros point _. apply (isNearest_sameCentres cleared clusters).
    + by apply sameCentres_sym.
    + by apply assignment_isNearest.
  - intros i old new Hold Hnew.
    assert (cleared !! i = Some (set_points [] old)) as Hcleared.
    { subst cleared. change (List.map (set_points []) clusters)
        with (set_points [] <$> clusters). by rewrite list_lookup_fmap, Hold. }
    change (List.map updateCenter assigned) with (updateCenter <$> assigned) in Hnew.
    rewrite list_lookup_fmap, (Hat _ _ Hcleared) in Hnew.
    cbn [points set_points app fmap option_fmap option_map] in Hnew.
    injection Hnew as <-.
    set (mine := List.filter (fun point => Nat.eqb (assignment cleared point) i) pts).
    set (c := set_points mine (set_points [] old)).
    destruct mine as [| p ps] eqn:Hmine.
    + rewrite (updateCenter_empty c eq_refl). split; [reflexivity |].
      cbn [points c set_points]. by split.
    + destruct (updateCenter_nonempty c) as (Hp & Hlat & Hlon & Hrad); [done |].
      rewrite Hp. cbn [points c set_points]. split; [reflexivity |].
      change (points c) with (p :: ps) in Hlat, Hlon. by repeat split.
Qed.

Lemma iterates_length pts before after :
  iterates pts before after -> length after = length before.
Proof. by intros [Hlen _]. Qed.

End Assignment.

Section Runs.

Context {M : ECMAMath}.
Variable Math_random : nat -> Q.

Hypothesis Math_random_range : forall n, (0 <= Math_random n)%Q /\ (Math_random n < 1)%Q.

Lemma arrayGet_sampled {A} (l : list A) (r : Q) :
  l <> [] -> (0 <= r)%Q -> (r < 1)%Q ->
  exists x, arrayGet l (Qfloor (r * inject_Z (Z.of_nat (length l)))) = Some x.
Proof.
  intros Hne H0 H1. unfold arrayGet.
  set (n := inject_Z (Z.of_nat (length l))).
  assert (0 < n)%Q as Hn.
  { subst n. change 0%Q with (inject_Z 0). rewrite <- Zlt_Qlt.
    destruct l; [done |]. simpl. lia. }
  assert (0 <= Qfloor (r * n))%Z as Hlow.
  { change 0%Z with (Qfloor 0). apply Qfloor_resp_le. by apply Qmult_le_0_compat; lra. }
  assert (Qfloor (r * n) < Z.of_nat (length l))%Z as Hhigh.
  { rewrite Zlt_Qlt. fold n. pose proof (Qfloor_le (r * n)).
    assert (r * n < 1 * n)%Q by (apply Qmult_lt_compat_r; lra). lra. }
  destruct (Z.ltb_spec (Qfloor (r * n)) 0) as [Hneg | _]; [lia |].
  apply lookup_lt_is_Some. lia.
Qed.

Lemma seedClusters_seeded pts k clusters calls :
  pts <> [] ->
  exists seeds,
    seedClusters Math_random pts k clusters calls
    = (Some (clusters ++ seeds)%list, (calls + k)%nat) /\
    length seeds = k /\
    forall i seed,
      seeds !! i = Some seed -> seedFrom pts (Math_random (calls + i)) = Some seed.
Proof.
  intros Hne. revert clusters calls.
  induction k as [| k IH]; intros clusters calls.
  - exists []. rewrite app_nil_r, Nat.add_0_r. repeat split.
    intros i seed Hi. by rewrite lookup_nil in Hi.
  - cbn [seedClusters]. unfold bind, random.
    destruct (Math_random_range calls) as [H0 H1].
    destruct (arrayGet_sampled pts (Math_random calls) Hne H0 H1) as [sampled Hs].
    rewrite Hs.
    destruct (IH (clusters
                  ++ [ {| center := {| lat := loc_lat sampled; lon := loc_lon sampled |};
                          points := []; radius := Fin 0 |} ])%list (S calls))
      as (seeds & -> & Hlen & Hseed).
    eexists (_ :: seeds). split; [| split].
    + rewrite <- app_assoc. cbn [app]. f_equal. lia.
    + cbn [length]. by rewrite Hlen.
    + intros [| i] seed Hi.
      * cbn in Hi. injection Hi as <-. rewrite Nat.add_0_r. unfold seedFrom.
        by rewrite Hs.
      * cbn in Hi. replace (calls + S i)%nat with (S calls + i)%nat by lia.
        by apply Hseed.
Qed.

Lemma afterIterations_succeeds pts clusters n :
  clusters <> [] ->
  exists state,
    afterIterations pts clusters n = Some state /\
    length state = length clusters /\
    exists next,
      afterIterations pts clusters (S n) = Some next /\ iterates pts state next.
Proof.
  intros Hne.
  assert (forall m, exists state,
             afterIterations pts clusters m = Some state /\
             length state = length clusters) as Hrun.
  { induction m as [| m (state & Hstate & Hlen)].
    - by exists clusters.
    - assert (state <> []) as Hne'.
      { destruct clusters; [done |]. by destruct state. }
      destruct (iteration_iterates pts state Hne') as (after & Hafter & Hiter).
      exists after. unfold afterIterations in *. rewrite Nat.iter_succ, Hstate.
      split; [exact Hafter |]. by rewrite (iterates_length _ _ _ Hiter). }
  destruct (Hrun n) as (state & Hstate & Hlen).
  exists state. split; [exact Hstate |]. split; [exact Hlen |].
  assert (state <> []) as Hne'.
  { destruct clusters; [done |]. by destruct state. }
  destruct (iteration_iterates pts state Hne') as (after & Hafter & Hiter).
  exists after. split; [| exact Hiter].
  unfold afterIterations in *. by rewrite Nat.iter_succ, Hstate.
Qed.

(** What [filter] with the callback of [performClustering] keeps. *)
Lemma filter_hasPoints_withoutEmpty (clusters : list Cluster) :
  withoutEmpty clusters (List.filter hasPoints clusters).
Proof.
  induction clusters as [| cluster clusters IH]; [constructor |].
  cbn [List.filter]. unfold hasPoints at 1.
  destruct (points cluster) eqn:Hpoints.
  - by apply withoutEmpty_drop.
  - apply withoutEmpty_keep; [| exact IH]. by rewrite Hpoints.
Qed.

Lemma withoutEmpty_In (clusters kept : list Cluster) :
  withoutEmpty clusters kept ->
  forall cluster, In cluster kept <-> In cluster clusters /\ points cluster <> [].
Proof.
  induction 1 as [| c clusters kept Hempty _ IH | c clusters kept Hfull _ IH];
    intros cluster.
  - split; [intros [] | intros [[] _]].
  - rewrite IH. cbn [In]. split.
    + intros [Hin Hne]. split; [by right | exact Hne].
    + intros [[<- | Hin] Hne]; [by rewrite Hempty in Hne | by split].
  - cbn [In]. rewrite IH. split.
    + intros [<- | [Hin Hne]]; [by split; [left |] | by split; [right |]].
    + intros [[<- | Hin] Hne]; [by left | right; by split].
Qed.

(** C4.  For a non-empty batch, k at least 1 and any draws in [0, 1),
    clustering seeds k clusters on sampled points, performs exactly ten
    iterations, each of which assigns every point to its nearest centroid
    (the first in iteration order among ties) and moves every cluster that
    received points to their mean; it returns the clusters of the tenth
    state without those that hold no point, in order: a cluster of that
    state is returned exactly when it holds a point; and each returned
    cluster reports as point count the number of its assigned points and as
    radius the greatest distance from its centroid to one of them. *)
Theorem C4_clustering_ten_iterations (pts : list Location) (k : nat) (calls : nat) :
  pts <> [] -> (1 <= k)%nat ->
  exists (trace : nat -> list Cluster) (result : list Cluster),
    (length (trace 0%nat) = k /\
     forall i seed,
       trace 0%nat !! i = Some seed ->
       seedFrom pts (Math_random (calls + i)) = Some seed) /\
    (forall n, (n < 10)%nat -> iterates pts (trace n) (trace (S n))) /\
    performClustering Math_random pts k calls = (Some result, (calls + k)%nat) /\
    withoutEmpty (trace 10%nat) result /\
    (forall cluster,
        In cluster result <-> In cluster (trace 10%nat) /\ points cluster <> []) /\
    forall index cluster,
      In cluster result ->
      incidentCount (describeCluster index cluster) = length (points cluster) /\
      isRadius cluster.
Proof.
  intros Hne Hk.
  destruct (seedClusters_seeded pts k [] calls Hne) as (seeds & Hseeded & Hlen & Hseed).
  cbn [app] in Hseeded.
  assert (seeds <> []) as Hne' by (destruct seeds; [simpl in Hlen; lia | done]).
  exists (fun n => default [] (afterIterations pts seeds n)).
  exists (List.filter hasPoints (default [] (afterIterations pts seeds 10))).
  assert (forall n, iterates pts (default [] (afterIterations pts seeds n))
                      (default [] (afterIterations pts seeds (S n)))) as Hsteps.
  { intros n.
    destruct (afterIterations_succeeds pts seeds n Hne')
      as (state & -> & _ & next & -> & Hiter). exact Hiter. }
  pose proof (filter_hasPoints_withoutEmpty (default [] (afterIterations pts seeds 10)))
    as Hkept.
  split; [by split |]. split; [intros n _; apply Hsteps |]. split; [| split; [| split]].
  - unfold performClustering. destruct pts as [| p ps]; [done |].
    unfold bind, ret. rewrite Hseeded. cbn [mbind option_bind].
    change (fold_left (fun acc _ => acc ≫= iteration (p :: ps)) (seq 0 10) (Some seeds))
      with (afterIterations (p :: ps) seeds 10).
    by destruct (afterIterations_succeeds (p :: ps) seeds 10 Hne') as (state & -> & _).
  - exact Hkept.
  - exact (withoutEmpty_In _ _ Hkept).
  - intros index cluster Hin.
    apply (withoutEmpty_In _ _ Hkept) in Hin as [Hin Hpoints].
    split; [reflexivity |].
    destruct (Hsteps 9%nat) as (Hlen' & assign & _ & Hat).
    apply list_elem_of_In, list_elem_of_lookup in Hin as [i Hi].
    destruct (default [] (afterIterations pts seeds 9) !! i) as [old |] eqn:Hold.
    + destruct (Hat i old cluster Hold Hi) as [_ Hshape].
      destruct (points cluster); [done |]. by destruct Hshape as (_ & _ & Hrad).
    + apply lookup_ge_None in Hold. apply lookup_lt_Some in Hi. lia.
Qed.

End Runs.

Lemma C4_clustering_ten_iterations_witness :
  exists (trace : nat -> list Cluster) (result : list Cluster),
    performClustering (M := Sample.math) Sample.zeros GeoInputs.batch 2 0
    = (Some result, 2%nat) /\
    withoutEmpty (trace 10%nat) result.
Proof.
  destruct (C4_clustering_ten_iterations (M := Sample.math) Sample.zeros
              (fun n => conj (Qle_refl 0) eq_refl) GeoInputs.batch 2 0)
    as (trace & result & _ & _ & Hrun & Hkept & _).
  - discriminate.
  - lia.
  - exists trace, result. split; [exact Hrun | exact Hkept].
Defined.

End GeoProofs.

(** ** Further properties of the telemetry stream manager *)

Module IoTExtras.

Import JS IoT JSFacts IoTProofs.

Section ThresholdRules.

Context {M : ECMAMath}.

(** X1.  Every alert that threshold evaluation emits comes from a rule of
    the table for the device type of the reading's sensor, carries the
    numeric value the reading holds in the rule's field, and the comparison
    the rule names holds of that value. *)
Theorem alerts_are_violations configs table reading config alert :
  configs !! sensorId reading = Some config ->
  In alert (checkAlertThresholds configs table reading) ->
  In (alert_threshold alert) table /\
  sensorType (alert_threshold alert) = typeName (type config) /\
  alert_parameter alert = parameter (alert_threshold alert) /\
  data reading !! parameter (alert_threshold alert) = Some (VNumber (alert_value alert)) /\
  violated (alert_threshold alert) (alert_value alert).
Proof.
  intros Hc Hin. rewrite (checkAlertThresholds_registered _ _ _ _ Hc) in Hin.
  apply in_flat_map in Hin as (rule & Hrule & Hin).
  apply filter_In in Hrule as [Hrule Htype]. apply String.eqb_eq in Htype.
  unfold evaluateThreshold in Hin.
  destruct (data reading !! parameter rule) as [[value | |] |] eqn:Hv;
    try (by destruct Hin).
  pose proof (evaluateCondition_violated rule value) as Hviolated.
  destruct (evaluateCondition rule value) as [[|] message]; [| by destruct Hin].
  destruct Hin as [<- | []]. cbn [alert_threshold alert_parameter alert_value].
  repeat split; try done. by apply Hviolated.
Qed.

(** X2.  A rule of the table for the reading's device type, with bounds
    other than 0, whose field is numeric in the reading and whose comparison
    holds, produces an alert that carries the rule and the value. *)
Theorem violation_raises_alert configs table reading config rule value :
  configs !! sensorId reading = Some config ->
  In rule table ->
  sensorType rule = typeName (type config) ->
  data reading !! parameter rule = Some (VNumber value) ->
  boundsNonZero rule ->
  violated rule value ->
  exists alert,
    In alert (checkAlertThresholds configs table reading) /\
    alert_threshold alert = rule /\ alert_value alert = value.
Proof.
  intros Hc Hrule Htype Hv Hnz Hviolated.
  rewrite (checkAlertThresholds_registered _ _ _ _ Hc).
  exists (alertOf rule value). split; [| by split].
  apply in_flat_map. exists rule. split.
  - apply filter_In. split; [done |]. by apply String.eqb_eq.
  - rewrite (evaluateThreshold_single _ _ _ Hv).
    rewrite (violated_evaluateCondition _ _ Hnz Hviolated). by left.
Qed.

(** X3.  Rules do not interfere: the alerts of a table made of two parts
    are the alerts of the first part followed by the alerts of the second,
    whatever the reading. *)
Theorem alerts_of_joined_tables configs table1 table2 reading :
  checkAlertThresholds configs (table1 ++ table2) reading
  = (checkAlertThresholds configs table1 reading
     ++ checkAlertThresholds configs table2 reading)%list.
Proof.
  unfold checkAlertThresholds.
  destruct (configs !! sensorId reading) as [config |]; [| reflexivity].
  by rewrite List.filter_app, !fold_evaluateThreshold, flat_map_app.
Qed.

End ThresholdRules.

Lemma alerts_are_violations_witness :
  violated ExtraInputs.highWave 7.
Proof.
  destruct (alerts_are_violations (M := Sample.math) (sensorConfigs Inputs.started)
              defaultThresholds Inputs.stormReading ExtraInputs.waveBuoy
              (alertOf (M := Sample.math) ExtraInputs.highWave 7))
    as (_ & _ & _ & _ & Hviolated).
  - vm_compute. reflexivity.
  - vm_compute. left. reflexivity.
  - exact Hviolated.
Defined.

Lemma violation_raises_alert_witness :
  exists alert,
    In alert (checkAlertThresholds (M := Sample.math) (sensorConfigs Inputs.started)
                defaultThresholds Inputs.stormReading) /\
    severity (alert_threshold alert) = critical.
Proof.
  destruct (violation_raises_alert (M := Sample.math) (sensorConfigs Inputs.started)
              defaultThresholds Inputs.stormReading ExtraInputs.waveBuoy
              ExtraInputs.criticalWave 7)
    as (alert & Hin & Hrule & _).
  - vm_compute. reflexivity.
  - right. left. reflexivity.
  - reflexivity.
  - vm_compute. reflexivity.
  - split; intros b Hb; [discriminate Hb |].
    injection Hb as <-. discriminate.
  - exists 6.0%Q. split; reflexivity.
  - exists alert. split; [exact Hin |]. by rewrite Hrule.
Defined.

Section Lifecycle.

Lemma isInitialized_initialize now st : isInitialized (initialize now st) = true.
Proof.
  unfold initialize. by destruct (isInitialized st) eqn:E.
Qed.

(** A configuration update with a sampling interval other than 0 leaves an
    active device with a running timer, whatever went before. *)
Lemma updateSensorConfig_starts st sensorId newConfig existing interval :
  sensorConfigs st !! sensorId = Some existing ->
  isActive existing = true ->
  new_updateInterval newConfig = Some interval ->
  ~ (interval == 0)%Q ->
  running (updateSensorConfig sensorId newConfig st) sensorId.
Proof.
  intros Hc Hact Hi Hnz. unfold updateSensorConfig. rewrite Hc, Hi.
  assert (truthy (Some interval) = true) as ->.
  { unfold truthy. apply Qis0_false in Hnz. by rewrite Hnz. }
  rewrite Hact. cbn [streamingIntervals set_sensorConfigs].
  exists (nextTimer st).
  destruct (streamingIntervals st !! sensorId) as [old |]; cbn;
    eexists; (split; [apply lookup_insert_eq | reflexivity]).
Qed.

(** X4.  Initialization happens once: a second [initialize] changes
    nothing, and after [cleanup] a further [initialize] is ignored too and
    starts no timer, so that a service that was shut down is not started
    again that way; a configuration update that carries a sampling interval
    for an active device, however, does start a timer after shutdown. *)
Theorem initialize_only_once (now later : Z) (st : State) :
  initialize later (initialize now st) = initialize now st /\
  initialize later (cleanup (initialize now st)) = cleanup (initialize now st) /\
  (forall sensorId,
      ~ running (initialize later (cleanup (initialize now newService))) sensorId) /\
  (forall sensorId existing newConfig interval,
      sensorConfigs (initialize now newService) !! sensorId = Some existing ->
      isActive existing = true ->
      new_updateInterval newConfig = Some interval ->
      ~ (interval == 0)%Q ->
      running
        (updateSensorConfig sensorId newConfig (cleanup (initialize now newService)))
        sensorId).
Proof.
  assert (forall s, isInitialized s = true -> initialize later s = s) as Hdone.
  { intros s Hs. unfold initialize. by rewrite Hs. }
  assert (forall s, isInitialized (cleanup (initialize now s)) = true) as Hclean.
  { intros s. destruct (cleanup_keeps_fields (initialize now s)) as (_ & -> & _).
    apply isInitialized_initialize. }
  split; [apply Hdone, isInitialized_initialize |].
  split; [apply Hdone, Hclean |].
  split.
  - intros sensorId. rewrite (Hdone _ (Hclean newService)).
    apply cleanup_stops_every_timer. apply (initialize_streamInvariant now).
  - intros sensorId existing newConfig interval Hc Hact Hi Hnz.
    apply (updateSensorConfig_starts _ _ _ existing interval); [| done | done | done].
    by destruct (cleanup_keeps_fields (initialize now newService)) as (-> & _).
Qed.


(** X6.  A new sampling interval (other than 0) on an active device
    replaces its timer: afterwards the device has exactly one running
    timer, the one in the handle table.  For a whole number of seconds
    between 1 and 2147483 the timer ticks every that many thousand
    milliseconds; for an interval of less than a millisecond, a negative
    one included, it ticks every millisecond. *)
Theorem updateSensorConfig_replaces_timer st sensorId newConfig existing interval :
  tracked st ->
  sensorConfigs st !! sensorId = Some existing ->
  isActive existing = true ->
  new_updateInterval newConfig = Some interval ->
  ~ (interval == 0)%Q ->
  let st' := updateSensorConfig sensorId newConfig st in
  exists handle timer,
    streamingIntervals st' !! sensorId = Some handle /\
    timers st' !! handle = Some timer /\
    timerKey timer = sensorId /\
    (forall other running,
        timers st' !! other = Some running -> timerKey running = sensorId ->
        other = handle) /\
    (forall seconds : Z,
        (interval == inject_Z seconds)%Q -> (1 <= seconds <= 2147483)%Z ->
        (period timer == inject_Z (seconds * 1000))%Q) /\
    ((interval * 1000 < 1)%Q -> (period timer == 1)%Q).
Proof.
  intros [Hlive Hbound] Hc Hact Hi Hnz st'. subst st'.
  unfold updateSensorConfig. rewrite Hc, Hi.
  assert (truthy (Some interval) = true) as ->.
  { unfold truthy. apply Qis0_false in Hnz. by rewrite Hnz. }
  rewrite Hact. cbn [streamingIntervals set_sensorConfigs].
  exists (nextTimer st), {| timerKey := sensorId; timerDelay := (interval * 1000)%Q |}.
  assert ((forall seconds : Z,
              (interval == inject_Z seconds)%Q -> (1 <= seconds <= 2147483)%Z ->
              (period {| timerKey := sensorId; timerDelay := (interval * 1000)%Q |}
               == inject_Z (seconds * 1000))%Q) /\
          ((interval * 1000 < 1)%Q ->
           (period {| timerKey := sensorId; timerDelay := (interval * 1000)%Q |} == 1)%Q))
    as Hperiod.
  { unfold period. cbn [timerDelay]. split.
    - intros seconds Hwhole [Hlow Hhigh].
      assert (interval * 1000 == inject_Z (seconds * 1000))%Q as Hdelay.
      { rewrite inject_Z_mult, Hwhole. reflexivity. }
      rewrite Zle_Qle in Hlow, Hhigh.
      change (inject_Z 1) with 1%Q in Hlow.
      change (inject_Z 2147483) with 2147483%Q in Hhigh.
      assert (Qleb 1 (interval * 1000) = true) as -> by (apply Qleb_true; lra).
      assert (Qleb (interval * 1000) 2147483647 = true) as -> by (apply Qleb_true; lra).
      cbn [andb]. by rewrite (Qfloor_comp _ _ Hdelay), Qfloor_Z.
    - intros Hsmall.
      assert (Qleb 1 (interval * 1000) = false) as -> by (by apply Qleb_false).
      reflexivity. }
  destruct (streamingIntervals st !! sensorId) as [old |] eqn:Hold; cbn;
    rewrite !lookup_insert_eq; (split; [done |]); (split; [done |]);
    (split; [done |]); (split; [| exact Hperiod]);
    intros other running Ht Hk;
    (destruct (decide (other = nextTimer st)) as [-> | Hne]; [done |]);
    exfalso; rewrite lookup_insert_ne in Ht by done.
  - apply lookup_delete_Some in Ht as [Hneq Ht].
    apply Hlive in Ht. rewrite Hk in Ht. congruence.
  - apply Hlive in Ht. rewrite Hk in Ht. congruence.
Qed.

End Lifecycle.


Lemma updateSensorConfig_replaces_timer_witness :
  exists handle timer,
    streamingIntervals
      (updateSensorConfig "wave_001" Inputs.everyTenSeconds Inputs.started) !! "wave_001"
    = Some handle /\
    timers (updateSensorConfig "wave_001" Inputs.everyTenSeconds Inputs.started) !! handle
    = Some timer /\
    (period timer == 10000)%Q.
Proof.
  destruct (updateSensorConfig_replaces_timer Inputs.started "wave_001"
              Inputs.everyTenSeconds ExtraInputs.waveBuoy 10)
    as (handle & timer & Hs & Ht & _ & _ & Hwhole & _).
  - apply handlesExact_tracked, (initialize_streamInvariant 0).
  - vm_compute. reflexivity.
  - reflexivity.
  - reflexivity.
  - discriminate.
  - exists handle, timer. split; [exact Hs |]. split; [exact Ht |].
    apply (Hwhole 10%Z); [reflexivity | lia].
Defined.

Lemma initialize_only_once_witness :
  running
    (updateSensorConfig "wave_001" Inputs.everyTenSeconds (cleanup Inputs.started))
    "wave_001".
Proof.
  destruct (initialize_only_once 0 0 newService) as (_ & _ & _ & Hrestart).
  apply (Hrestart "wave_001" ExtraInputs.waveBuoy Inputs.everyTenSeconds 10%Q).
  - vm_compute. reflexivity.
  - reflexivity.
  - reflexivity.
  - discriminate.
Defined.

Section Readings.

Context {M : ECMAMath}.
Variable Math_random : nat -> Q.
Variable now : Z.

(** X8.  Whatever the service age and the draws, the battery estimate of a
    generated reading is at least 10 and its signal strength at least 20;
    with draws in [0, 1) the signal strength lies above 70 and is at most
    100, so the floor of 20 is never what is reported. *)
Theorem reading_battery_and_signal config calls :
  let reading := fst (generateSensorReading Math_random now config calls) in
  exists battery signal,
    batteryLevel reading = Some battery /\ signalStrength reading = Some signal /\
    (10 <= battery)%Q /\ (20 <= signal)%Q /\
    (inUnitInterval Math_random -> (70 < signal)%Q /\ (signal <= 100)%Q).
Proof.
  intros reading. subst reading.
  unfold generateSensorReading, bind, ret, random.
  destruct (sensorData Math_random now config calls) as [[d q] n].
  cbn [fst batteryLevel signalStrength].
  eexists _, _. split; [reflexivity |]. split; [reflexivity |].
  split; [apply Q.le_max_l |]. split; [apply Q.le_max_l |].
  intros Hrange. destruct (Hrange (S n)) as [H0 H1].
  rewrite Q.max_r by lra. lra.
Qed.

End Readings.

Lemma reading_battery_and_signal_witness :
  exists signal,
    signalStrength (fst (generateSensorReading (M := Sample.math) Inputs.halves
                           Inputs.fortyDays Inputs.staleSeismic 0)) = Some signal /\
    (70 < signal)%Q.
Proof.
  destruct (reading_battery_and_signal (M := Sample.math) Inputs.halves Inputs.fortyDays
              Inputs.staleSeismic 0) as (battery & signal & _ & Hs & _ & _ & Hrange).
  exists signal. split; [exact Hs |].
  apply Hrange. intros n. split; [discriminate | reflexivity].
Defined.

Section Network.

Lemma filter_length_le {A} (keep : A -> bool) (l : list A) :
  (length (List.filter keep l) <= length l)%nat.
Proof.
  induction l as [| x l IH]; cbn [List.filter length]; [lia |].
  destruct (keep x); cbn [length]; lia.
Qed.

(** X9.  The network summary never counts more sensors online than it
    counts in total; for a registry that holds a sensor its health is a
    percentage between 0 and 100, and for an empty registry it is NaN. *)
Theorem getNetworkTopology_health now st :
  let topology := getNetworkTopology now st in
  (onlineSensors topology <= totalSensors topology)%nat /\
  totalSensors topology = size (sensorConfigs st) /\
  (sensorConfigs st <> ∅ ->
   exists health,
     networkHealth topology = Fin health /\ (0 <= health)%Q /\ (health <= 100)%Q) /\
  (sensorConfigs st = ∅ -> networkHealth topology = NaN).
Proof.
  intros topology. subst topology. unfold getNetworkTopology.
  cbn [onlineSensors totalSensors networkHealth].
  set (online := length (List.filter isActive
                           (List.map snd (map_to_list (sensorConfigs st))))).
  assert (online <= size (sensorConfigs st))%nat as Hle.
  { subst online. rewrite <- length_map_to_list.
    rewrite <- (length_map snd (map_to_list (sensorConfigs st))).
    apply filter_length_le. }
  split; [exact Hle |]. split; [reflexivity |]. split.
  - intros Hne. apply map_size_non_empty_iff in Hne.
    set (n := size (sensorConfigs st)) in *.
    assert (0 < inject_Z (Z.of_nat n))%Q as Hn.
    { change 0%Q with (inject_Z 0). rewrite <- Zlt_Qlt. lia. }
    assert (0 <= inject_Z (Z.of_nat online))%Q as Ho.
    { change 0%Q with (inject_Z 0). rewrite <- Zle_Qle. lia. }
    assert (inject_Z (Z.of_nat online) <= inject_Z (Z.of_nat n))%Q as Hon.
    { rewrite <- Zle_Qle. lia. }
    unfold div.
    assert (Qis0 (inject_Z (Z.of_nat n)) = false) as -> by (apply Qis0_false; lra).
    cbn [mul]. eexists. split; [reflexivity |].
    set (ratio := (inject_Z (Z.of_nat online) / inject_Z (Z.of_nat n))%Q).
    assert (0 <= ratio)%Q as H0 by (subst ratio; apply Qle_shift_div_l; lra).
    assert (ratio <= 1)%Q as H1 by (subst ratio; apply Qle_shift_div_r; lra).
    split; [apply Qmult_le_0_compat; lra |].
    assert (ratio * 100 <= 1 * 100)%Q by (apply Qmult_le_compat_r; lra). lra.
  - intros Hempty. subst online. rewrite Hempty, map_to_list_empty, map_size_empty.
    reflexivity.
Qed.

End Network.

Lemma getNetworkTopology_health_witness :
  exists health,
    networkHealth (getNetworkTopology 0 Inputs.started) = Fin health /\
    (health <= 100)%Q.
Proof.
  destruct (getNetworkTopology_health 0 Inputs.started) as (_ & _ & Hsome & _).
  destruct Hsome as (health & Hh & _ & Hle).
  - intros Hempty.
    assert (sensorConfigs Inputs.started !! "wave_001" = None) as Hnone
      by (by rewrite Hempty).
    vm_compute in Hnone. discriminate.
  - exists health. split; [exact Hh | exact Hle].
Defined.

Section SimulatedAlerts.

Context {M : ECMAMath}.
Variable Math_random : nat -> Q.
Variable now : Z.

Lemma weather_windSpeed config calls :
  type config = weather ->
  data (fst (generateSensorReading Math_random now config calls)) !! "windSpeed"
  = Some (VNumber (Qmax 0 (8 + Math_random (3 + calls)%nat * 15))).
Proof.
  intros Htype. unfold generateSensorReading, sensorData, bind, ret, random.
  rewrite Htype.
  destruct (Qltb (Math_random (S (S (S (S (S calls)))))) 0.3);
    cbn [fst snd data]; unfold object;
    cbn [List.map list_to_map foldr fst snd];
    repeat (rewrite lookup_insert_ne by done); by rewrite lookup_insert_eq.
Qed.

Lemma seismic_magnitude config calls :
  type config = seismic ->
  takesSpikeBranch Math_random now config calls = false ->
  data (fst (generateSensorReading Math_random now config calls)) !! "magnitude"
  = Some (VNumber (Math_random calls * 2.5)).
Proof.
  intros Htype. unfold takesSpikeBranch, generateSensorReading, sensorData, bind, ret, random.
  rewrite Htype.
  destruct (Qltb (Math_random (S (S (S (S (S calls)))))) 0.05);
    cbn [fst snd data]; [discriminate |]. intros _. unfold object.
  cbn [List.map list_to_map foldr fst snd]. by rewrite lookup_insert_eq.
Qed.

Lemma sensorId_generateSensorReading config calls :
  sensorId (fst (generateSensorReading Math_random now config calls)) = id config.
Proof.
  unfold generateSensorReading, bind, ret, random.
  by destruct (sensorData Math_random now config calls) as [[d q] n].
Qed.

(** X10.  Under the configured thresholds the simulator cannot trip the
    wind alerts or, outside the spike branch, the seismic alert: with draws
    in [0, 1), the reading generated for a registered weather station, and
    the reading generated for a registered seismic monitor that does not
    take the spike branch, are published with no alert. *)
Theorem simulated_readings_without_alert st config calls :
  sensorConfigs st !! id config = Some config ->
  alertThresholds st = defaultThresholds ->
  inUnitInterval Math_random ->
  type config = weather \/
  (type config = seismic /\ takesSpikeBranch Math_random now config calls = false) ->
  env_alerts
    (processSensorReading (fst (generateSensorReading Math_random now config calls)) st)
  = [].
Proof.
  intros Hc Htable Hrange Hkind.
  unfold processSensorReading. cbn [env_alerts]. rewrite Htable.
  pose proof (sensorId_generateSensorReading config calls) as Hid.
  set (reading := fst (generateSensorReading Math_random now config calls)) in *.
  unfold checkAlertThresholds. rewrite Hid, Hc.
  destruct Hkind as [Htype | [Htype Hcalm]]; rewrite Htype;
    cbn [defaultThresholds List.filter typeName sensorType String.eqb Ascii.eqb
           Bool.eqb andb fold_left];
    unfold evaluateThreshold; cbn [parameter].
  - subst reading. rewrite (weather_windSpeed config calls Htype).
    destruct (Hrange (3 + calls)%nat) as [H0 H1].
    set (wind := Qmax 0 (8 + Math_random (3 + calls)%nat * 15)).
    assert (wind < 25)%Q as Hwind by (subst wind; rewrite Q.max_r by lra; lra).
    unfold evaluateCondition. cbn [condition maxValue truthy].
    assert (Qltb 25.0 wind = false) as -> by (apply Qltb_false; lra).
    assert (Qltb 40.0 wind = false) as -> by (apply Qltb_false; lra).
    reflexivity.
  - subst reading. rewrite (seismic_magnitude config calls Htype Hcalm).
    destruct (Hrange calls) as [H0 H1].
    unfold evaluateCondition. cbn [condition maxValue truthy].
    assert (Qltb 3.0 (Math_random calls * 2.5) = false) as ->
      by (apply Qltb_false; lra).
    reflexivity.
Qed.

End SimulatedAlerts.

Lemma simulated_readings_without_alert_witness :
  env_alerts
    (processSensorReading (H := Sample.math)
       (fst (generateSensorReading (M := Sample.math) Inputs.halves 0
               ExtraInputs.weatherStation 0))
       Inputs.started)
  = [].
Proof.
  apply (simulated_readings_without_alert (M := Sample.math) Inputs.halves 0
           Inputs.started ExtraInputs.weatherStation 0).
  - vm_compute. reflexivity.
  - vm_compute. reflexivity.
  - intros n. split; [discriminate | reflexivity].
  - left. reflexivity.
Defined.

Section SensorHistory.

Context {M : ECMAMath}.
Variable Math_random : nat -> Q.
Variable now : Z.

Lemma historyLoop_stalled fuel config time endTime interval readings calls :
  (interval == 0)%Q -> (time <= endTime)%Q ->
  fst (historyLoop Math_random now fuel config time endTime interval readings calls)
  = None.
Proof.
  intros Hzero. revert time readings calls.
  induction fuel as [| fuel IH]; intros time readings calls Hle; [reflexivity |].
  cbn [historyLoop].
  assert (Qleb time endTime = true) as -> by (by apply Qleb_true).
  unfold bind.
  destruct (generateSensorReading Math_random now config calls) as [reading calls'].
  apply IH. rewrite Hzero. lra.
Qed.

(** X11.  The mock history of a sensor that is not registered is empty and
    uses no random draw; so is the history over a negative number of hours
    that puts its start a millisecond or more after its end; and over zero
    hours the loop of a registered sensor never ends: however many times its
    condition is tested, it is still running. *)
Theorem getSensorData_edges (fuel : nat) (st : State) (sensorId : string) (hours : Q)
    (calls : nat) :
  (sensorConfigs st !! sensorId = None ->
   getSensorData Math_random now (S fuel) st sensorId hours calls = (Some [], calls)) /\
  ((hours * 60 * 60 * 1000 <= -1)%Q ->
   getSensorData Math_random now (S fuel) st sensorId hours calls = (Some [], calls)) /\
  (is_Some (sensorConfigs st !! sensorId) -> (hours == 0)%Q ->
   fst (getSensorData Math_random now fuel st sensorId hours calls) = None).
Proof.
  unfold getSensorData. split; [| split].
  - by intros ->.
  - intros Hneg. destruct (sensorConfigs st !! sensorId) as [config |]; [| reflexivity].
    cbn [historyLoop].
    assert (Qleb (inject_Z now - hours * 60 * 60 * 1000) (inject_Z now) = false) as ->
      by (apply Qleb_false; lra).
    reflexivity.
  - intros [config ->] Hzero.
    apply historyLoop_stalled.
    + rewrite Hzero. field.
    + rewrite Hzero. lra.
Qed.

End SensorHistory.

Lemma getSensorData_edges_witness :
  getSensorData (M := Sample.math) Inputs.halves 0 1 Inputs.started "buoy_417" 24 0
  = (Some [], 0%nat) /\
  fst (getSensorData (M := Sample.math) Inputs.halves 0 1000 Inputs.started
         "wave_001" 0 0) = None.
Proof.
  destruct (getSensorData_edges (M := Sample.math) Inputs.halves 0 0 Inputs.started
              "buoy_417" 24 0) as (Hunknown & _).
  destruct (getSensorData_edges (M := Sample.math) Inputs.halves 0 1000 Inputs.started
              "wave_001" 0 0) as (_ & _ & Hzero).
  split.
  - apply Hunknown. vm_compute. reflexivity.
  - apply Hzero; [| reflexivity]. exists ExtraInputs.waveBuoy. vm_compute. reflexivity.
Defined.

End IoTExtras.

(** ** Further properties of the spatial risk analytics *)

Module GeoExtras.

Import JS Geo JSFacts GeoProofs.

Section Partition.

Context {M : ECMAMath}.
Variable Math_random : nat -> Q.

(** What a run on a non-empty batch returns: the clusters that hold points
    after the tenth pass, which is an iteration from the state [previous]. *)
Lemma performClustering_returns pts k calls :
  inUnitInterval Math_random -> pts <> [] -> (1 <= k)%nat ->
  exists previous final,
    performClustering Math_random pts k calls
    = (Some (List.filter hasPoints final), (calls + k)%nat) /\
    length previous = k /\
    iterates pts previous final.
Proof.
  intros Hrange Hne Hk.
  destruct (seedClusters_seeded Math_random Hrange pts k [] calls Hne)
    as (seeds & Hseeded & Hlen & _).
  cbn [app] in Hseeded.
  assert (seeds <> []) as Hne' by (destruct seeds; [simpl in Hlen; lia | done]).
  destruct (afterIterations_succeeds pts seeds 9 Hne')
    as (previous & Hprev & Hlen9 & final & Hfinal & Hiter).
  exists previous, final. split; [| split; [lia | exact Hiter]].
  unfold performClustering. destruct pts as [| p ps]; [done |].
  unfold bind, ret. rewrite Hseeded. cbn [mbind option_bind].
  change (fold_left (fun acc _ => acc ≫= iteration (p :: ps)) (seq 0 10) (Some seeds))
    with (afterIterations (p :: ps) seeds 10).
  by rewrite Hfinal.
Qed.

Lemma pointCount_filter clusters :
  pointCount (List.filter hasPoints clusters) = pointCount clusters.
Proof.
  induction clusters as [| c clusters IH]; [reflexivity |].
  cbn [List.filter]. unfold hasPoints at 1.
  destruct (points c) eqn:Hp; cbn [pointCount fold_right]; fold (pointCount clusters);
    fold (pointCount (List.filter hasPoints clusters)); rewrite IH, ?Hp; reflexivity.
Qed.

Lemma filter_length_range {A} (pick : A -> nat) (l : list A) (lo n : nat) :
  (length (List.filter (fun x => Nat.eqb (pick x) lo) l)
   + length (List.filter (fun x => (S lo <=? pick x)%nat && (pick x <? S lo + n)%nat) l)
   = length (List.filter (fun x => (lo <=? pick x)%nat && (pick x <? lo + S n)%nat) l))%nat.
Proof.
  induction l as [| x l IH]; [reflexivity |]. cbn [List.filter].
  destruct (Nat.eqb_spec (pick x) lo) as [Heq | Hne].
  - assert ((S lo <=? pick x)%nat && (pick x <? S lo + n)%nat = false) as ->.
    { apply andb_false_iff. left. apply Nat.leb_gt. lia. }
    assert ((lo <=? pick x)%nat && (pick x <? lo + S n)%nat = true) as ->.
    { apply andb_true_iff. split; [apply Nat.leb_le | apply Nat.ltb_lt]; lia. }
    cbn [length]. lia.
  - destruct ((S lo <=? pick x)%nat && (pick x <? S lo + n)%nat) eqn:E.
    + apply andb_true_iff in E as [E1 E2].
      apply Nat.leb_le in E1. apply Nat.ltb_lt in E2.
      assert ((lo <=? pick x)%nat && (pick x <? lo + S n)%nat = true) as ->.
      { apply andb_true_iff. split; [apply Nat.leb_le | apply Nat.ltb_lt]; lia. }
      cbn [length]. lia.
    + assert ((lo <=? pick x)%nat && (pick x <? lo + S n)%nat = false) as ->.
      { apply andb_false_iff. apply andb_false_iff in E as [E | E].
        - left. apply Nat.leb_gt. apply Nat.leb_gt in E. lia.
        - right. apply Nat.ltb_ge. apply Nat.ltb_ge in E. lia. }
      exact IH.
Qed.

Lemma pointCount_assigned (pts : list Location) (assign : Location -> nat)
    (clusters : list Cluster) (lo : nat) :
  (forall i c, clusters !! i = Some c ->
               points c = List.filter (fun p => Nat.eqb (assign p) (lo + i)) pts) ->
  pointCount clusters
  = length (List.filter
              (fun p => (lo <=? assign p)%nat && (assign p <? lo + length clusters)%nat)
              pts).
Proof.
  revert lo. induction clusters as [| c clusters IH]; intros lo Hat.
  - cbn [pointCount fold_right length]. rewrite Nat.add_0_r.
    symmetry. apply length_zero_iff_nil. clear Hat.
    induction pts as [| p pts IHp]; [reflexivity |]. cbn [List.filter].
    assert ((lo <=? assign p)%nat && (assign p <? lo)%nat = false) as ->; [| exact IHp].
    destruct (Nat.leb_spec lo (assign p)); [| reflexivity].
    apply Nat.ltb_ge. lia.
  - cbn [pointCount fold_right length]. fold (pointCount clusters).
    rewrite (IH (S lo)).
    + rewrite (Hat 0%nat c eq_refl), Nat.add_0_r.
      apply filter_length_range.
    + intros i c' Hc'. rewrite (Hat (S i) c' Hc').
      apply List.filter_ext. intros p.
      by replace (lo + S i)%nat with (S lo + i)%nat by lia.
Qed.

Lemma filter_all {A} (keep : A -> bool) (l : list A) :
  (forall x, In x l -> keep x = true) -> List.filter keep l = l.
Proof.
  induction l as [| x l IH]; intros Hall; [reflexivity |]. cbn [List.filter].
  rewrite (Hall x) by (by left). f_equal. apply IH. intros y Hy. apply Hall. by right.
Qed.

(** X12.  Clustering loses no point and counts none twice: on an empty
    batch it returns no cluster and draws nothing; on a non-empty batch with
    k at least 1 and draws in [0, 1) it returns between one and k clusters
    whose point counts add up to the size of the batch, using k draws. *)
Theorem clustering_partitions_batch (pts : list Location) (k : nat) (calls : nat) :
  performClustering Math_random [] k calls = (Some [], calls) /\
  (inUnitInterval Math_random -> pts <> [] -> (1 <= k)%nat ->
   exists clusters,
     performClustering Math_random pts k calls = (Some clusters, (calls + k)%nat) /\
     pointCount clusters = length pts /\
     (1 <= length clusters)%nat /\ (length clusters <= k)%nat).
Proof.
  split; [reflexivity |]. intros Hrange Hne Hk.
  destruct (performClustering_returns pts k calls Hrange Hne Hk)
    as (previous & final & Hrun & Hlen & Hlen' & assign & Hnear & Hat).
  exists (List.filter hasPoints final). split; [exact Hrun |].
  assert (pointCount (List.filter hasPoints final) = length pts) as Hcount.
  { rewrite pointCount_filter.
    rewrite (pointCount_assigned pts assign final 0).
    - f_equal. apply filter_all. intros p Hp.
      destruct (Hnear p Hp) as (c & Hc & _). apply lookup_lt_Some in Hc.
      apply andb_true_iff. split; [by apply Nat.leb_le; lia |].
      apply Nat.ltb_lt. lia.
    - intros i c Hc.
      destruct (previous !! i) as [old |] eqn:Hold.
      + by destruct (Hat i old c Hold Hc) as [Hp _].
      + apply lookup_ge_None in Hold. apply lookup_lt_Some in Hc. lia. }
  split; [exact Hcount |]. split.
  - destruct (List.filter hasPoints final); [| cbn [length]; lia].
    cbn in Hcount. destruct pts; [done | discriminate].
  - rewrite <- Hlen, <- Hlen'. clear.
    induction final as [| c final IH]; cbn [List.filter length]; [lia |].
    destruct (hasPoints c); cbn [length]; lia.
Qed.

End Partition.

Lemma clustering_partitions_batch_witness :
  exists clusters,
    performClustering (M := Sample.math) Sample.zeros GeoInputs.batch 5 0
    = (Some clusters, 5%nat) /\
    pointCount clusters = 3%nat.
Proof.
  destruct (clustering_partitions_batch (M := Sample.math) Sample.zeros GeoInputs.batch 5 0)
    as [_ Hrun].
  destruct Hrun as (clusters & Hrun & Hcount & _).
  - intros n. split; [discriminate | reflexivity].
  - discriminate.
  - lia.
  - exists clusters. split; [exact Hrun | exact Hcount].
Defined.

Section Centroids.

Context {M : ECMAMath}.
Variable Math_random : nat -> Q.

Lemma filter_sublist {A} (keep : A -> bool) (l : list A) :
  sublist (List.filter keep l) l.
Proof.
  induction l as [| x l IH]; cbn [List.filter]; [constructor |].
  destruct (keep x); by constructor.
Qed.

(** X13.  The clusters a run returns split the batch: each holds a
    subsequence of the batch, in the order of the batch; every point of the
    batch is in one of them; and no point is in two of them. *)
Theorem clusters_split_batch (pts : list Location) (k : nat) (calls : nat) :
  inUnitInterval Math_random -> pts <> [] -> (1 <= k)%nat ->
  exists clusters,
    fst (performClustering Math_random pts k calls) = Some clusters /\
    (forall cluster, In cluster clusters -> sublist (points cluster) pts) /\
    (forall p, In p pts ->
               exists cluster, In cluster clusters /\ In p (points cluster)) /\
    (forall first second p,
        In first clusters -> In second clusters ->
        In p (points first) -> In p (points second) -> first = second).
Proof.
  intros Hrange Hne Hk.
  destruct (performClustering_returns Math_random pts k calls Hrange Hne Hk)
    as (previous & final & Hrun & Hlen & Hlen' & assign & Hnear & Hat).
  assert (forall i cluster,
             final !! i = Some cluster ->
             points cluster = List.filter (fun p => Nat.eqb (assign p) i) pts) as Hpoints.
  { intros i cluster Hi.
    destruct (previous !! i) as [old |] eqn:Hold.
    - by destruct (Hat i old cluster Hold Hi) as [Hp _].
    - apply lookup_ge_None in Hold. apply lookup_lt_Some in Hi. lia. }
  assert (forall cluster,
             In cluster (List.filter hasPoints final) ->
             exists i, final !! i = Some cluster) as Hindex.
  { intros cluster Hin. apply filter_In in Hin as [Hin _].
    by apply list_elem_of_In, list_elem_of_lookup in Hin. }
  exists (List.filter hasPoints final). split; [by rewrite Hrun |].
  split; [| split].
  - intros cluster Hin. destruct (Hindex cluster Hin) as [i Hi].
    rewrite (Hpoints i cluster Hi). apply filter_sublist.
  - intros p Hp. destruct (Hnear p Hp) as (nearest & Hnearest & _).
    destruct (lookup_lt_is_Some_2 final (assign p)) as [cluster Hcluster].
    { rewrite Hlen'. by apply lookup_lt_Some in Hnearest. }
    assert (In p (points cluster)) as Hin.
    { rewrite (Hpoints _ _ Hcluster). apply filter_In. split; [exact Hp |].
      apply Nat.eqb_refl. }
    exists cluster. split; [| exact Hin].
    apply filter_In. split.
    + apply list_elem_of_In. by apply list_elem_of_lookup_2 in Hcluster.
    + unfold hasPoints. by destruct (points cluster).
  - intros first second p Hfirst Hsecond Hp1 Hp2.
    destruct (Hindex first Hfirst) as [i Hi].
    destruct (Hindex second Hsecond) as [j Hj].
    rewrite (Hpoints _ _ Hi) in Hp1. rewrite (Hpoints _ _ Hj) in Hp2.
    apply filter_In in Hp1 as [_ H1]. apply filter_In in Hp2 as [_ H2].
    apply Nat.eqb_eq in H1, H2. congruence.
Qed.

(** X14.  The description of a cluster that holds points reports as last
    activity the latest timestamp among its points, and as user count the
    integer part of the product of its point count and 0.7 as doubles give
    it, which lies between 0 and the point count. *)
Theorem describeCluster_activity (index : nat) (cluster : Cluster) :
  points cluster <> [] ->
  let described := describeCluster index cluster in
  (exists latest,
      lastActivity described = Fin (inject_Z (timestamp latest)) /\
      In latest (points cluster) /\
      forall p, In p (points cluster) -> (timestamp p <= timestamp latest)%Z) /\
  (0 <= userCount described)%Z /\
  (userCount described <= Z.of_nat (incidentCount described))%Z.
Proof.
  intros Hne described. subst described. unfold describeCluster.
  cbn [lastActivity userCount incidentCount].
  destruct (points cluster) as [| p ps] eqn:Hp; [done |].
  set (n := inject_Z (Z.of_nat (length (p :: ps)))).
  assert (1 <= n)%Q as Hn.
  { subst n. change 1%Q with (inject_Z 1). rewrite <- Zle_Qle. cbn [length]. lia. }
  assert (0 < double 0.7)%Q as Hlit by reflexivity.
  assert (double 0.7 * (1 + 2 ^ (-53)) <= 1)%Q as Hbelow by (vm_compute; discriminate).
  assert (0 < n * double 0.7)%Q as Hpos by (apply Qmult_lt_0_compat; lra).
  split; [| split].
  - destruct (Math_max_nonempty (inject_Z (timestamp p))
                (List.map (fun q => inject_Z (timestamp q)) ps)) as (r & Hmax & Hall & Hin).
    change (inject_Z (timestamp p) :: List.map (fun q => inject_Z (timestamp q)) ps)
      with (List.map (fun q => inject_Z (timestamp q)) (p :: ps)) in Hmax, Hall, Hin.
    apply in_map_iff in Hin as (latest & <- & Hlatest).
    exists latest. split; [exact Hmax |]. split; [exact Hlatest |].
    intros q Hq. rewrite Zle_Qle. apply Hall. apply in_map_iff. by exists q.
  - change 0%Z with (Qfloor 0). apply Qfloor_resp_le, double_nonnegative. lra.
  - pose proof (double_upper (n * double 0.7) Hpos) as Hup.
    pose proof (Qfloor_le (double (n * double 0.7))) as Hfloor.
    rewrite Zle_Qle. fold n.
    assert (n * double 0.7 * (1 + 2 ^ (-53)) <= n * 1)%Q.
    { rewrite <- Qmult_assoc. apply Qmult_le_l; lra. }
    lra.
Qed.

(** In doubles 90 * 0.7 is 62.99999999999999: a cluster of ninety points
    is described with 62 users. *)
Example describeCluster_ninety_points (index : nat) (point : Location) :
  userCount (describeCluster index
               {| center := {| lat := 0; lon := 0 |};
                  points := repeat point 90;
                  radius := Fin 0 |})
  = 62%Z.
Proof.
  unfold describeCluster. cbn [userCount points]. rewrite repeat_length.
  vm_compute. reflexivity.
Qed.

End Centroids.

Lemma clusters_split_batch_witness :
  exists clusters,
    fst (performClustering (M := Sample.math) Sample.zeros GeoInputs.batch 5 0)
    = Some clusters /\
    exists cluster, In cluster clusters /\ In GeoInputs.sighting (points cluster).
Proof.
  destruct (clusters_split_batch (M := Sample.math) Sample.zeros GeoInputs.batch 5 0)
    as (clusters & Hrun & _ & Hall & _).
  - intros n. split; [discriminate | reflexivity].
  - discriminate.
  - lia.
  - exists clusters. split; [exact Hrun |]. apply Hall. by left.
Defined.

Lemma describeCluster_activity_witness :
  (userCount (describeCluster 0 GeoInputs.crowded)
   <= Z.of_nat (incidentCount (describeCluster 0 GeoInputs.crowded)))%Z.
Proof.
  destruct (describeCluster_activity 0 GeoInputs.crowded) as (_ & _ & Hle).
  - discriminate.
  - exact Hle.
Defined.

Section Edges.

Context {M : ECMAMath}.
Variable Math_random : nat -> Q.

Lemma filter_none {A} (keep : A -> bool) (l : list A) :
  (forall x, In x l -> keep x = false) -> List.filter keep l = [].
Proof.
  induction l as [| x l IH]; intros Hall; [reflexivity |]. cbn [List.filter].
  rewrite (Hall x) by (by left). apply IH. intros y Hy. apply Hall. by right.
Qed.

(** X15.  When no zone of the catalog has its reference vertex within the
    search radius (in particular for an empty catalog), proximity
    assessment reports score 0, no nearby zone, and the baseline guidance
    followed by the hint to install the alerts, whatever the radius. *)
Theorem proximity_nothing_in_range (riskZones : list RiskZone) (qlat qlon searchRadius : Q) :
  Forall (fun z => polygon z <> []) riskZones ->
  (forall z, In z riskZones -> (searchRadius < referenceDistance qlat qlon z)%Q) ->
  analyzeProximityRisks riskZones qlat qlon searchRadius
  = Some {| riskScore := Fin 0;
            nearbyRiskZones := [];
            recommendations :=
              ["Low risk area - maintain standard coastal preparedness";
               "Install BlueGuard mobile alerts for real-time updates"] |}.
Proof.
  intros Hwf Hfar. unfold analyzeProximityRisks.
  rewrite (mapM_measureZone _ _ _ Hwf). cbn [mbind option_bind].
  rewrite filter_none; [reflexivity |].
  intros item Hin. apply in_map_iff in Hin as (z & <- & Hz).
  apply Qleb_false. cbn [distance measured]. by apply Hfar.
Qed.

(** X16.  Proximity assessment throws exactly when some zone of the catalog
    has an empty polygon, whatever the query point and the radius. *)
Theorem proximity_throws_on_empty_polygon (riskZones : list RiskZone)
    (qlat qlon searchRadius : Q) :
  analyzeProximityRisks riskZones qlat qlon searchRadius = None
  <-> Exists (fun z => polygon z = []) riskZones.
Proof.
  assert (forall z, measureZone qlat qlon z = None <-> polygon z = []) as Hzone.
  { intros z. unfold measureZone. by destruct (polygon z). }
  unfold analyzeProximityRisks. split.
  - intros Hnone.
    destruct (mapM (measureZone qlat qlon) riskZones) as [measured |] eqn:Hm;
      [cbn in Hnone; discriminate |].
    apply mapM_None in Hm. eapply Exists_impl; [exact Hm |].
    intros z. apply Hzone.
  - intros Hex.
    assert (mapM (measureZone qlat qlon) riskZones = None) as ->; [| reflexivity].
    apply mapM_None. eapply Exists_impl; [exact Hex |].
    intros z. apply Hzone.
Qed.

Lemma fold_visitRoute_None qlat qlon routes :
  fold_left (fun acc route => acc ≫= fun s => visitRoute qlat qlon s route) routes None
  = None.
Proof. induction routes as [| route routes IH]; [reflexivity | exact IH]. Qed.

Lemma fold_visitRoute_throws qlat qlon routes search :
  Exists (fun route => coordinates route = []) routes ->
  fold_left (fun acc route => acc ≫= fun s => visitRoute qlat qlon s route)
    routes (Some search) = None.
Proof.
  intros Hex. revert search.
  induction Hex as [route routes Hroute | route routes _ IH]; intros search;
    cbn [fold_left mbind option_bind].
  - unfold visitRoute. rewrite Hroute. apply fold_visitRoute_None.
  - destruct (visitRoute qlat qlon search route) as [search' |];
      [apply IH | apply fold_visitRoute_None].
Qed.

(** X17.  Evacuation resolution throws, before any random draw, when some
    route of the catalog has no coordinate; and whenever it returns, it
    reports congestion high only for a query point in the Miami box and
    congestion low only for a query point outside it. *)
Theorem evacuation_throws_and_congestion (riskZones : list RiskZone) (qlat qlon : Q)
    (calls : nat) :
  (Exists (fun route => coordinates route = []) (allRoutes riskZones) ->
   getEvacuationAnalysis Math_random riskZones qlat qlon calls = (None, calls)) /\
  forall analysis calls',
    getEvacuationAnalysis Math_random riskZones qlat qlon calls = (Some analysis, calls') ->
    (zoneCongestion analysis = high -> nearMiami qlat qlon) /\
    (zoneCongestion analysis = low -> ~ nearMiami qlat qlon).
Proof.
  unfold getEvacuationAnalysis. rewrite fold_visitZone. split.
  - intros Hex. by rewrite fold_visitRoute_throws.
  - intros analysis calls'.
    destruct (fold_left _ (allRoutes riskZones) _) as [search |]; [| discriminate].
    unfold bind, calculateCongestion, random, ret, nearMiami.
    destruct (Qltb (Qabs (qlat - 25.7617)) 0.1) eqn:E1;
      [apply Qltb_true in E1 | apply Qltb_false in E1];
      (destruct (Qltb (Qabs (qlon + 80.1918)) 0.1) eqn:E2;
       [apply Qltb_true in E2 | apply Qltb_false in E2]);
      cbn [andb]; intros [= <- _]; cbn [zoneCongestion];
      (split; [intros Hhigh | intros Hlow]).
    all: try (by split).
    all: try (destruct (Qltb 0.3 (Math_random calls)); discriminate).
    all: try (destruct (Qltb 0.7 (Math_random calls)); discriminate).
    all: intros [H1 H2]; lra.
Qed.

End Edges.

Lemma proximity_nothing_in_range_witness :
  riskScore <$> analyzeProximityRisks (M := Sample.math) defaultRiskZones 48.85 2.35 10
  = Some (Fin 0).
Proof.
  rewrite (proximity_nothing_in_range (M := Sample.math) defaultRiskZones 48.85 2.35 10).
  - reflexivity.
  - repeat constructor; discriminate.
  - intros z [<- | [<- | []]]; vm_compute; reflexivity.
Defined.

Lemma proximity_throws_on_empty_polygon_witness :
  analyzeProximityRisks (M := Sample.math)
    (defaultRiskZones ++ [GeoExtraInputs.unmapped]) 25.77 (-80.18) 10 = None.
Proof.
  apply (proximity_throws_on_empty_polygon (M := Sample.math)).
  right. right. left. reflexivity.
Defined.

Lemma evacuation_throws_and_congestion_witness :
  getEvacuationAnalysis (M := Sample.math) Sample.zeros
    (defaultRiskZones ++ [GeoExtraInputs.unmapped]) 25.77 (-80.18) 0
  = (None, 0%nat).
Proof.
  destruct (evacuation_throws_and_congestion (M := Sample.math) Sample.zeros
              (defaultRiskZones ++ [GeoExtraInputs.unmapped]) 25.77 (-80.18) 0)
    as [Hthrows _].
  apply Hthrows. right. right. left. reflexivity.
Defined.

Section Heatmap.

Context {M : ECMAMath}.
Variable Math_random : nat -> Q.

Lemma fold_addIntensity_defined qlat qlon riskZones start :
  Forall (fun z => polygon z <> []) riskZones ->
  exists level,
    fold_left (addIntensity qlat qlon) riskZones (Some start) = Some level.
Proof.
  intros Hwf. revert start.
  induction Hwf as [| z riskZones Hz _ IH]; intros start; [by exists start |].
  cbn [fold_left]. unfold addIntensity at 2.
  destruct (polygon z) as [| vertex rest]; [done |]. apply IH.
Qed.

Lemma calculateIntensity_defined riskZones qlat qlon dataType calls :
  Forall (fun z => polygon z <> []) riskZones ->
  exists level calls',
    calculateIntensity Math_random riskZones qlat qlon dataType calls
    = (Some level, calls') /\ (level <= 1)%Q.
Proof.
  intros Hwf. unfold calculateIntensity.
  destruct (fold_addIntensity_defined qlat qlon riskZones 0 Hwf) as [level ->].
  unfold bind, ret, random.
  destruct dataType; eexists _, _; (split; [reflexivity | apply Q.le_min_l]).
Qed.

Lemma getRandomDataType_kind dataType calls :
  let kind := fst (getRandomDataType Math_random dataType calls) in
  (dataType = incidents -> kind = Some kind_incident) /\
  (dataType = user_activity -> kind = Some kind_user_activity) /\
  (inUnitInterval Math_random -> is_Some kind).
Proof.
  intros kind. subst kind. destruct dataType.
  - split; [done |]. split; [done |]. intros _. cbn. eauto.
  - split; [done |]. split; [done |]. intros _. cbn. eauto.
  - split; [done |]. split; [done |].
    intros Hrange. unfold getRandomDataType, bind, random, ret. cbn [fst].
    destruct (Hrange calls) as [H0 H1].
    destruct (arrayGet_sampled
                [kind_incident; kind_user_activity; kind_sensor_alert; kind_risk_prediction]
                (Math_random calls)) as [kind Hkind]; [done | done | done |].
    cbn [length] in Hkind. change (inject_Z (Z.of_nat 4)) with 4%Q in Hkind.
    rewrite Hkind. eauto.
Qed.

Lemma heatmapLoop_points riskZones now region dataType n heatmapData calls :
  Forall (fun z => polygon z <> []) riskZones ->
  Forall (heatmapPoint Math_random region dataType) heatmapData ->
  exists points calls',
    heatmapLoop Math_random riskZones now region dataType n heatmapData calls
    = (Some points, calls') /\
    Forall (heatmapPoint Math_random region dataType) points /\
    (length points <= length heatmapData + n)%nat.
Proof.
  intros Hwf. revert heatmapData calls.
  induction n as [| n IH]; intros heatmapData calls Hall.
  - exists heatmapData, calls. split; [reflexivity |]. split; [exact Hall | lia].
  - cbn [heatmapLoop]. unfold bind at 1 2 3. unfold random at 1 2.
    set (plat := (lat (southWest region)
                  + Math_random calls * (lat (northEast region) - lat (southWest region)))%Q).
    set (plon := (lon (southWest region)
                  + Math_random (S calls)
                    * (lon (northEast region) - lon (southWest region)))%Q).
    destruct (calculateIntensity_defined riskZones plat plon dataType (S (S calls)) Hwf)
      as (level & calls1 & -> & Hle).
    destruct (Qltb 0.1 level) eqn:E; [apply Qltb_true in E |].
    + unfold bind.
      pose proof (getRandomDataType_kind dataType calls1) as (Hinc & Huser & Hkind).
      destruct (getRandomDataType Math_random dataType calls1) as [kind calls2].
      cbn [fst] in Hinc, Huser, Hkind. unfold random.
      destruct (IH (heatmapData
                    ++ [ {| heat_lat := plat; heat_lon := plon; intensity := level;
                            heat_type := kind;
                            heat_timestamp :=
                              newDate (inject_Z now
                                       - Math_random calls2 * 30 * 24 * 60 * 60 * 1000) |} ])%list
                  (S calls2)) as (points & calls' & Hrun & Hpoints & Hlen).
      * apply Forall_app. split; [exact Hall |]. constructor; [| constructor].
        unfold heatmapPoint.
        cbn [intensity heat_type heat_lat heat_lon].
        split; [exact E |]. split; [exact Hle |]. split; [exact Hinc |].
        split; [exact Huser |].
        intros Hrange Hlat Hlon. split; [by apply Hkind |].
        destruct (Hrange calls) as [H0 H1]. destruct (Hrange (S calls)) as [H2 H3].
        subst plat plon. repeat split; nra.
      * exists points, calls'. split; [exact Hrun |]. split; [exact Hpoints |].
        rewrite length_app in Hlen. cbn [length] in Hlen. lia.
    + destruct (IH heatmapData calls1 Hall) as (points & calls' & Hrun & Hpoints & Hlen).
      exists points, calls'. split; [exact Hrun |]. split; [exact Hpoints | lia].
Qed.

Lemma StronglySorted_weaken {A} (R R' : A -> A -> Prop) (l : list A) :
  (forall a b, R a b -> R' a b) -> StronglySorted R l -> StronglySorted R' l.
Proof.
  intros Himpl. induction 1 as [| x l _ IH Hall]; constructor; [exact IH |].
  eapply Forall_impl; [exact Hall |]. intros y. apply Himpl.
Qed.

(** X18.  For a catalog whose zones all have a reference vertex, the
    heatmap of a region holds at most 100 points, ordered by decreasing
    intensity; every point has an intensity above 0.1 and at most 1 and the
    type the filter asks for; and with draws in [0, 1) and a region whose
    north-east corner is not south or west of its south-west corner, every
    point has a type and lies in the region. *)
Theorem generateHeatmap_points riskZones now region dataType calls :
  Forall (fun z => polygon z <> []) riskZones ->
  exists points calls',
    generateHeatmap Math_random riskZones now region dataType calls
    = (Some points, calls') /\
    (length points <= 100)%nat /\
    StronglySorted (fun a b => (intensity b <= intensity a)%Q) points /\
    Forall (heatmapPoint Math_random region dataType) points.
Proof.
  intros Hwf. unfold generateHeatmap, bind, ret.
  destruct (heatmapLoop_points riskZones now region dataType 100 [] calls Hwf)
    as (points & calls' & -> & Hpoints & Hlen); [constructor |].
  eexists _, calls'. split; [reflexivity |]. cbn [fmap option_fmap option_map].
  split; [| split].
  - rewrite (Permutation_length (sortBy_Permutation _ points)). cbn in Hlen. lia.
  - eapply StronglySorted_weaken; [| apply sortBy_StronglySorted].
    intros a b Hab. unfold ascending in Hab. lra.
  - by rewrite (sortBy_Permutation _ points).
Qed.

(** X19.  Over an empty catalog the heatmap is empty, whatever the region,
    the filter and the draws. *)
Theorem generateHeatmap_empty_catalog now region dataType calls :
  fst (generateHeatmap Math_random [] now region dataType calls) = Some [].
Proof.
  unfold generateHeatmap, bind, ret.
  assert (forall n calls,
             fst (heatmapLoop Math_random [] now region dataType n [] calls) = Some [])
    as Hloop.
  { induction n as [| n IH]; intros c; [reflexivity |].
    cbn [heatmapLoop]. unfold bind, random, calculateIntensity, ret.
    cbn [fold_left]. destruct dataType; cbn [Qmin]; apply IH || idtac.
    all: unfold bind, random, ret.
    all: match goal with
         | |- context [Qltb 0.1 ?x] =>
             assert (Qltb 0.1 x = false) as ->
               by (apply Qltb_false; apply Q.min_le_iff; right; lra)
         end.
    all: apply IH. }
  specialize (Hloop 100%nat calls).
  destruct (heatmapLoop Math_random [] now region dataType 100 [] calls) as [points c].
  cbn [fst] in *. by rewrite Hloop.
Qed.

End Heatmap.

Lemma generateHeatmap_points_witness :
  exists points,
    fst (generateHeatmap (M := Sample.math) Inputs.halves defaultRiskZones 0
           GeoExtraInputs.miamiShore combined 0) = Some points /\
    (length points <= 100)%nat.
Proof.
  destruct (generateHeatmap_points (M := Sample.math) Inputs.halves defaultRiskZones 0
              GeoExtraInputs.miamiShore combined 0)
    as (points & calls' & Hrun & Hlen & _).
  - repeat constructor; discriminate.
  - exists points. split; [by rewrite Hrun | exact Hlen].
Defined.

Section Mocks.

Context {M : ECMAMath}.
Variable Math_random : nat -> Q.

Lemma Qfloor_scaled (r : Q) (n : Z) :
  (0 <= r)%Q -> (r < 1)%Q -> (0 < n)%Z ->
  (0 <= Qfloor (r * inject_Z n))%Z /\ (Qfloor (r * inject_Z n) < n)%Z.
Proof.
  intros H0 H1 Hn.
  assert (0 < inject_Z n)%Q as Hq by (change 0%Q with (inject_Z 0); by rewrite <- Zlt_Qlt).
  split.
  - change 0%Z with (Qfloor 0). apply Qfloor_resp_le. apply Qmult_le_0_compat; lra.
  - rewrite Zlt_Qlt. pose proof (Qfloor_le (r * inject_Z n)).
    assert (r * inject_Z n < 1 * inject_Z n)%Q by (apply Qmult_lt_compat_r; lra). lra.
Qed.

(** X20.  With draws in [0, 1) the regional statistics report between 50
    and 149 incidents, a trend, between 10000 and 59999 people at risk and
    an economic impact from one million up to, not including, eleven
    million; they use four draws and do not depend on the region asked
    for. *)
Theorem getRegionalStatistics_ranges now region calls :
  inUnitInterval Math_random ->
  let stats := fst (getRegionalStatistics Math_random now region calls) in
  (50 <= totalIncidents stats <= 149)%Z /\
  is_Some (riskTrend stats) /\
  (10000 <= populationAtRisk stats <= 59999)%Z /\
  (1000000 <= economicImpact stats)%Q /\ (economicImpact stats < 11000000)%Q /\
  snd (getRegionalStatistics Math_random now region calls) = (calls + 4)%nat /\
  forall other, getRegionalStatistics Math_random now other calls
                = getRegionalStatistics Math_random now region calls.
Proof.
  intros Hrange stats. subst stats.
  unfold getRegionalStatistics, bind, random, ret.
  cbn [fst snd totalIncidents riskTrend populationAtRisk economicImpact].
  destruct (Hrange calls) as [Ha0 Ha1]. destruct (Hrange (S calls)) as [Hb0 Hb1].
  destruct (Hrange (S (S calls))) as [Hc0 Hc1].
  destruct (Hrange (S (S (S calls)))) as [Hd0 Hd1].
  pose proof (Qfloor_scaled (Math_random calls) 100 Ha0 Ha1 eq_refl) as [? ?].
  pose proof (Qfloor_scaled (Math_random (S (S calls))) 50000 Hc0 Hc1 eq_refl) as [? ?].
  change (inject_Z 100) with 100%Q in *. change (inject_Z 50000) with 50000%Q in *.
  split; [lia |]. split.
  - destruct (arrayGet_sampled [increasing; stable; decreasing]
                (Math_random (S calls))) as [trend Ht]; [done | done | done |].
    cbn [length] in Ht. change (inject_Z (Z.of_nat 3)) with 3%Q in Ht.
    rewrite Ht. eauto.
  - split; [lia |]. split; [lra |]. split; [lra |]. split; [lia | reflexivity].
Qed.

(** What every mock incident satisfies. *)
Lemma mockLoop_finishes now searchRadius fuel i incidents calls
    (P : Incident -> Prop) :
  inUnitInterval Math_random ->
  (forall r1 r2 r3,
      (0 <= r1)%Q -> (r1 < 1)%Q -> (0 <= r2)%Q -> (r2 < 1)%Q ->
      P {| incident_type := arrayGet incidentTypes (Qfloor (r1 * 5));
           incident_distance := (r2 * searchRadius)%Q;
           incident_timestamp :=
             newDate (inject_Z now - r3 * 30 * 24 * 60 * 60 * 1000) |}) ->
  (i <= 5)%nat -> (6 <= i + fuel)%nat -> length incidents = i -> Forall P incidents ->
  exists found calls',
    mockLoop Math_random now searchRadius fuel i incidents calls = (Some found, calls') /\
    Forall P found /\ (1 <= length found)%nat /\ (length found <= 5)%nat.
Proof.
  intros Hrange Hnew. revert i incidents calls.
  induction fuel as [| fuel IH]; intros i incidents calls Hi Hfuel Hlen Hall; [lia |].
  cbn [mockLoop]. unfold bind at 1. unfold random at 1.
  destruct (Hrange calls) as [H0 H1].
  pose proof (Qfloor_scaled (Math_random calls) 5 H0 H1 eq_refl) as [Hlo Hhi].
  change (inject_Z 5) with 5%Q in *.
  destruct (Z.ltb_spec (Z.of_nat i) (Qfloor (Math_random calls * 5) + 1)) as [Hlt | Hge].
  - unfold bind, random.
    destruct (Hrange (S calls)) as [H4 H5].
    destruct (Hrange (S (S calls))) as [H2 H3].
    apply IH; [lia | lia | rewrite length_app; cbn [length]; lia |].
    apply Forall_app. split; [exact Hall |]. constructor; [| constructor].
    by apply Hnew.
  - exists incidents, (S calls). split; [reflexivity |]. split; [exact Hall |]. lia.
Qed.

(** X21.  With draws in [0, 1) the mock incidents of a proximity report
    are between one and five, each of a listed type and at a distance from
    0 up to, not including, the search radius (for a positive radius), in
    order of increasing distance; the loop that builds them ends within six
    tests of its condition. *)
Theorem generateMockIncidents_shape (fuel : nat) now qlat qlon searchRadius calls :
  inUnitInterval Math_random -> (6 <= fuel)%nat -> (0 < searchRadius)%Q ->
  exists incidents calls',
    generateMockIncidents Math_random fuel now qlat qlon searchRadius calls
    = (Some incidents, calls') /\
    (1 <= length incidents)%nat /\ (length incidents <= 5)%nat /\
    StronglySorted (ascending incident_distance) incidents /\
    Forall (fun incident =>
              (exists kind, incident_type incident = Some kind /\ In kind incidentTypes) /\
              (0 <= incident_distance incident)%Q /\
              (incident_distance incident < searchRadius)%Q) incidents.
Proof.
  intros Hrange Hfuel Hradius. unfold generateMockIncidents, bind, ret.
  destruct (mockLoop_finishes now searchRadius fuel 0 [] calls
              (fun incident =>
                 (exists kind, incident_type incident = Some kind /\ In kind incidentTypes) /\
                 (0 <= incident_distance incident)%Q /\
                 (incident_distance incident < searchRadius)%Q) Hrange)
    as (found & calls' & -> & Hall & Hlo & Hhi); [| lia | lia | reflexivity | constructor |].
  - intros r1 r2 r3 H0 H1 H2 H3. cbn [incident_type incident_distance]. split.
    + destruct (arrayGet_sampled incidentTypes r1) as [kind Hkind]; [done | done | done |].
      cbn [length incidentTypes] in Hkind.
      change (inject_Z (Z.of_nat 5)) with 5%Q in Hkind.
      exists kind. split; [exact Hkind |].
      unfold arrayGet in Hkind. destruct (Qfloor (r1 * 5) <? 0)%Z; [discriminate |].
      apply list_elem_of_In. by eapply list_elem_of_lookup_2.
    + split; [apply Qmult_le_0_compat; lra |].
      assert (r2 * searchRadius < 1 * searchRadius)%Q by (apply Qmult_lt_compat_r; lra).
      lra.
  - eexists _, calls'. split; [reflexivity |]. cbn [fmap option_fmap option_map].
    rewrite (Permutation_length (sortBy_Permutation _ found)).
    split; [exact Hlo |]. split; [exact Hhi |].
    split; [apply sortBy_StronglySorted |]. by rewrite (sortBy_Permutation _ found).
Qed.

End Mocks.

Lemma getRegionalStatistics_ranges_witness :
  (50 <= totalIncidents
           (fst (getRegionalStatistics Inputs.halves 0 "Gulf Coast" 0%nat)) <= 149)%Z.
Proof.
  destruct (getRegionalStatistics_ranges Inputs.halves 0 "Gulf Coast" 0) as [Hcount _].
  - intros n. split; [discriminate | reflexivity].
  - exact Hcount.
Defined.

Lemma generateMockIncidents_shape_witness :
  exists incidents,
    fst (generateMockIncidents Inputs.halves 6 0 25.77 (-80.18) 10 0) = Some incidents /\
    (length incidents <= 5)%nat.
Proof.
  destruct (generateMockIncidents_shape Inputs.halves 6 0 25.77 (-80.18) 10 0)
    as (incidents & calls' & Hrun & _ & Hlen & _).
  - intros n. split; [discriminate | reflexivity].
  - lia.
  - reflexivity.
  - exists incidents. split; [by rewrite Hrun | exact Hlen].
Defined.

Section Distance.

Context {M : ECMAMath}.

(** X22.  With a [Math] library that is exact at the arguments where
    ECMAScript fixes the result, the great-circle distance from a point to
    itself is 0. *)
Theorem calculateDistance_to_itself (plat plon : Q) :
  exactAtZero -> (calculateDistance plat plon plat plon == 0)%Q.
Proof.
  intros (Hsin & Hsqrt0 & Hsqrt1 & Hatan). unfold calculateDistance.
  set (s1 := Math_sin ((plat - plat) * Math_PI / 180 / 2)).
  set (s2 := Math_sin ((plon - plon) * Math_PI / 180 / 2)).
  assert (s1 == 0)%Q as H1 by (apply Hsin; field).
  assert (s2 == 0)%Q as H2 by (apply Hsin; field).
  set (c := (Math_cos (plat * Math_PI / 180) * Math_cos (plat * Math_PI / 180))%Q).
  set (a := (s1 * s1 + c * s2 * s2)%Q).
  assert (a == 0)%Q as Ha by (subst a; rewrite H1, H2; ring).
  rewrite (Hatan (Math_sqrt a) (Math_sqrt (1 - a))).
  - ring.
  - by apply Hsqrt0.
  - apply Hsqrt1. rewrite Ha. ring.
Qed.

End Distance.

Lemma calculateDistance_to_itself_witness :
  (calculateDistance (M := Sample.math) 25.7617 (-80.1918) 25.7617 (-80.1918) == 0)%Q.
Proof.
  apply (calculateDistance_to_itself (M := Sample.math)).
  split; [| split; [| split]].
  - intros x Hx. cbn [Math_sin Sample.math]. unfold Sample.sin. rewrite Hx. reflexivity.
  - intros x Hx. cbn [Math_sqrt Sample.math]. unfold Sample.sqrt. rewrite Hx. reflexivity.
  - intros x Hx. cbn [Math_sqrt Sample.math]. unfold Sample.sqrt. rewrite Hx. reflexivity.
  - intros y x Hy Hx. cbn [Math_atan2 Sample.math]. unfold Sample.atan2.
    assert (Qltb 0 x = true) as -> by (by apply Qltb_true).
    assert (y / x == 0)%Q as Hz by (rewrite Hy; field; lra).
    unfold Sample.atan.
    assert (Qleb (Qabs (y / x)) 1 = true) as ->
      by (apply Qleb_true; rewrite Hz; discriminate).
    rewrite Hz. reflexivity.
Defined.

Section Guidance.

Context {M : ECMAMath}.

Lemma Qround_above (x : Q) (n : Z) : (n < Qround x)%Z -> (inject_Z n + (1 # 2) <= x)%Q.
Proof.
  unfold Qround. intros Hlt.
  pose proof (Qfloor_le (x + (1 # 2))) as Hfloor.
  assert (inject_Z (n + 1) <= inject_Z (Qfloor (x + (1 # 2))))%Q as Hn
    by (rewrite <- Zle_Qle; lia).
  rewrite inject_Z_plus in Hn. change (inject_Z 1) with 1%Q in Hn. lra.
Qed.

Lemma Qround_below (x : Q) (n : Z) : (Qround x < n)%Z -> (x < inject_Z n - (1 # 2))%Q.
Proof.
  unfold Qround. intros Hlt.
  pose proof (Qlt_floor (x + (1 # 2))) as Hfloor.
  assert (inject_Z (Qfloor (x + (1 # 2)) + 1) <= inject_Z n)%Q as Hn
    by (rewrite <- Zle_Qle; lia).
  lra.
Qed.

(** X23.  For a search radius other than 0 the guidance follows the score
    that is reported: a score above 70 comes with the high-risk advice, a
    score strictly between 40 and 70 with the moderate-risk advice, a score
    below 40 with the baseline advice (at exactly 40 or 70 the advice is
    that of the unrounded score); and the hint to install the alerts always
    comes last. *)
Theorem recommendations_follow_score (riskZones : list RiskZone)
    (qlat qlon searchRadius : Q) :
  Forall (fun z => polygon z <> []) riskZones -> ~ (searchRadius == 0)%Q ->
  exists report score first rest,
    analyzeProximityRisks riskZones qlat qlon searchRadius = Some report /\
    riskScore report = Fin score /\
    recommendations report = first :: rest /\
    ((70 < score)%Q ->
     first = "High risk area - consider relocation during storm season") /\
    ((40 < score)%Q -> (score < 70)%Q ->
     first = "Moderate risk - stay informed about weather conditions") /\
    ((score < 40)%Q ->
     first = "Low risk area - maintain standard coastal preparedness") /\
    last (first :: rest) = Some "Install BlueGuard mobile alerts for real-time updates".
Proof.
  intros Hwf Hnz. unfold analyzeProximityRisks.
  rewrite (mapM_measureZone _ _ _ Hwf). cbn [mbind option_bind].
  set (nearby := sortBy distance _).
  destruct (fold_addZoneRisk_finite searchRadius nearby 0 Hnz) as (raw & -> & _).
  change (round (Fin raw)) with (Fin (inject_Z (Qround raw))).
  set (r := inject_Z (Qround raw)).
  change (JS.min (Fin 100) (Fin r)) with (if Qltb r 100 then Fin r else Fin 100).
  unfold generateLocationRecommendations.
  change (gtb (Fin raw) (Fin 70)) with (Qltb 70 raw).
  change (gtb (Fin raw) (Fin 40)) with (Qltb 40 raw).
  assert (forall n : Z, (inject_Z n < r)%Q -> (inject_Z n + (1 # 2) <= raw)%Q) as Habove.
  { intros n Hn. apply Qround_above. subst r. by rewrite Zlt_Qlt. }
  assert (forall n : Z, (r < inject_Z n)%Q -> (raw < inject_Z n - (1 # 2))%Q) as Hbelow.
  { intros n Hn. apply Qround_below. subst r. by rewrite Zlt_Qlt. }
  pose proof (Habove 70%Z) as Ha70. pose proof (Habove 40%Z) as Ha40.
  pose proof (Hbelow 70%Z) as Hb70. pose proof (Hbelow 40%Z) as Hb40.
  change (inject_Z 70) with 70%Q in *. change (inject_Z 40) with 40%Q in *.
  assert (forall tail : list string,
             last (tail ++ ["Install BlueGuard mobile alerts for real-time updates"])
             = Some "Install BlueGuard mobile alerts for real-time updates") as Hlast
    by (intros tail; apply last_snoc).
  destruct (Qltb r 100) eqn:E100; [apply Qltb_true in E100 | apply Qltb_false in E100];
    (destruct (Qltb 70 raw) eqn:E70; [apply Qltb_true in E70 | apply Qltb_false in E70];
     [| destruct (Qltb 40 raw) eqn:E40;
        [apply Qltb_true in E40 | apply Qltb_false in E40]]);
    eexists _, _, _, _; (split; [reflexivity |]); (split; [reflexivity |]);
    (split; [reflexivity |]);
    (split; [intros; try reflexivity; exfalso; lra |]);
    (split; [intros; try reflexivity; exfalso; lra |]);
    (split; [intros; try reflexivity; exfalso; lra |]).
  all: destruct nearby; cbn [app];
    first [ apply (Hlast [_]) | apply (Hlast [_; _]) | apply (Hlast [])
          | apply (Hlast [_; _; _]) ].
Qed.

End Guidance.

Lemma recommendations_follow_score_witness :
  exists report,
    analyzeProximityRisks (M := Sample.math) defaultRiskZones 25.77 (-80.18) 10
    = Some report /\
    last (recommendations report)
    = Some "Install BlueGuard mobile alerts for real-time updates".
Proof.
  destruct (recommendations_follow_score (M := Sample.math) defaultRiskZones
              25.77 (-80.18) 10)
    as (report & score & first & rest & Hrun & _ & Hrec & _ & _ & _ & Hlast).
  - repeat constructor; discriminate.
  - discriminate.
  - exists report. split; [exact Hrun |]. by rewrite Hrec.
Defined.

End GeoExtras.
